(** * ikarus [utils.py]: label propagation over a cell-similarity graph

    A shallow embedding of [label_propagation] and [cell_annotator] of
    [src/utils.py], and the properties of the propagation engine proved
    about it.

    Numbers.  The source computes with float64.  In the model of the loop a
    finite float is an exact rational ([Q]) and the IEEE special values
    ([+inf], [-inf], [nan]) are kept, because the renormalize step can
    produce them (a row divided by a zero row sum).  Rounding, overflow and
    the sign of zero are not modelled there; statements that hold "within
    epsilon" for floats hold exactly.  The result of an arithmetic
    operation is kept in lowest terms ([Qred]), which leaves its value
    unchanged.  Input columns (signature scores, classifier probabilities,
    connectivities) are finite.  Where a property turns on rounding itself
    (the quantile levels of the threshold schedule) the arithmetic is that
    of module [Binary64]: every operation returns the float64 nearest to
    its exact result.

    Tables.  A DataFrame is a list of rows in index order; the columns the
    source reads by name are the fields of [cell]. *)

From Stdlib Require Import QArith Qround Qabs Qpower ZArith List Bool Lia Lqa String Sorted.
From Stdlib Require Floats.
From stdpp Require Import base option list gmap strings.
Import ListNotations.

Open Scope Q_scope.

(** ** Exceptions and the error monad *)

Inductive exn : Type :=
| NameError (var : string)
| ValueError (what : string)
| IndexError
| KeyError (key : string).

Inductive result (A : Type) : Type :=
| Ok (a : A)
| Raise (e : exn).
Arguments Ok {A} a.
Arguments Raise {A} e.

#[global] Instance result_ret : MRet result := fun A a => Ok a.
#[global] Instance result_bind : MBind result := fun A B f m =>
  match m with
  | Ok a => f a
  | Raise e => Raise e
  end.

(** ** float64, idealised *)

Module Float.

Inductive fval : Type :=
| Fin (q : Q)
| PInf
| NInf
| NaN.

Definition Qltb (x y : Q) : bool := negb (Qle_bool y x).

Definition signed_inf (positive : bool) : fval :=
  if positive then PInf else NInf.

Definition fadd (x y : fval) : fval :=
  match x, y with
  | NaN, _ | _, NaN => NaN
  | Fin a, Fin b => Fin (Qred (a + b))
  | PInf, NInf | NInf, PInf => NaN
  | PInf, _ | _, PInf => PInf
  | NInf, _ | _, NInf => NInf
  end.

Definition fmul (x y : fval) : fval :=
  match x, y with
  | NaN, _ | _, NaN => NaN
  | Fin a, Fin b => Fin (Qred (a * b))
  | Fin a, PInf | PInf, Fin a =>
      if Qeq_bool a 0 then NaN else signed_inf (Qltb 0 a)
  | Fin a, NInf | NInf, Fin a =>
      if Qeq_bool a 0 then NaN else signed_inf (Qltb a 0)
  | PInf, PInf | NInf, NInf => PInf
  | PInf, NInf | NInf, PInf => NInf
  end.

(** [x / y]; a finite value over zero is [nan] when it is zero itself and
    an infinity of its own sign otherwise, as numpy's true division gives
    (with a RuntimeWarning, never an exception). *)
Definition fdiv (x y : fval) : fval :=
  match x, y with
  | NaN, _ | _, NaN => NaN
  | Fin a, Fin b =>
      if Qeq_bool b 0
      then (if Qeq_bool a 0 then NaN else signed_inf (Qltb 0 a))
      else Fin (Qred (a / b))
  | Fin _, (PInf | NInf) => Fin 0
  | PInf, Fin b => signed_inf (Qle_bool 0 b)
  | NInf, Fin b => signed_inf (Qltb b 0)
  | (PInf | NInf), (PInf | NInf) => NaN
  end.

(** [x < y]; every comparison with [nan] is false. *)
Definition fltb (x y : fval) : bool :=
  match x, y with
  | NaN, _ | _, NaN => false
  | Fin a, Fin b => Qltb a b
  | NInf, NInf => false
  | NInf, _ => true
  | _, NInf => false
  | PInf, _ => false
  | Fin _, PInf => true
  end.

Definition is_nan (x : fval) : bool :=
  match x with NaN => true | _ => false end.

Definition is_finite (x : fval) : bool :=
  match x with Fin _ => true | _ => false end.

(** Same value (the model's equivalence, not IEEE [==]). *)
Definition feq (x y : fval) : Prop :=
  match x, y with
  | Fin a, Fin b => a == b
  | PInf, PInf | NInf, NInf | NaN, NaN => True
  | _, _ => False
  end.

End Float.
Import Float.

(** ** pandas / numpy primitives *)

(** Stable insertion sort of the non-missing values, ascending. *)
Fixpoint insert_sorted (x : Q) (l : list Q) : list Q :=
  match l with
  | [] => [x]
  | y :: t => if Qle_bool x y then x :: l else y :: insert_sorted x t
  end.

Definition sort_values (l : list Q) : list Q :=
  fold_right insert_sorted [] l.

(** Element [i] of a sorted array, the index clipped to the last position
    (numpy clips the upper neighbour of the virtual index). *)
Definition at_clipped (v : list Q) (i : nat) : Q :=
  nth (Nat.min i (length v - 1)) v 0.

(** Linear interpolation at the virtual index [q * (n - 1)]. *)
Definition percentile_linear (v : list Q) (q : Q) : Q :=
  let h := q * inject_Z (Z.of_nat (length v - 1)) in
  let k := Qfloor h in
  let gamma := h - inject_Z k in
  let lo := at_clipped v (Z.to_nat k) in
  let hi := at_clipped v (Z.to_nat (k + 1)) in
  lo + (hi - lo) * gamma.

(** [Series.quantile(q=q)] (linear interpolation): [ValueError] unless
    [0 <= q <= 1]; [nan] ([None]) on an empty series. *)
Definition quantile (xs : list Q) (q : Q) : result (option Q) :=
  if Qle_bool 0 q && Qle_bool q 1
  then Ok (match xs with
           | [] => None
           | _ => Some (percentile_linear (sort_values xs) q)
           end)
  else Raise (ValueError "percentiles should all be in the interval [0, 1]").

(** [absdif > threshold], elementwise; nothing is greater than [nan]. *)
Definition gt_threshold (thr : option Q) (a : Q) : bool :=
  match thr with
  | Some t => Qltb t a
  | None => false
  end.

(** [np.linspace(start, stop, num)]: [arange(num) * step + start] with
    [step = (stop - start) / (num - 1)], the last element set to [stop]
    when [num > 1]; for [num = 1] the array is [[start]].  Every operation
    is exact here; [Binary64.linspace] rounds each one. *)
Definition linspace (start stop : Q) (num : nat) : list Q :=
  let div := (num - 1)%nat in
  let delta := stop - start in
  let y := map (fun i : nat =>
                  if (0 <? div)%nat
                  then inject_Z (Z.of_nat i) * (delta / inject_Z (Z.of_nat div)) + start
                  else inject_Z (Z.of_nat i) * delta + start)
               (seq 0 num) in
  if (1 <? num)%nat then firstn (num - 1) y ++ [stop] else y.

(** Indexing an array: [IndexError] out of range. *)
Definition getitem {A : Type} (l : list A) (i : nat) : result A :=
  match nth_error l i with
  | Some x => Ok x
  | None => Raise IndexError
  end.

(** ** The result table and the working matrix *)

(** The two classes, named as the columns of [proba_tier_0]. *)
Inductive class : Type := class_Normal | class_Tumor.

(** One row of [results] on entry to [label_propagation]: the two signature
    score columns ['Normal'] and ['Tumor'], and the classifier's
    probabilities ['LR_proba_Normal'] and ['LR_proba_Tumor']. *)
Record cell : Type := {
  Normal : Q;
  Tumor : Q;
  LR_proba_Normal : Q;
  LR_proba_Tumor : Q
}.

(** [proba_tier_0]: one (Normal, Tumor) row per cell. *)
Definition matrix : Type := list (fval * fval).

(** A hard assignment: the column label [idxmax] gives each row, [None] for
    pandas' missing label on an all-[nan] row. *)
Definition assignment : Type := list (option class).

Definition epsilon_mask : Q := 1 # 1000000.

Definition drift_threshold : Q := 1 # 1000.

(** [results.loc[:, ['LR_proba_Normal', 'LR_proba_Tumor']].copy()] *)
Definition initial_proba (results : list cell) : matrix :=
  map (fun r => (Fin (LR_proba_Normal r), Fin (LR_proba_Tumor r))) results.

(** [abs(results['Normal'] - results['Tumor'])] *)
Definition absdif_of (results : list cell) : list Q :=
  map (fun r => Qabs (Normal r - Tumor r)) results.

(** The boolean column set by
    [results.loc[absdif > absdif.quantile(q=q), col] = True]. *)
Definition certain_column (absdif : list Q) (q : Q) : result (list bool) :=
  thr ← quantile absdif q;
  mret (map (gt_threshold thr) absdif).

(** [certainty_threshold * np.linspace(1, 0, n_iter)[i]], evaluated
    exactly; [Binary64.certainty_threshold_pct] is its float64 evaluation. *)
Definition certainty_threshold_pct (certainty_threshold : Q) (n_iter : Z) (i : nat)
  : result Q :=
  y ← getitem (linspace 1 0 (Z.to_nat n_iter)) i;
  mret (certainty_threshold * y).

(** The schedule in the specification's words:
    [tau_i = tau * (1 - i / (n_iter - 1))]. *)
Definition spec_threshold (tau : Q) (n_iter : Z) (i : nat) : Q :=
  tau * (1 - inject_Z (Z.of_nat i) / inject_Z (n_iter - 1)).

(** Lines 210-215: the column [certain{i}] of iteration [i]. *)
Definition certain_at (absdif : list Q) (certainty_threshold : Q) (n_iter : Z)
  (i : nat) : result (list bool) :=
  pct ← certainty_threshold_pct certainty_threshold n_iter i;
  certain_column absdif pct.

(** Mask step: [proba_tier_0.loc[results[f'certain{i}'] == False] = 0.000001] *)
Definition mask_step (certain_i : list bool) (M : matrix) : matrix :=
  map (fun '(c, row) => if c : bool then row else (Fin epsilon_mask, Fin epsilon_mask))
      (combine certain_i M).

(** One row of [np.dot(connectivities, proba_tier_0.values)]. *)
Definition dot_row (w : list Q) (M : matrix) : fval * fval :=
  fold_left (fun acc '(a, (x, y)) =>
               (fadd (fst acc) (fmul (Fin a) x), fadd (snd acc) (fmul (Fin a) y)))
            (combine w M) (Fin 0, Fin 0).

(** Propagate step.  [connectivities] is an (m, k) [np.matrix] and [M] is
    (n, 2): the product needs [k = n]. *)
Definition np_dot (connectivities : list (list Q)) (M : matrix) : result matrix :=
  if forallb (fun w => (length w =? length M)%nat) connectivities
  then Ok (map (fun w => dot_row w M) connectivities)
  else Raise (ValueError "shapes not aligned").

Definition row_sum (row : fval * fval) : fval := fadd (fst row) (snd row).

(** Renormalize step: [np.divide(lp_step_mtx, lp_step_mtx.sum(axis=1))];
    the matrix row sums are an (m, 1) column, so every row is divided by
    its own sum.  No check precedes the division. *)
Definition renormalize (M : matrix) : matrix :=
  map (fun row => (fdiv (fst row) (row_sum row), fdiv (snd row) (row_sum row))) M.

(** [proba_tier_0.loc[:, :] = lp_step_mtx] needs as many rows as the frame
    has.  (A product of one row over a frame of several, which pandas may
    spread over the frame, can only come from a graph that is not square
    over the cells; it is taken as the error as well.) *)
Definition assign_all (old new : matrix) : result matrix :=
  if (length new =? length old)%nat then Ok new
  else Raise (ValueError "shape mismatch").

Definition fill_na (x : fval) : fval :=
  match x with NaN => NInf | _ => x end.

(** [idxmax(axis=1)] on one row: missing values are skipped (filled with
    [-inf]), the first maximal column wins, an all-[nan] row has no label. *)
Definition idxmax_row (row : fval * fval) : option class :=
  if is_nan (fst row) && is_nan (snd row) then None
  else if fltb (fill_na (fst row)) (fill_na (snd row)) then Some class_Tumor
  else Some class_Normal.

Definition idxmax (M : matrix) : assignment := map idxmax_row M.

(** [current != pre] on one cell; a missing label differs from everything,
    itself included. *)
Definition label_ne (a b : option class) : bool :=
  match a, b with
  | Some class_Normal, Some class_Normal => false
  | Some class_Tumor, Some class_Tumor => false
  | _, _ => true
  end.

(** [(current != pre).sum()] *)
Definition count_changed (current pre : assignment) : nat :=
  length (filter (fun '(a, b) => label_ne a b = true) (combine current pre)).

(** [(current != pre).sum() / current.size]; [0 / 0] is [nan] ([None]). *)
Definition drift (current pre : assignment) : option Q :=
  match length current with
  | O => None
  | S _ => Some (inject_Z (Z.of_nat (count_changed current pre))
                 / inject_Z (Z.of_nat (length current)))
  end.

(** [drift < 0.001] *)
Definition drift_below (d : option Q) : bool :=
  match d with
  | Some q => Qltb q drift_threshold
  | None => false
  end.

(** ** The diffusion loop *)

(** What [print] writes: the non-convergence warning with the drift it
    shows and the iteration budget. *)
Inductive message : Type :=
| NonConvergence (final_drift : option Q) (n_iter : Z).

(** The local variables of [label_propagation] that live across iterations,
    the [certain{i}] columns added to [results] and the text printed;
    [pre = None] is the unbound local. *)
Record lp_state : Type := {
  proba_tier_0 : matrix;
  pre : option assignment;
  certain_cols : list (nat * list bool);
  stdout : list message
}.

Inductive ctl : Type := Continue | Break.

(** Reading the local variable [pre]. *)
Definition read_pre (st : lp_state) : result assignment :=
  match pre st with
  | Some p => Ok p
  | None => Raise (NameError "pre")
  end.

Section Loop.

Variable absdif : list Q.
Variable connectivities : list (list Q).
Variable n_iter : Z.
Variable certainty_threshold : Q.

(** Lines 210-220: mask, propagate, renormalize. *)
Definition diffusion_step (i : nat) (M : matrix) : result (list bool * matrix) :=
  certain_i ← certain_at absdif certainty_threshold n_iter i;
  let masked := mask_step certain_i M in
  lp_step_mtx ← np_dot connectivities masked;
  M' ← assign_all M (renormalize lp_step_mtx);
  mret (certain_i, M').

(** Lines 222-228: the convergence monitor. *)
Definition monitor (i : nat) (current : assignment) (st : lp_state)
  : result (ctl * lp_state) :=
  stop ← (if negb (i <? 5)%nat
          then p ← read_pre st; mret (drift_below (drift current p))
          else mret false);
  if stop : bool then mret (Break, st)
  else
    out ← (if (Z.of_nat i =? n_iter - 1)%Z
           then p ← read_pre st;
                mret (stdout st ++ [NonConvergence (drift current p) n_iter])
           else mret (stdout st));
    mret (Continue,
          {| proba_tier_0 := proba_tier_0 st;
             pre := Some current;
             certain_cols := certain_cols st;
             stdout := out |}).

(** The loop body at iteration [i]. *)
Definition body (i : nat) (st : lp_state) : result (ctl * lp_state) :=
  '(certain_i, M') ← diffusion_step i (proba_tier_0 st);
  monitor i (idxmax M')
          {| proba_tier_0 := M';
             pre := pre st;
             certain_cols := certain_cols st ++ [(i, certain_i)];
             stdout := stdout st |}.

(** [for i in range(...)] over the remaining indices. *)
Fixpoint for_range (todo : list nat) (st : lp_state) : result (ctl * lp_state) :=
  match todo with
  | [] => Ok (Continue, st)
  | i :: rest =>
      match body i st with
      | Raise e => Raise e
      | Ok (Break, st') => Ok (Break, st')
      | Ok (Continue, st') => for_range rest st'
      end
  end.

End Loop.

(** [range(n_iter)] *)
Definition range (n_iter : Z) : list nat := seq 0 (Z.to_nat n_iter).

(** What a call of [label_propagation] leaves behind: the columns written
    to [results], the text printed, and how the loop ended ([Break]: the
    early stop; [Continue]: the range was exhausted). *)
Record lp_output : Type := {
  certain : list bool;
  certain_i : list (nat * list bool);
  LR_with_label_propagation_tier_0_prediction : assignment;
  LR_with_label_propagation_proba : matrix;
  printed : list message;
  loop_exit : ctl
}.

Definition initial_state (results : list cell) : lp_state :=
  {| proba_tier_0 := initial_proba results;
     pre := None;
     certain_cols := [];
     stdout := [] |}.

Definition label_propagation (results : list cell) (connectivities : list (list Q))
  (n_iter : Z) (certainty_threshold : Q) : result lp_output :=
  let absdif := absdif_of results in
  certain0 ← certain_column absdif certainty_threshold;
  '(c, st) ← for_range absdif connectivities n_iter certainty_threshold
                        (range n_iter) (initial_state results);
  mret {| certain := certain0;
          certain_i := certain_cols st;
          LR_with_label_propagation_tier_0_prediction := idxmax (proba_tier_0 st);
          LR_with_label_propagation_proba := proba_tier_0 st;
          printed := stdout st;
          loop_exit := c |}.

(** Number of loop iterations a run has executed: one [certain{i}] column
    is added per iteration entered. *)
Definition iterations_run (out : lp_output) : nat := length (certain_i out).

(** ** [cell_annotator] *)

(** A DataFrame with named columns: numeric ones (signature scores,
    probabilities) and categorical ones (labels). *)
Record frame : Type := {
  nrows : nat;
  numeric : gmap string (list Q);
  categorical : gmap string (list string)
}.

(** [d[key]] on a dict, [df[key]] on a frame's columns. *)
Definition getkey {A : Type} (d : gmap string A) (key : string) : result A :=
  match d !! key with
  | Some v => Ok v
  | None => Raise (KeyError key)
  end.

(** [df.loc[:, X_features]]: the selected columns, in the order asked. *)
Definition loc_columns (df : frame) (X_features : list string)
  : result (list (list Q)) :=
  mapM (getkey (numeric df)) X_features.

(** [pd.concat(objs, axis=0, ignore_index=True)] on frames that all carry
    the same columns; an empty list of objects is a [ValueError]. *)
Definition concat_rows {A : Type} (width : nat) (objs : list (list (list A)))
  : result (list (list A)) :=
  match objs with
  | [] => Raise (ValueError "No objects to concatenate")
  | _ => Ok (foldr (fun X acc => zip_with app X acc) (replicate width []) objs)
  end.

Definition concat_series {A : Type} (objs : list (list A)) : result (list A) :=
  match objs with
  | [] => Raise (ValueError "No objects to concatenate")
  | _ => Ok (concat objs)
  end.

(** The binary probabilistic classifier the annotator is written against
    ([LogisticRegression] in the source): [X] is a list of feature columns,
    [y] a list of labels; [predict_proba] gives one (class 0, class 1) pair
    per row. *)
Class Classifier (model : Type) : Type := {
  fit : list (list Q) -> list string -> result model;
  predict : model -> list (list Q) -> list string;
  predict_proba : model -> list (list Q) -> list (Q * Q)
}.

(** Calls made on the classifier, in order. *)
Inductive event : Type := Fit | Predict | PredictProba.

(** A computation that may raise and that records its classifier calls. *)
Definition traced (A : Type) : Type := (list event * result A)%type.

#[global] Instance traced_ret : MRet traced := fun A a => ([], Ok a).
#[global] Instance traced_bind : MBind traced := fun A B f m =>
  match m with
  | (tr, Ok a) => let '(tr', r) := f a in (tr ++ tr', r)
  | (tr, Raise e) => (tr, Raise e)
  end.

Definition lift {A : Type} (r : result A) : traced A := ([], r).

Definition call {A : Type} (ev : event) (r : result A) : traced A := ([ev], r).

(** Lines 165-167: the loop filling [X_dict] and [y_dict]. *)
Fixpoint select_features (results_dict : gmap string frame)
  (X_features : list string) (names : list (string * string))
  (acc : gmap string (list (list Q)) * gmap string (list string))
  : result (gmap string (list (list Q)) * gmap string (list string)) :=
  match names with
  | [] => Ok acc
  | (name, obs_name) :: rest =>
      df ← getkey results_dict name;
      X ← loc_columns df X_features;
      y ← getkey (categorical df) obs_name;
      select_features results_dict X_features rest
                      (<[name := X]> (fst acc), <[name := y]> (snd acc))
  end.

(** [results[col] = values]: the values must fill the frame's rows. *)
Definition setcol_numeric (df : frame) (col : string) (values : list Q)
  : result frame :=
  if (length values =? nrows df)%nat
  then Ok {| nrows := nrows df;
             numeric := <[col := values]> (numeric df);
             categorical := categorical df |}
  else Raise (ValueError "Length of values does not match length of index").

Definition setcol_categorical (df : frame) (col : string) (values : list string)
  : result frame :=
  if (length values =? nrows df)%nat
  then Ok {| nrows := nrows df;
             numeric := numeric df;
             categorical := <[col := values]> (categorical df) |}
  else Raise (ValueError "Length of values does not match length of index").

(** The columns [label_propagation] reads from [results] by name (lines
    196-202), one [cell] per row. *)
Definition read_results (df : frame) : result (list cell) :=
  pn ← getkey (numeric df) "LR_proba_Normal";
  pt ← getkey (numeric df) "LR_proba_Tumor";
  sn ← getkey (numeric df) "Normal";
  st ← getkey (numeric df) "Tumor";
  mret (zip_with (fun s p => {| Normal := fst s; Tumor := snd s;
                                LR_proba_Normal := fst p; LR_proba_Tumor := snd p |})
                 (combine sn st) (combine pn pt)).

(** What [cell_annotator] returns: the target frame with the classifier's
    columns, and what [label_propagation] added to it. *)
Record annotation : Type := {
  results_test : frame;
  propagation : lp_output
}.

Section Annotator.

Context {model : Type} `{Classifier model}.

(** Lines 160-183: select the features, train, score the target, store the
    classifier's columns.  Neither [n_iter] nor [certainty_threshold] is
    looked at here. *)
Definition train_and_score (results_dict : gmap string frame)
  (names_list obs_names_list training_names_list : list string)
  (test_name : string) (input_features : list string) : traced frame :=
  '(X_dict, y_dict) ← lift (select_features results_dict input_features
                               (combine names_list obs_names_list) (∅, ∅));
  y_train ← lift (ys ← mapM (getkey y_dict) training_names_list; concat_series ys);
  X_train ← lift (Xs ← mapM (getkey X_dict) training_names_list;
                  concat_rows (length input_features) Xs);
  X_test ← lift (getkey X_dict test_name);
  Model ← call Fit (fit X_train y_train);
  y_pred_lr ← call Predict (Ok (predict Model X_test));
  y_pred_proba_lr ← call PredictProba (Ok (predict_proba Model X_test));
  lift (df ← getkey results_dict test_name;
        df ← setcol_numeric df "LR_proba_Normal" (map fst y_pred_proba_lr);
        df ← setcol_numeric df "LR_proba_Tumor" (map snd y_pred_proba_lr);
        setcol_categorical df "LR_tier_0_prediction" y_pred_lr).

Definition cell_annotator (connectivities_dict : gmap string (list (list Q)))
  (results_dict : gmap string frame)
  (names_list obs_names_list training_names_list : list string)
  (test_name : string) (input_features : list string)
  (certainty_threshold : Q) (n_iter : Z) : traced annotation :=
  df ← train_and_score results_dict names_list obs_names_list
                       training_names_list test_name input_features;
  connectivities ← lift (getkey connectivities_dict test_name);
  out ← lift (results ← read_results df;
              label_propagation results connectivities n_iter certainty_threshold);
  mret {| results_test := df; propagation := out |}.

End Annotator.

(** ** Vocabulary for the statements *)

(** [connectivities] is an n-by-n matrix. *)
Definition square (connectivities : list (list Q)) (n : nat) : Prop :=
  length connectivities = n /\ Forall (fun w => length w = n) connectivities.

(** The inputs [label_propagation] is meant for: a similarity graph over
    exactly the cells of [results], and a threshold in [0, 1]. *)
Definition valid_input (results : list cell) (connectivities : list (list Q))
  (certainty_threshold : Q) : Prop :=
  square connectivities (length results)
  /\ 0 <= certainty_threshold /\ certainty_threshold <= 1.

(** The loop enters iteration [i] with local state [st]: iterations
    [0 .. i-1] ran without [break] and without an exception. *)
Definition reaches (results : list cell) (connectivities : list (list Q))
  (n_iter : Z) (certainty_threshold : Q) (i : nat) (st : lp_state) : Prop :=
  for_range (absdif_of results) connectivities n_iter certainty_threshold
            (seq 0 i) (initial_state results) = Ok (Continue, st).

(** The certainty mask of iteration [i] and the matrix its propagate step
    multiplies; [None] when the loop does not get there. *)
Definition masked_matrix_at (results : list cell) (connectivities : list (list Q))
  (n_iter : Z) (certainty_threshold : Q) (i : nat) : option (list bool * matrix) :=
  match for_range (absdif_of results) connectivities n_iter certainty_threshold
                  (seq 0 i) (initial_state results) with
  | Ok (Continue, st) =>
      match certain_at (absdif_of results) certainty_threshold n_iter i with
      | Ok certain_i => Some (certain_i, mask_step certain_i (proba_tier_0 st))
      | Raise _ => None
      end
  | _ => None
  end.


(** What holds of the local state whenever the loop enters iteration [i]. *)
Record loop_inv (results : list cell) (n_iter : Z) (i : nat) (st : lp_state)
  : Prop := {
  inv_rows : length (proba_tier_0 st) = length results;
  inv_cols : map fst (certain_cols st) = seq 0 i;
  inv_pre : (0 < i)%nat -> pre st = Some (idxmax (proba_tier_0 st));
  inv_pre0 : i = 0%nat -> pre st = None;
  inv_out : (Z.of_nat i < n_iter)%Z -> stdout st = []
}.

(** The local state after iteration [i] left the loop through [break]... *)
Definition after_break (st : lp_state) (i : nat) (certain_i : list bool)
  (M' : matrix) : lp_state :=
  {| proba_tier_0 := M';
     pre := pre st;
     certain_cols := certain_cols st ++ [(i, certain_i)];
     stdout := stdout st |}.

(** ... and after it ran to its end, having printed [msgs]. *)
Definition after_continue (st : lp_state) (i : nat) (certain_i : list bool)
  (M' : matrix) (msgs : list message) : lp_state :=
  {| proba_tier_0 := M';
     pre := Some (idxmax M');
     certain_cols := certain_cols st ++ [(i, certain_i)];
     stdout := stdout st ++ msgs |}.

(** The drift the monitor looks at in an iteration that turns [M] into [M']. *)
Definition drift_between (M M' : matrix) : option Q :=
  drift (idxmax M') (idxmax M).

(** The drift the monitor sees at iteration [i]; [None] when the loop does
    not get there. *)
Definition drift_at (results : list cell) (connectivities : list (list Q))
  (n_iter : Z) (certainty_threshold : Q) (i : nat) : option (option Q) :=
  match for_range (absdif_of results) connectivities n_iter certainty_threshold
                  (seq 0 i) (initial_state results) with
  | Ok (Continue, st) =>
      match diffusion_step (absdif_of results) connectivities n_iter
                           certainty_threshold i (proba_tier_0 st) with
      | Ok (_, M') => Some (drift_between (proba_tier_0 st) M')
      | Raise _ => None
      end
  | _ => None
  end.

(** ** Example inputs *)

Module Examples.

Definition mk_cell (score_normal score_tumor proba_normal proba_tumor : Q) : cell :=
  {| Normal := score_normal; Tumor := score_tumor;
     LR_proba_Normal := proba_normal; LR_proba_Tumor := proba_tumor |}.

(** Two cells, fully connected. *)
Definition two_cells : list cell :=
  [mk_cell (9 # 10) (1 # 10) (7 # 10) (3 # 10);
   mk_cell (4 # 10) (6 # 10) (2 # 10) (8 # 10)].

Definition full_graph : list (list Q) := [[1; 1]; [1; 1]].

(** The first cell has no neighbour of non-zero weight, itself included. *)
Definition isolated_graph : list (list Q) := [[0; 0]; [1; 1]].

(** One cell that is its own sole neighbour. *)
Definition one_cell : list cell := [mk_cell (9 # 10) (1 # 10) (7 # 10) (3 # 10)].

Definition self_loop : list (list Q) := [[1]].


(** A classifier that ignores its training data and calls every cell
    ['Normal'] with probability 3/4. *)
#[export] Instance constant_classifier : Classifier unit := {
  fit _ _ := Ok tt;
  predict _ X := replicate (length (hd [] X)) "Normal"%string;
  predict_proba _ X := replicate (length (hd [] X)) (3 # 4, 1 # 4)
}.

Definition reference_frame : frame :=
  {| nrows := 2;
     numeric := <["Normal"%string := [9 # 10; 1 # 10]]>
                  (<["Tumor"%string := [1 # 10; 9 # 10]]> ∅);
     categorical := <["tier_0"%string := ["Normal"%string; "Tumor"%string]]> ∅ |}.

Definition target_frame : frame :=
  {| nrows := 2;
     numeric := <["Normal"%string := [8 # 10; 4 # 10]]>
                  (<["Tumor"%string := [2 # 10; 6 # 10]]> ∅);
     categorical := <["tier_0"%string := ["Normal"%string; "Tumor"%string]]> ∅ |}.

Definition results_dict : gmap string frame :=
  <["reference"%string := reference_frame]> (<["target"%string := target_frame]> ∅).

Definition connectivities_dict : gmap string (list (list Q)) :=
  <["target"%string := full_graph]> ∅.

(** [cell_annotator] on the example data, for a threshold and a budget. *)
Definition annotate (certainty_threshold : Q) (n_iter : Z) : traced annotation :=
  cell_annotator connectivities_dict results_dict
                 ["reference"%string; "target"%string]
                 ["tier_0"%string; "tier_0"%string]
                 ["reference"%string] "target"%string
                 ["Normal"%string; "Tumor"%string]
                 certainty_threshold n_iter.

End Examples.


(** ** Vocabulary for the further statements *)

(** The sum of one row of weights. *)
Definition total_weight (w : list Q) : Q := fold_right Qplus 0 w.



(** A matrix whose entries are all finite, from its rational entries. *)
Definition finite_matrix (R : list (Q * Q)) : matrix :=
  map (fun xy => (Fin (fst xy), Fin (snd xy))) R.

(** The two columns of [A . M] at one row, for a finite [M], as sums. *)
Definition weighted_sum (column : Q * Q -> Q) (w : list Q) (R : list (Q * Q)) : Q :=
  fold_right (fun ar s => fst ar * column (snd ar) + s) 0 (combine w R).




(** The n-by-n identity graph: every cell its own sole neighbour. *)
Definition identity_graph (n : nat) : list (list Q) :=
  map (fun i => map (fun j => if (i =? j)%nat then 1 else 0) (seq 0 n)) (seq 0 n).





(** ** [load_scores] *)

(** A column of [adata.obs]: numbers or labels. *)
Inductive column : Type :=
| NumericColumn (values : list Q)
| LabelColumn (values : list string).

(** A DataFrame as its columns in order; column names are unique, as they
    are in [adata.obs]. *)
Definition dataframe : Type := list (string * column).

(** [key in df.columns] *)
Definition df_contains (df : dataframe) (key : string) : bool :=
  existsb (fun kc => String.eqb (fst kc) key) df.

Inductive load_error : Type :=
| NoSuchColumn (key : string)
| FileNotFoundError (path : string).

(** [df[key]]: a [KeyError] for a name that is no column. *)
Definition df_getitem (df : dataframe) (key : string) : load_error + column :=
  match find (fun kc => String.eqb (fst kc) key) df with
  | Some kc => inr (snd kc)
  | None => inl (NoSuchColumn key)
  end.

(** [df[key] = values]: an existing column is replaced where it stands, a
    new one is added at the end. *)
Fixpoint df_setitem (df : dataframe) (key : string) (values : column) : dataframe :=
  match df with
  | [] => [(key, values)]
  | (k, c) :: rest =>
      if String.eqb k key then (key, values) :: rest
      else (k, c) :: df_setitem rest key values
  end.

(** [f"out/{name}/AUCell_norm_scores.csv"] *)
Definition scores_path (name : string) : string :=
  ("out/" ++ name ++ "/AUCell_norm_scores.csv")%string.

(** Lines 248-250: the relabelling of [adata.obs], done in place. *)
Definition relabel_tier_0 (obs : dataframe) : dataframe * option load_error :=
  if df_contains obs "tier_0_hallmark_corrected"
  then match df_getitem obs "tier_0" with
       | inl e => (obs, Some e)
       | inr tier_0 =>
           let obs1 := df_setitem obs "tier_0_raw" tier_0 in
           match df_getitem obs1 "tier_0_hallmark_corrected" with
           | inl e => (obs1, Some e)
           | inr corrected => (df_setitem obs1 "tier_0" corrected, None)
           end
       end
  else (obs, None).

(** [load_scores(name, adata)].  [files] is what is on disk: the score
    tables by path, as [pd.read_csv(..., index_col=False)] reads them.  The
    first component is [adata.obs] as the call leaves it (the caller's
    object is modified in place); the second is the exception raised or the
    frame returned, whose columns are those of [adata.obs] followed by
    those of the score table (rows matched by position). *)
Definition load_scores (files : gmap string (list (string * list Q)))
  (name : string) (obs : dataframe) : dataframe * (load_error + dataframe) :=
  match relabel_tier_0 obs with
  | (obs', Some e) => (obs', inl e)
  | (obs', None) =>
      match files !! scores_path name with
      | None => (obs', inl (FileNotFoundError (scores_path name)))
      | Some scores =>
          (obs', inr (obs' ++ map (fun kv => (fst kv, NumericColumn (snd kv))) scores))
      end
  end.

(** ** [gene_selector] *)

Module DE.

(** One row of [DE_results_df]. *)
Record row : Type := {
  gene_symbol : string;
  logfoldchanges : fval;
  p : fval;
  padj : fval;
  scores : fval
}.

End DE.

(** The two library calls [gene_selector] is built around.
    [rank_genes_groups X labels up down method] stands for
    [sc.tl.rank_genes_groups] on the expression matrix with the cells
    grouped by [labels], read back as the table of the group [up];
    [DataFrame_sort_values by ascending rows] for [DataFrame.sort_values], whose
    order among equal keys pandas leaves open. *)
Class DifferentialExpression (expression : Type) : Type := {
  rank_genes_groups : expression -> list string -> string -> string -> string
                      -> list DE.row;
  DataFrame_sort_values : string -> bool -> list DE.row -> result (list DE.row)
}.

(** Lines 52-53: the labels of the one-against-all comparison. *)
Definition one_vs_all (label_upreg : string) (labels : list string) : list string :=
  map (fun label => if String.eqb label label_upreg then label_upreg
                    else "Other"%string) labels.

(** [label in np.unique(labels)] *)
Definition has_label (label : string) (labels : list string) : bool :=
  existsb (String.eqb label) labels.

(** Lines 78-79: the rows that pass both thresholds. *)
Definition passes (lfc_threshold pval_threshold : Q) (r : DE.row) : bool :=
  fltb (DE.padj r) (Fin pval_threshold) && fltb (Fin lfc_threshold) (DE.logfoldchanges r).

(** [gene_selector]; [obs] holds the label columns of [adata.obs], and a
    result of [None] is the function's [return None]. *)
Definition gene_selector {expression : Type} `{DifferentialExpression expression}
  (adata_X : expression) (obs : gmap string (list string))
  (obs_name label_upreg : string) (label_downreg : option string)
  (lfc_threshold pval_threshold : Q) (DE_method sort_by : string)
  (sort_ascending : bool) : result (option (list DE.row)) :=
  column ← getkey obs obs_name;
  let '(labels, label_downreg) :=
    match label_downreg with
    | None => (one_vs_all label_upreg column, "Other"%string)
    | Some down => (column, down)
    end in
  if negb (has_label label_upreg labels) || negb (has_label label_downreg labels)
  then mret None
  else
    let DE_results_df :=
      List.filter (passes lfc_threshold pval_threshold)
                  (rank_genes_groups adata_X labels label_upreg label_downreg DE_method) in
    sorted ← DataFrame_sort_values sort_by sort_ascending DE_results_df;
    mret (Some sorted).

(** ** float64, rounded *)

(** The finite float64 numbers are the rationals [n * 2 ^ e] with
    [|n| < 2 ^ 53] and [-1074 <= e <= 971].  An operation returns the
    float64 nearest to its exact result, a tie going to the even
    significand, and an infinity when the rounded result lies beyond the
    largest float64.  The sign of a zero is not kept. *)
Module Binary64.

(** The nearest integer, a tie going to the even one. *)
Definition round_half_even (m : Q) : Z :=
  let f := Qfloor m in
  match Qcompare (m - inject_Z f) (1 # 2) with
  | Lt => f
  | Eq => if Z.even f then f else (f + 1)%Z
  | Gt => (f + 1)%Z
  end.

(** [floor (log2 x)] of a positive rational. *)
Definition ilog2 (x : Q) : Z :=
  let e := (Z.log2 (Qnum x) - Z.log2 (Zpos (Qden x)))%Z in
  if Qle_bool (2 ^ e) x then e else (e - 1)%Z.

(** The exponent of the last place of the float64 numbers around [x]: 52
    places below the leading bit, and never below that of the subnormal
    numbers. *)
Definition quantum (x : Q) : Z := Z.max (ilog2 (Qabs x) - 52) (-1074).

(** The float64 nearest to [x]. *)
Definition round (x : Q) : fval :=
  let x := Qred x in
  if Qeq_bool x 0 then Fin 0
  else
    let e := quantum x in
    let r := inject_Z (round_half_even (Qabs x / 2 ^ e)) * 2 ^ e in
    if Qle_bool (2 ^ 1024) r then signed_inf (Qltb 0 x)
    else Fin (Qred (if Qltb 0 x then r else - r)).

Definition rounded (x : fval) : fval :=
  match x with
  | Fin q => round q
  | _ => x
  end.

Definition opp (x : fval) : fval :=
  match x with
  | Fin q => Fin (Qred (- q))
  | PInf => NInf
  | NInf => PInf
  | NaN => NaN
  end.

Definition add (x y : fval) : fval := rounded (fadd x y).
Definition sub (x y : fval) : fval := add x (opp y).
Definition mul (x y : fval) : fval := rounded (fmul x y).
Definition div (x y : fval) : fval := rounded (fdiv x y).

(** An integer converted to float64. *)
Definition of_int (z : Z) : fval := round (inject_Z z).

(** [x == 0] *)
Definition is_zero (x : fval) : bool :=
  match x with
  | Fin q => Qeq_bool q 0
  | _ => false
  end.

(** [x] is a float64 number. *)
Definition is_float64 (x : Q) : bool :=
  match round x with
  | Fin q => Qeq_bool q x
  | _ => false
  end.

(** [np.linspace(start, stop, num)] in float64, as numpy computes it:
    [step = (stop - start) / (num - 1)], then [arange(num) * step + start]
    (or, for a step that underflows to zero, [arange(num) / (num - 1) *
    (stop - start) + start]), and the last element set to [stop] when
    [num > 1]. *)
Definition linspace (start stop : fval) (num : nat) : list fval :=
  let div_ := Z.of_nat (num - 1) in
  let delta := sub stop start in
  let step := div delta (of_int div_) in
  let y := map (fun i : nat =>
                  let y_i := of_int (Z.of_nat i) in
                  if (0 <? div_)%Z
                  then (if is_zero step
                        then add (mul (div y_i (of_int div_)) delta) start
                        else add (mul y_i step) start)
                  else add (mul y_i delta) start)
               (seq 0 num) in
  if (1 <? num)%nat then firstn (num - 1) y ++ [stop] else y.

(** [certainty_threshold * np.linspace(1, 0, n_iter)[i]] in float64;
    [certainty_threshold] is the value of the float64 passed in. *)
Definition certainty_threshold_pct (certainty_threshold : Q) (n_iter : Z) (i : nat)
  : result fval :=
  y ← getitem (linspace (Fin 1) (Fin 0) (Z.to_nat n_iter)) i;
  mret (mul (Fin certainty_threshold) y).

(** Lines 210-215 with the level so computed.  [Series_quantile] stands
    for [absdif.quantile]: whatever threshold it returns for that level,
    the column marks the cells above it; a level that is no number is
    refused as one outside [0, 1] is. *)
Definition certain_at (Series_quantile : list Q -> Q -> result (option Q))
  (absdif : list Q) (certainty_threshold : Q) (n_iter : Z) (i : nat)
  : result (list bool) :=
  pct ← certainty_threshold_pct certainty_threshold n_iter i;
  match pct with
  | Fin q => thr ← Series_quantile absdif q; mret (map (gt_threshold thr) absdif)
  | _ => Raise (ValueError "percentiles should all be in the interval [0, 1]")
  end.

End Binary64.

(** The kernel's own float64, to compare [Binary64] with. *)
Module Hardware.

(** The value of a float64 of the kernel. *)
Definition of_float (f : PrimFloat.float) : fval :=
  match FloatOps.Prim2SF f with
  | SpecFloat.S754_zero _ => Fin 0
  | SpecFloat.S754_infinity negative => if negative then NInf else PInf
  | SpecFloat.S754_nan => NaN
  | SpecFloat.S754_finite negative m e =>
      Fin (Qred ((if negative then -1 else 1) * inject_Z (Z.pos m) * 2 ^ e))
  end.

Definition same_value (x y : fval) : bool :=
  match x, y with
  | Fin a, Fin b => Qeq_bool a b
  | PInf, PInf | NInf, NInf | NaN, NaN => true
  | _, _ => false
  end.

(** The operation of the kernel and the one of [Binary64] give the same
    value on [a] and [b]. *)
Definition agrees (op : PrimFloat.float -> PrimFloat.float -> PrimFloat.float)
  (model_op : fval -> fval -> fval) (a b : PrimFloat.float) : bool :=
  same_value (of_float (op a b)) (model_op (of_float a) (of_float b)).

(** The float64 [(-1) ^ negative * m * 2 ^ e]. *)
Definition float64 (negative : bool) (m : positive) (e : Z) : PrimFloat.float :=
  FloatOps.SF2Prim (SpecFloat.S754_finite negative m e).

(** Operands from the schedule (0.1 and 0.2; 3 and -0.2; -1 and 5;
    -0.6000000000000001 and 1; 0.5 and 0.3999999999999999), from the mask
    (1e-6 and 0.9999999999999999), and from the edges of the format
    (2^53 + 2 and 1; the smallest subnormal and 0.5; 1e-320 and 1e-6; the
    largest float64 twice; 1.5e308 and 3; 1 and 3). *)
Definition operands : list (PrimFloat.float * PrimFloat.float) :=
  [(float64 false 0x1999999999999a (-56), float64 false 0x1999999999999a (-55));
   (float64 false 3 0, float64 true 0x1999999999999a (-55));
   (float64 true 1 0, float64 false 5 0);
   (float64 true 0x13333333333334 (-53), float64 false 1 0);
   (float64 false 1 (-1), float64 false 0x19999999999998 (-54));
   (float64 false 0x10c6f7a0b5ed8d (-72), float64 false 0x1fffffffffffff (-53));
   (float64 false 0x10000000000001 1, float64 false 1 0);
   (float64 false 1 (-1074), float64 false 1 (-1));
   (float64 false 0x7e8 (-1074), float64 false 0x10c6f7a0b5ed8d (-72));
   (float64 false 0x1fffffffffffff 971, float64 false 0x1fffffffffffff 971);
   (float64 false 0x1ab36d48e1acf0 971, float64 false 3 0);
   (float64 false 1 0, float64 false 3 0)].

Definition agrees_on_operands
  (op : PrimFloat.float -> PrimFloat.float -> PrimFloat.float)
  (model_op : fval -> fval -> fval) : bool :=
  forallb (fun ab => agrees op model_op (fst ab) (snd ab)
                     && agrees op model_op (snd ab) (fst ab))
          operands.

End Hardware.

(** ** More example inputs *)

Module MoreExamples.

Import Examples.


(** The classifier's rows of [two_cells], as rationals. *)
Definition two_rows : list (Q * Q) := [(7 # 10, 3 # 10); (2 # 10, 8 # 10)].

(** A working matrix whose first row has been lost. *)
Definition damaged_matrix : matrix := [(NaN, NaN); (Fin (2 # 10), Fin (8 # 10))].

Definition obs_with_correction : dataframe :=
  [("tier_0"%string, LabelColumn ["Normal"%string; "Tumor"%string]);
   ("tier_0_hallmark_corrected"%string, LabelColumn ["Tumor"%string; "Tumor"%string])].

Definition score_table : list (string * list Q) :=
  [("Normal"%string, [1 # 10; 2 # 10]); ("Tumor"%string, [9 # 10; 8 # 10])].

Definition disk : gmap string (list (string * list Q)) :=
  <[scores_path "sample" := score_table]> ∅.

Definition de_table : list DE.row :=
  [{| DE.gene_symbol := "EPCAM"; DE.logfoldchanges := Fin 4; DE.p := Fin (1 # 1000);
      DE.padj := Fin (1 # 100); DE.scores := Fin 12 |};
   {| DE.gene_symbol := "PTPRC"; DE.logfoldchanges := Fin 1; DE.p := Fin (1 # 1000);
      DE.padj := Fin (1 # 100); DE.scores := Fin 3 |};
   {| DE.gene_symbol := "ACTB"; DE.logfoldchanges := NaN; DE.p := NaN;
      DE.padj := NaN; DE.scores := Fin 0 |}].

(** A stand-in for scanpy that always reports [de_table], with a sort that
    leaves the rows where they are. *)
#[export] Instance fixed_expression : DifferentialExpression unit := {
  rank_genes_groups _ _ _ _ _ := de_table;
  DataFrame_sort_values _ _ rows := Ok rows
}.

(** What the selection loop collects on the data of [Examples]. *)
Definition selected_features
  : gmap string (list (list Q)) * gmap string (list string) :=
  Eval vm_compute in
    match select_features results_dict ["Normal"%string; "Tumor"%string]
                          (combine ["reference"%string; "target"%string]
                                   ["tier_0"%string; "tier_0"%string]) (∅, ∅) with
    | Ok X_y => X_y
    | Raise _ => (∅, ∅)
    end.

(** The target frame of [Examples] as [train_and_score] leaves it. *)
Definition scored_target : frame :=
  Eval vm_compute in
    match train_and_score results_dict ["reference"%string; "target"%string]
                          ["tier_0"%string; "tier_0"%string] ["reference"%string]
                          "target"%string ["Normal"%string; "Tumor"%string] with
    | (_, Ok df) => df
    | (_, Raise _) => target_frame
    end.

Definition label_columns : gmap string (list string) :=
  <["tier_0"%string := ["Tumor"%string; "Normal"%string; "Tumor"%string]]> ∅.

End MoreExamples.

(** ** Example inputs for the configuration and the schedule *)

Module FurtherExamples.

Import Examples.

(** The second, less confident example cell has no neighbour of non-zero
    weight, itself included. *)
Definition cut_off_graph : list (list Q) := [[1; 1]; [0; 0]].

(** Six confidences, all float64 numbers: 0, 0.125, ..., 0.625. *)
Definition eighths : list Q := [0; 1 # 8; 1 # 4; 3 # 8; 1 # 2; 5 # 8].

(** A target table that lacks the feature column ['Tumor']. *)
Definition incomplete_frame : frame :=
  {| nrows := 2;
     numeric := <["Normal"%string := [8 # 10; 4 # 10]]> ∅;
     categorical := <["tier_0"%string := ["Normal"%string; "Tumor"%string]]> ∅ |}.

Definition results_missing_feature : gmap string frame :=
  <["reference"%string := reference_frame]> (<["target"%string := incomplete_frame]> ∅).

(** Reference tables labelled without any ['Tumor']: with a second class,
    and with one class only. *)
Definition other_reference_frame : frame :=
  {| nrows := 2;
     numeric := numeric reference_frame;
     categorical := <["tier_0"%string := ["Normal"%string; "Other"%string]]> ∅ |}.

Definition normal_reference_frame : frame :=
  {| nrows := 2;
     numeric := numeric reference_frame;
     categorical := <["tier_0"%string := ["Normal"%string; "Normal"%string]]> ∅ |}.

Definition results_without_tumor : gmap string frame :=
  <["reference"%string := other_reference_frame]> (<["target"%string := target_frame]> ∅).

Definition results_one_class : gmap string frame :=
  <["reference"%string := normal_reference_frame]> (<["target"%string := target_frame]> ∅).

(** A classifier that, as scikit-learn's solvers do, refuses labels of a
    single class and accepts any two, whatever they are called. *)
Inductive two_class_model : Type := TwoClassModel.

#[export] Instance needs_two_classes : Classifier two_class_model := {
  fit _ y :=
    match y with
    | [] => Raise (ValueError "needs samples of at least 2 classes")
    | label :: rest =>
        if forallb (String.eqb label) rest
        then Raise (ValueError "needs samples of at least 2 classes")
        else Ok TwoClassModel
    end;
  predict _ X := replicate (length (hd [] X)) "Normal"%string;
  predict_proba _ X := replicate (length (hd [] X)) (3 # 4, 1 # 4)
}.

(** [cell_annotator] with that classifier, on a given collection of tables. *)
Definition annotate_two_class (results_dict : gmap string frame)
  (certainty_threshold : Q) (n_iter : Z) : traced annotation :=
  cell_annotator (model := two_class_model) connectivities_dict results_dict
                 ["reference"%string; "target"%string]
                 ["tier_0"%string; "tier_0"%string]
                 ["reference"%string] "target"%string
                 ["Normal"%string; "Tumor"%string]
                 certainty_threshold n_iter.

(** What the selection loop collects from the one-class tables. *)
Definition one_class_selected
  : gmap string (list (list Q)) * gmap string (list string) :=
  Eval vm_compute in
    match select_features results_one_class ["Normal"%string; "Tumor"%string]
                          (combine ["reference"%string; "target"%string]
                                   ["tier_0"%string; "tier_0"%string]) (∅, ∅) with
    | Ok X_y => X_y
    | Raise _ => (∅, ∅)
    end.

End FurtherExamples.

(** * Properties *)

(** ** The error monad *)

Lemma bind_Ok {A B : Type} (m : result A) (f : A -> result B) (b : B) :
  m ≫= f = Ok b -> exists a, m = Ok a /\ f a = Ok b.
Proof.
  destruct m as [a|e]; simpl; intros Hm; [eauto | discriminate].
Qed.

Lemma Qltb_lt (x y : Q) : Qltb x y = true <-> x < y.
Proof.
  unfold Qltb. rewrite negb_true_iff.
  split; intros Hxy.
  - apply Qnot_le_lt. intros Hle. apply Qle_bool_iff in Hle. congruence.
  - destruct (Qle_bool y x) eqn:E; [|reflexivity].
    apply Qle_bool_iff in E. lra.
Qed.

Lemma Qltb_ge (x y : Q) : Qltb x y = false <-> y <= x.
Proof.
  unfold Qltb. rewrite negb_false_iff. apply Qle_bool_iff.
Qed.

Lemma Qeq_bool_false (x y : Q) : ~ x == y -> Qeq_bool x y = false.
Proof.
  intros Hne. destruct (Qeq_bool x y) eqn:E; [|reflexivity].
  apply Qeq_bool_iff in E. contradiction.
Qed.

Lemma Qeq_bool_true (x y : Q) : x == y -> Qeq_bool x y = true.
Proof. apply Qeq_bool_iff. Qed.

(** ** [np.linspace(1, 0, num)] *)

Lemma linspace_length (start stop : Q) (num : nat) :
  length (linspace start stop num) = num.
Proof.
  unfold linspace.
  destruct (1 <? num)%nat eqn:E.
  - apply Nat.ltb_lt in E.
    rewrite length_app, length_firstn, length_map, length_seq. simpl. lia.
  - now rewrite length_map, length_seq.
Qed.

Lemma linspace_single (start stop : Q) : linspace start stop 1 = [0 * (stop - start) + start].
Proof. reflexivity. Qed.

Lemma linspace_last (start stop : Q) (num : nat) :
  (2 <= num)%nat -> nth_error (linspace start stop num) (num - 1) = Some stop.
Proof.
  intros Hn. unfold linspace.
  assert (E : (1 <? num)%nat = true) by (apply Nat.ltb_lt; lia).
  rewrite E.
  rewrite nth_error_app2; rewrite length_firstn, length_map, length_seq.
  - replace (num - 1 - Nat.min (num - 1) num)%nat with 0%nat by lia. reflexivity.
  - lia.
Qed.

Lemma linspace_inner (start stop : Q) (num i : nat) :
  (i < num - 1)%nat ->
  nth_error (linspace start stop num) i
  = Some (inject_Z (Z.of_nat i) * ((stop - start) / inject_Z (Z.of_nat (num - 1))) + start).
Proof.
  intros Hi. unfold linspace.
  assert (E : (1 <? num)%nat = true) by (apply Nat.ltb_lt; lia).
  assert (E' : (0 <? num - 1)%nat = true) by (apply Nat.ltb_lt; lia).
  rewrite E, E'.
  rewrite nth_error_app1 by (rewrite length_firstn, length_map, length_seq; lia).
  rewrite nth_error_firstn.
  assert (Hlt : (i <? num - 1)%nat = true) by (apply Nat.ltb_lt; lia).
  rewrite Hlt.
  rewrite nth_error_map, nth_error_seq.
  assert (Hlt' : (i <? num)%nat = true) by (apply Nat.ltb_lt; lia).
  rewrite Hlt'. reflexivity.
Qed.

Lemma inject_Z_pos_nonzero (n : nat) : (0 < n)%nat -> ~ inject_Z (Z.of_nat n) == 0.
Proof.
  intros Hn Heq. unfold Qeq in Heq. simpl in Heq. lia.
Qed.

(** The schedule factor at iteration [i]: [1 - i / (num - 1)]. *)
Lemma linspace_1_0_getitem (num i : nat) :
  (2 <= num)%nat -> (i < num)%nat ->
  exists y, getitem (linspace 1 0 num) i = Ok y
            /\ y == 1 - inject_Z (Z.of_nat i) / inject_Z (Z.of_nat (num - 1)).
Proof.
  intros Hn Hi. unfold getitem.
  assert (Hnz := inject_Z_pos_nonzero (num - 1) ltac:(lia)).
  destruct (Nat.eq_dec i (num - 1)%nat) as [->|Hne].
  - rewrite linspace_last by lia. eexists; split; [reflexivity|]. field. exact Hnz.
  - rewrite linspace_inner by lia. eexists; split; [reflexivity|]. field. exact Hnz.
Qed.

(** ** Sorting and the linear-interpolation quantile *)

Lemma insert_sorted_In (x y : Q) (l : list Q) :
  In y (insert_sorted x l) -> y = x \/ In y l.
Proof.
  induction l as [|z t IH]; simpl.
  - intros [->|[]]. now left.
  - destruct (Qle_bool x z); simpl.
    + intros [->|Hin]; auto.
    + intros [->|Hin]; auto. destruct (IH Hin); auto.
Qed.

Lemma insert_sorted_length (x : Q) (l : list Q) :
  length (insert_sorted x l) = S (length l).
Proof.
  induction l as [|z t IH]; simpl; [reflexivity|].
  destruct (Qle_bool x z); simpl; congruence.
Qed.

Lemma sort_values_length (l : list Q) : length (sort_values l) = length l.
Proof.
  induction l as [|x t IH]; simpl; [reflexivity|].
  unfold sort_values in *. simpl. now rewrite insert_sorted_length, IH.
Qed.

Lemma insert_sorted_sorted (x : Q) (l : list Q) :
  StronglySorted Qle l -> StronglySorted Qle (insert_sorted x l).
Proof.
  induction 1 as [|z t Hs IH Hall]; simpl.
  - repeat constructor.
  - destruct (Qle_bool x z) eqn:E.
    + apply Qle_bool_iff in E.
      constructor; [constructor; assumption|].
      constructor; [assumption|].
      eapply Forall_impl; [exact Hall|]. intros a Ha. simpl in Ha. lra.
    + assert (Hzx : z <= x).
      { destruct (Qlt_le_dec z x) as [Hlt|Hle]; [lra|].
        apply Qle_bool_iff in Hle. congruence. }
      constructor; [assumption|].
      apply List.Forall_forall. intros y Hy.
      apply insert_sorted_In in Hy. destruct Hy as [->|Hy]; [assumption|].
      rewrite List.Forall_forall in Hall. auto.
Qed.

Lemma sort_values_sorted (l : list Q) : StronglySorted Qle (sort_values l).
Proof.
  induction l as [|x t IH]; simpl; [constructor|].
  apply insert_sorted_sorted, IH.
Qed.

Lemma sorted_nth_le (v : list Q) (i j : nat) :
  StronglySorted Qle v -> (i <= j)%nat -> (j < length v)%nat ->
  nth i v 0 <= nth j v 0.
Proof.
  intros Hs. revert i j.
  induction Hs as [|z t Hs IH Hall]; intros i j Hij Hj; simpl in Hj; [lia|].
  destruct i as [|i], j as [|j]; simpl; try lia.
  - lra.
  - rewrite List.Forall_forall in Hall. apply Hall, nth_In. lia.
  - apply IH; lia.
Qed.

Lemma at_clipped_mono (v : list Q) (i j : nat) :
  StronglySorted Qle v -> v <> [] -> (i <= j)%nat ->
  at_clipped v i <= at_clipped v j.
Proof.
  intros Hs Hne Hij. unfold at_clipped.
  assert (0 < length v)%nat by (destruct v; simpl; [congruence|lia]).
  apply sorted_nth_le; [assumption| |]; lia.
Qed.

(** The interpolated value lies between its two neighbours. *)
Lemma percentile_linear_bounds (v : list Q) (q : Q) :
  StronglySorted Qle v -> v <> [] -> 0 <= q ->
  let k := Z.to_nat (Qfloor (q * inject_Z (Z.of_nat (length v - 1)))) in
  at_clipped v k <= percentile_linear v q <= at_clipped v (S k).
Proof.
  intros Hs Hne Hq k. unfold percentile_linear.
  set (h := q * inject_Z (Z.of_nat (length v - 1))) in *.
  assert (Hh : 0 <= h).
  { unfold h. apply Qmult_le_0_compat; [assumption|].
    unfold Qle. simpl. lia. }
  assert (Hk0 : (0 <= Qfloor h)%Z).
  { change 0%Z with (Qfloor 0). now apply Qfloor_resp_le. }
  replace (Z.to_nat (Qfloor h + 1)) with (S k) by (unfold k; lia).
  fold k.
  pose proof (Qfloor_le h) as Hlo.
  pose proof (Qlt_floor h) as Hhi.
  rewrite inject_Z_plus in Hhi.
  pose proof (at_clipped_mono v k (S k) Hs Hne ltac:(lia)) as Hmono.
  set (g := h - inject_Z (Qfloor h)) in *.
  assert (Hg : 0 <= g <= 1) by (unfold g; change (inject_Z 1) with 1 in Hhi; lra).
  split; nra.
Qed.

(** The quantile of a sorted array grows with [q]. *)
Lemma percentile_linear_mono (v : list Q) (q1 q2 : Q) :
  StronglySorted Qle v -> v <> [] -> 0 <= q1 -> q1 <= q2 ->
  percentile_linear v q1 <= percentile_linear v q2.
Proof.
  intros Hs Hne Hq1 Hq12.
  assert (Hq2 : 0 <= q2) by lra.
  pose proof (percentile_linear_bounds v q1 Hs Hne Hq1) as B1.
  pose proof (percentile_linear_bounds v q2 Hs Hne Hq2) as B2.
  cbv zeta in B1, B2.
  set (n1 := inject_Z (Z.of_nat (length v - 1))) in *.
  assert (Hn1 : 0 <= n1) by (unfold n1, Qle; simpl; lia).
  assert (Hh : q1 * n1 <= q2 * n1) by nra.
  assert (Hh1 : 0 <= q1 * n1) by nra.
  pose proof (Qfloor_resp_le _ _ Hh) as Hk.
  assert (Hk0 : (0 <= Qfloor (q1 * n1))%Z).
  { change 0%Z with (Qfloor 0). now apply Qfloor_resp_le. }
  destruct (Z.eq_dec (Qfloor (q1 * n1)) (Qfloor (q2 * n1))) as [Heq|Hne12].
  - unfold percentile_linear. fold n1. rewrite <- Heq.
    set (k := Qfloor (q1 * n1)) in *.
    pose proof (at_clipped_mono v (Z.to_nat k) (Z.to_nat (k + 1)) Hs Hne ltac:(lia)) as Hmono.
    nra.
  - pose proof (at_clipped_mono v (S (Z.to_nat (Qfloor (q1 * n1))))
                  (Z.to_nat (Qfloor (q2 * n1))) Hs Hne ltac:(lia)) as Hmono.
    lra.
Qed.

Lemma quantile_in_range (xs : list Q) (q : Q) :
  0 <= q <= 1 ->
  quantile xs q = Ok (match xs with
                      | [] => None
                      | _ => Some (percentile_linear (sort_values xs) q)
                      end).
Proof.
  intros [H0 H1]. unfold quantile.
  apply Qle_bool_iff in H0, H1. now rewrite H0, H1.
Qed.

Lemma quantile_out_of_range (xs : list Q) (q : Q) :
  q < 0 \/ 1 < q -> exists msg, quantile xs q = Raise (ValueError msg).
Proof.
  intros Hq. unfold quantile.
  destruct (Qle_bool 0 q) eqn:E0; destruct (Qle_bool q 1) eqn:E1; simpl; eauto.
  apply Qle_bool_iff in E0, E1. lra.
Qed.

Lemma quantile_Ok_range (xs : list Q) (q : Q) (thr : option Q) :
  quantile xs q = Ok thr -> 0 <= q <= 1.
Proof.
  unfold quantile.
  destruct (Qle_bool 0 q) eqn:E0; destruct (Qle_bool q 1) eqn:E1; simpl;
    try discriminate.
  apply Qle_bool_iff in E0, E1. auto.
Qed.

(** A smaller quantile level gives a smaller (or equal) cut-off, so every
    value above the larger cut-off is above the smaller one. *)
Lemma quantile_mono (xs : list Q) (q1 q2 : Q) :
  0 <= q1 -> q1 <= q2 -> q2 <= 1 ->
  exists t1 t2, quantile xs q1 = Ok t1 /\ quantile xs q2 = Ok t2
    /\ forall a, gt_threshold t2 a = true -> gt_threshold t1 a = true.
Proof.
  intros H0 H12 H1.
  rewrite !quantile_in_range by lra.
  do 2 eexists. split; [reflexivity|]. split; [reflexivity|].
  destruct xs as [|x xs]; [auto|].
  intros a. unfold gt_threshold. rewrite !Qltb_lt. intros Ha.
  assert (Hne : sort_values (x :: xs) <> []).
  { intros Heq. apply (f_equal (@length Q)) in Heq.
    rewrite sort_values_length in Heq. discriminate. }
  pose proof (percentile_linear_mono _ q1 q2 (sort_values_sorted (x :: xs)) Hne H0 H12).
  lra.
Qed.

Lemma certain_column_Ok (absdif : list Q) (q : Q) (col : list bool) :
  certain_column absdif q = Ok col ->
  exists thr, quantile absdif q = Ok thr /\ col = map (gt_threshold thr) absdif.
Proof.
  unfold certain_column. intros Hc.
  apply bind_Ok in Hc. destruct Hc as (thr & Hq & Hr).
  injection Hr as <-. eauto.
Qed.

Lemma certain_column_in_range (absdif : list Q) (q : Q) :
  0 <= q <= 1 ->
  exists thr, quantile absdif q = Ok thr
              /\ certain_column absdif q = Ok (map (gt_threshold thr) absdif).
Proof.
  intros Hq. unfold certain_column.
  rewrite (quantile_in_range _ _ Hq). eexists. split; reflexivity.
Qed.

Lemma certain_column_length (absdif : list Q) (q : Q) (col : list bool) :
  certain_column absdif q = Ok col -> length col = length absdif.
Proof.
  intros Hc. apply certain_column_Ok in Hc. destruct Hc as (thr & _ & ->).
  apply length_map.
Qed.

Lemma certain_column_mono (absdif : list Q) (q1 q2 : Q) :
  0 <= q1 -> q1 <= q2 -> q2 <= 1 ->
  exists c1 c2, certain_column absdif q1 = Ok c1 /\ certain_column absdif q2 = Ok c2
    /\ forall k : nat, c2 !! k = Some true -> c1 !! k = Some true.
Proof.
  intros H0 H12 H1.
  destruct (quantile_mono absdif q1 q2 H0 H12 H1) as (t1 & t2 & E1 & E2 & Hgt).
  unfold certain_column. rewrite E1, E2. simpl.
  do 2 eexists. split; [reflexivity|]. split; [reflexivity|].
  intros k. rewrite !list_lookup_fmap.
  destruct (absdif !! k) as [a|]; simpl; [|discriminate].
  intros [= Ha]. now rewrite (Hgt a Ha).
Qed.

(** ** The threshold schedule *)

Lemma inject_Z_pred_to_nat (n : Z) :
  (1 <= n)%Z -> inject_Z (Z.of_nat (Z.to_nat n - 1)) = inject_Z (n - 1).
Proof.
  intros Hn. f_equal. lia.
Qed.

Lemma certainty_threshold_pct_spec (t : Q) (n_iter : Z) (i : nat) :
  (2 <= n_iter)%Z -> (Z.of_nat i < n_iter)%Z ->
  exists t_i, certainty_threshold_pct t n_iter i = Ok t_i
    /\ t_i == spec_threshold t n_iter i.
Proof.
  intros Hn Hi. unfold certainty_threshold_pct, spec_threshold.
  destruct (linspace_1_0_getitem (Z.to_nat n_iter) i) as (y & Hy & Eq); [lia|lia|].
  rewrite Hy. simpl. eexists. split; [reflexivity|].
  rewrite Eq, inject_Z_pred_to_nat by lia. reflexivity.
Qed.

Lemma certainty_threshold_pct_single (t : Q) :
  exists t_0, certainty_threshold_pct t 1 0 = Ok t_0 /\ t_0 == t.
Proof.
  exists (t * (0 * (0 - 1) + 1)). split; [reflexivity|]. ring.
Qed.

Lemma spec_threshold_range (t : Q) (n_iter : Z) (i : nat) :
  0 <= t -> (2 <= n_iter)%Z -> (Z.of_nat i < n_iter)%Z ->
  0 <= spec_threshold t n_iter i <= t.
Proof.
  intros Ht Hn Hi. unfold spec_threshold.
  assert (Hd : 0 < inject_Z (n_iter - 1)) by (unfold Qlt; simpl; lia).
  assert (Hi0 : 0 <= inject_Z (Z.of_nat i)) by (unfold Qle; simpl; lia).
  assert (Hi1 : inject_Z (Z.of_nat i) <= inject_Z (n_iter - 1))
    by (unfold Qle; simpl; lia).
  set (a := inject_Z (Z.of_nat i)) in *. set (d := inject_Z (n_iter - 1)) in *.
  assert (Hfrac : 0 <= a / d <= 1).
  { split.
    - apply Qle_shift_div_l; [assumption|lra].
    - apply Qle_shift_div_r; [assumption|lra]. }
  nra.
Qed.

Lemma spec_threshold_decreasing (t : Q) (n_iter : Z) (i j : nat) :
  0 <= t -> (2 <= n_iter)%Z -> (i <= j)%nat ->
  spec_threshold t n_iter j <= spec_threshold t n_iter i.
Proof.
  intros Ht Hn Hij. unfold spec_threshold.
  assert (Hd : 0 < inject_Z (n_iter - 1)) by (unfold Qlt; simpl; lia).
  assert (Hle : inject_Z (Z.of_nat i) <= inject_Z (Z.of_nat j))
    by (unfold Qle; simpl; lia).
  set (a := inject_Z (Z.of_nat i)) in *. set (b := inject_Z (Z.of_nat j)) in *.
  set (d := inject_Z (n_iter - 1)) in *.
  assert (Hfrac : a / d <= b / d).
  { unfold Qdiv. apply Qmult_le_compat_r; [assumption|].
    apply Qlt_le_weak, Qinv_lt_0_compat, Hd. }
  nra.
Qed.

(** ** One iteration *)

Lemma mask_step_length (ci : list bool) (M : matrix) :
  length ci = length M -> length (mask_step ci M) = length M.
Proof.
  intros Hl. unfold mask_step. rewrite length_map, length_combine. lia.
Qed.

Lemma renormalize_length (M : matrix) : length (renormalize M) = length M.
Proof. apply length_map. Qed.

Lemma np_dot_Ok (conn : list (list Q)) (M lp : matrix) :
  np_dot conn M = Ok lp -> lp = map (fun w => dot_row w M) conn.
Proof.
  unfold np_dot. destruct (forallb _ conn); [|discriminate]. now intros [= <-].
Qed.

Lemma np_dot_square (conn : list (list Q)) (M : matrix) :
  square conn (length M) -> np_dot conn M = Ok (map (fun w => dot_row w M) conn).
Proof.
  intros [_ Hrows]. unfold np_dot.
  replace (forallb _ conn) with true; [reflexivity|].
  symmetry. apply forallb_forall. intros w Hw.
  rewrite List.Forall_forall in Hrows. apply Nat.eqb_eq. auto.
Qed.

Lemma certain_at_Ok (absdif : list Q) (t : Q) (n_iter : Z) (i : nat) (ci : list bool) :
  certain_at absdif t n_iter i = Ok ci ->
  exists t_i thr, certainty_threshold_pct t n_iter i = Ok t_i
    /\ quantile absdif t_i = Ok thr
    /\ ci = map (gt_threshold thr) absdif.
Proof.
  unfold certain_at. intros Hc.
  apply bind_Ok in Hc. destruct Hc as (t_i & Ht & Hc).
  apply certain_column_Ok in Hc. destruct Hc as (thr & Hq & ->). eauto.
Qed.

Lemma certain_at_length (absdif : list Q) (t : Q) (n_iter : Z) (i : nat) (ci : list bool) :
  certain_at absdif t n_iter i = Ok ci -> length ci = length absdif.
Proof.
  intros Hc. apply certain_at_Ok in Hc. destruct Hc as (? & ? & _ & _ & ->).
  apply length_map.
Qed.

(** Within the budget the schedule stays in [0, tau]. *)
Lemma certainty_threshold_pct_range (t : Q) (n_iter : Z) (i : nat) :
  0 <= t -> (Z.of_nat i < n_iter)%Z ->
  exists t_i, certainty_threshold_pct t n_iter i = Ok t_i /\ 0 <= t_i <= t.
Proof.
  intros Ht Hi.
  destruct (Z.eq_dec n_iter 1%Z) as [->|Hne].
  - assert (i = 0%nat) as -> by lia.
    destruct (certainty_threshold_pct_single t) as (t0 & E & Heq).
    exists t0. split; [assumption|]. lra.
  - destruct (certainty_threshold_pct_spec t n_iter i) as (t_i & E & Heq); [lia|lia|].
    exists t_i. split; [assumption|].
    pose proof (spec_threshold_range t n_iter i Ht ltac:(lia) Hi). lra.
Qed.

Lemma certain_at_total (absdif : list Q) (t : Q) (n_iter : Z) (i : nat) :
  0 <= t <= 1 -> (Z.of_nat i < n_iter)%Z ->
  exists ci, certain_at absdif t n_iter i = Ok ci.
Proof.
  intros [H0 H1] Hi.
  destruct (certainty_threshold_pct_range t n_iter i H0 Hi) as (t_i & E & Hr).
  unfold certain_at. rewrite E. simpl.
  destruct (certain_column_in_range absdif t_i) as (thr & _ & Hc); [lra|].
  rewrite Hc. eauto.
Qed.

Lemma diffusion_step_Ok (absdif : list Q) (conn : list (list Q)) (n_iter : Z) (t : Q)
  (i : nat) (M : matrix) (ci : list bool) (M' : matrix) :
  diffusion_step absdif conn n_iter t i M = Ok (ci, M') ->
  certain_at absdif t n_iter i = Ok ci
  /\ exists lp, np_dot conn (mask_step ci M) = Ok lp
       /\ M' = renormalize lp /\ length M' = length M.
Proof.
  unfold diffusion_step. intros Hd.
  apply bind_Ok in Hd. destruct Hd as (ci' & Hc & Hd).
  apply bind_Ok in Hd. destruct Hd as (lp & Hdot & Hd).
  apply bind_Ok in Hd. destruct Hd as (M'' & Has & Hd).
  injection Hd as <- <-.
  split; [assumption|]. exists lp. split; [assumption|].
  unfold assign_all in Has.
  destruct (length (renormalize lp) =? length M)%nat eqn:E; [|discriminate].
  injection Has as <-. apply Nat.eqb_eq in E. auto.
Qed.

Lemma diffusion_step_total (absdif : list Q) (conn : list (list Q)) (n_iter : Z) (t : Q)
  (i : nat) (M : matrix) :
  0 <= t <= 1 -> (Z.of_nat i < n_iter)%Z ->
  square conn (length absdif) -> length M = length absdif ->
  exists ci M', diffusion_step absdif conn n_iter t i M = Ok (ci, M').
Proof.
  intros Ht Hi Hsq HM.
  destruct (certain_at_total absdif t n_iter i Ht Hi) as (ci & Hc).
  pose proof (certain_at_length _ _ _ _ _ Hc) as Hlen.
  unfold diffusion_step. rewrite Hc. simpl.
  assert (Hmask : length (mask_step ci M) = length absdif).
  { rewrite mask_step_length; lia. }
  rewrite np_dot_square by (rewrite Hmask; exact Hsq). simpl.
  unfold assign_all.
  rewrite renormalize_length, length_map.
  destruct Hsq as [-> _]. rewrite HM, Nat.eqb_refl. simpl. eauto.
Qed.

(** The diffusion step never reads [pre]. *)
Lemma diffusion_step_no_NameError (absdif : list Q) (conn : list (list Q)) (n_iter : Z)
  (t : Q) (i : nat) (M : matrix) (var : string) :
  diffusion_step absdif conn n_iter t i M <> Raise (NameError var).
Proof.
  unfold diffusion_step, certain_at, certainty_threshold_pct, getitem,
    certain_column, quantile, np_dot, assign_all.
  destruct (nth_error _ i); simpl; [|discriminate].
  destruct (Qle_bool 0 _ && Qle_bool _ 1); simpl; [|discriminate].
  destruct (forallb _ conn); simpl; [|discriminate].
  destruct (_ =? _)%nat; simpl; discriminate.
Qed.

(** ** The loop *)

Lemma for_range_app (absdif : list Q) (conn : list (list Q)) (n_iter : Z) (t : Q)
  (l1 l2 : list nat) (st : lp_state) :
  for_range absdif conn n_iter t (l1 ++ l2) st
  = match for_range absdif conn n_iter t l1 st with
    | Ok (Continue, st') => for_range absdif conn n_iter t l2 st'
    | r => r
    end.
Proof.
  revert st. induction l1 as [|i l1 IH]; intros st; simpl; [reflexivity|].
  destruct (body absdif conn n_iter t i st) as [[[|] st']|e]; auto.
Qed.

Section LoopFacts.

Variable results : list cell.
Variable conn : list (list Q).
Variable n_iter : Z.
Variable t : Q.

Local Abbreviation absdif := (absdif_of results).
Local Abbreviation step := (diffusion_step absdif conn n_iter t).
Local Abbreviation loop_body := (body absdif conn n_iter t).

(** What one iteration does, once its diffusion step has gone through. *)
Lemma body_eval (i : nat) (st : lp_state) (ci : list bool) (M' : matrix) :
  loop_inv results n_iter i st ->
  step i (proba_tier_0 st) = Ok (ci, M') ->
  loop_body i st =
    if (5 <=? i)%nat && drift_below (drift_between (proba_tier_0 st) M')
    then Ok (Break, after_break st i ci M')
    else if (Z.of_nat i =? n_iter - 1)%Z
         then (if (i =? 0)%nat then Raise (NameError "pre")
               else Ok (Continue,
                        after_continue st i ci M'
                          [NonConvergence (drift_between (proba_tier_0 st) M') n_iter]))
         else Ok (Continue, after_continue st i ci M' []).
Proof.
  intros Hinv Hstep. unfold body. rewrite Hstep.
  set (last := (Z.of_nat i =? n_iter - 1)%Z).
  unfold monitor, read_pre, after_break, after_continue, drift_between.
  fold last. clearbody last.
  destruct i as [|i].
  - cbn. rewrite (inv_pre0 _ _ _ _ Hinv eq_refl).
    destruct last; cbn; [reflexivity|].
    now rewrite app_nil_r.
  - replace (negb (S i <? 5)%nat) with (5 <=? S i)%nat
      by (destruct (Nat.leb_spec 5 (S i)), (Nat.ltb_spec (S i) 5); simpl; lia).
    cbn [mbind result_bind proba_tier_0 pre stdout certain_cols].
    rewrite (inv_pre _ _ _ _ Hinv ltac:(lia)).
    replace (S i =? 0)%nat with false by reflexivity.
    destruct (5 <=? S i)%nat; cbn [andb mbind result_bind mret result_ret].
    + destruct (drift_below _); [reflexivity|].
      destruct last; cbn; [reflexivity|].
      now rewrite app_nil_r.
    + destruct last; cbn; [reflexivity|].
      now rewrite app_nil_r.
Qed.

Lemma body_Ok_step (i : nat) (st : lp_state) (c : ctl) (st' : lp_state) :
  loop_body i st = Ok (c, st') ->
  exists ci M', step i (proba_tier_0 st) = Ok (ci, M').
Proof.
  unfold body. intros Hb.
  apply bind_Ok in Hb. destruct Hb as ([ci M'] & Hs & _). eauto.
Qed.

Lemma body_Continue (i : nat) (st st' : lp_state) :
  loop_inv results n_iter i st ->
  loop_body i st = Ok (Continue, st') ->
  exists ci M', step i (proba_tier_0 st) = Ok (ci, M')
    /\ ((5 <= i)%nat -> drift_below (drift_between (proba_tier_0 st) M') = false)
    /\ st' = after_continue st i ci M'
               (if (Z.of_nat i =? n_iter - 1)%Z
                then [NonConvergence (drift_between (proba_tier_0 st) M') n_iter]
                else []).
Proof.
  intros Hinv Hb.
  destruct (body_Ok_step _ _ _ _ Hb) as (ci & M' & Hs).
  rewrite (body_eval _ _ _ _ Hinv Hs) in Hb.
  exists ci, M'. split; [assumption|].
  destruct (Nat.leb_spec 5 i) as [H5|H5]; simpl in Hb.
  - destruct (drift_below _) eqn:Ed; simpl in Hb; [discriminate|].
    split; [reflexivity|].
    destruct (Z.of_nat i =? n_iter - 1)%Z.
    + destruct (i =? 0)%nat; [discriminate|]. now injection Hb as <-.
    + now injection Hb as <-.
  - split; [lia|].
    destruct (Z.of_nat i =? n_iter - 1)%Z.
    + destruct (i =? 0)%nat; [discriminate|]. now injection Hb as <-.
    + now injection Hb as <-.
Qed.

Lemma body_Break (i : nat) (st st' : lp_state) :
  loop_inv results n_iter i st ->
  loop_body i st = Ok (Break, st') ->
  (5 <= i)%nat
  /\ exists ci M', step i (proba_tier_0 st) = Ok (ci, M')
       /\ drift_below (drift_between (proba_tier_0 st) M') = true
       /\ st' = after_break st i ci M'.
Proof.
  intros Hinv Hb.
  destruct (body_Ok_step _ _ _ _ Hb) as (ci & M' & Hs).
  rewrite (body_eval _ _ _ _ Hinv Hs) in Hb.
  destruct (Nat.leb_spec 5 i) as [H5|H5]; simpl in Hb.
  - destruct (drift_below _) eqn:Ed; simpl in Hb.
    + injection Hb as <-. split; [assumption|]. exists ci, M'. auto.
    + destruct (Z.of_nat i =? n_iter - 1)%Z; [destruct (i =? 0)%nat|]; discriminate.
  - destruct (Z.of_nat i =? n_iter - 1)%Z; [destruct (i =? 0)%nat|]; discriminate.
Qed.

Lemma initial_inv : loop_inv results n_iter 0 (initial_state results).
Proof.
  constructor; simpl; try reflexivity; try lia.
  apply length_map.
Qed.

Lemma body_preserves_inv (i : nat) (st st' : lp_state) :
  loop_inv results n_iter i st ->
  loop_body i st = Ok (Continue, st') ->
  loop_inv results n_iter (S i) st'.
Proof.
  intros Hinv Hb.
  destruct (body_Continue _ _ _ Hinv Hb) as (ci & M' & Hs & _ & ->).
  apply diffusion_step_Ok in Hs. destruct Hs as (_ & lp & _ & _ & Hlen).
  constructor; unfold after_continue; cbn [proba_tier_0 pre certain_cols stdout].
  - rewrite Hlen. apply (inv_rows _ _ _ _ Hinv).
  - rewrite map_app, (inv_cols _ _ _ _ Hinv), seq_S. reflexivity.
  - reflexivity.
  - discriminate.
  - intros Hlt.
    replace (Z.of_nat i =? n_iter - 1)%Z with false by (symmetry; apply Z.eqb_neq; lia).
    rewrite app_nil_r. apply (inv_out _ _ _ _ Hinv). lia.
Qed.

Lemma reaches_0 (st : lp_state) :
  reaches results conn n_iter t 0 st <-> st = initial_state results.
Proof.
  unfold reaches. simpl. split; [now intros [= <-] | now intros ->].
Qed.

Lemma reaches_S (i : nat) (st' : lp_state) :
  reaches results conn n_iter t (S i) st'
  <-> exists st, reaches results conn n_iter t i st
                 /\ loop_body i st = Ok (Continue, st').
Proof.
  unfold reaches. rewrite seq_S, for_range_app. simpl. split.
  - destruct (for_range _ _ _ _ (seq 0 i) _) as [[[|] st]|e]; try discriminate.
    intros Hb. exists st. split; [reflexivity|].
    destruct (loop_body i st) as [[[|] st'']|e]; congruence.
  - intros (st & -> & ->). reflexivity.
Qed.

Lemma reaches_inv (i : nat) (st : lp_state) :
  reaches results conn n_iter t i st -> loop_inv results n_iter i st.
Proof.
  revert st. induction i as [|i IH]; intros st Hr.
  - apply reaches_0 in Hr. subst. apply initial_inv.
  - apply reaches_S in Hr. destruct Hr as (st0 & Hr & Hb).
    eapply body_preserves_inv; eauto.
Qed.

Lemma reaches_functional (i : nat) (st1 st2 : lp_state) :
  reaches results conn n_iter t i st1 -> reaches results conn n_iter t i st2 ->
  st1 = st2.
Proof.
  unfold reaches. congruence.
Qed.

End LoopFacts.

(** ** Whole runs *)

Section RunFacts.

Variable results : list cell.
Variable conn : list (list Q).
Variable n_iter : Z.
Variable t : Q.

Local Abbreviation absdif := (absdif_of results).
Local Abbreviation step := (diffusion_step absdif conn n_iter t).
Local Abbreviation loop_body := (body absdif conn n_iter t).
Local Abbreviation loop := (for_range absdif conn n_iter t).

(** A prefix of the loop ends in exactly one of three ways. *)
Lemma loop_prefix_cases (k : nat) :
  (exists st, reaches results conn n_iter t k st)
  \/ (exists i st st', (i < k)%nat /\ reaches results conn n_iter t i st
        /\ loop_body i st = Ok (Break, st')
        /\ loop (seq 0 k) (initial_state results) = Ok (Break, st'))
  \/ (exists i st e, (i < k)%nat /\ reaches results conn n_iter t i st
        /\ loop_body i st = Raise e
        /\ loop (seq 0 k) (initial_state results) = Raise e).
Proof.
  induction k as [|k IH].
  - left. exists (initial_state results). now apply reaches_0.
  - rewrite seq_S, for_range_app. simpl.
    destruct IH as [(st & Hr) | [(i & st & st' & Hi & Hr & Hb & Hl)
                                | (i & st & e & Hi & Hr & Hb & Hl)]].
    + pose proof Hr as Hr'. unfold reaches in Hr'. rewrite Hr'.
      destruct (loop_body k st) as [[[|] st']|e] eqn:Hb.
      * left. exists st'. apply reaches_S. eauto.
      * right. left. exists k, st, st'. auto.
      * right. right. exists k, st, e. auto.
    + right. left. rewrite Hl. exists i, st, st'. auto.
    + right. right. rewrite Hl. exists i, st, e. auto.
Qed.

Lemma label_propagation_unfold :
  label_propagation results conn n_iter t
  = (certain0 ← certain_column absdif t;
     '(c, st) ← loop (range n_iter) (initial_state results);
     mret {| certain := certain0;
             certain_i := certain_cols st;
             LR_with_label_propagation_tier_0_prediction := idxmax (proba_tier_0 st);
             LR_with_label_propagation_proba := proba_tier_0 st;
             printed := stdout st;
             loop_exit := c |}).
Proof. reflexivity. Qed.

(** The loop stops at iteration [i]: what the run returns. *)
Lemma run_breaks_at (i : nat) (st : lp_state) (ci : list bool) (M' : matrix) :
  0 <= t <= 1 ->
  (Z.of_nat i < n_iter)%Z ->
  reaches results conn n_iter t i st ->
  loop_body i st = Ok (Break, after_break st i ci M') ->
  exists certain0,
    certain_column absdif t = Ok certain0
    /\ label_propagation results conn n_iter t
       = Ok {| certain := certain0;
               certain_i := certain_cols st ++ [(i, ci)];
               LR_with_label_propagation_tier_0_prediction := idxmax M';
               LR_with_label_propagation_proba := M';
               printed := stdout st;
               loop_exit := Break |}.
Proof.
  intros Ht Hi Hr Hb.
  destruct (certain_column_in_range absdif t Ht) as (thr & _ & Hc).
  eexists. split; [exact Hc|].
  rewrite label_propagation_unfold, Hc. cbn [mbind result_bind].
  unfold range.
  replace (Z.to_nat n_iter) with (i + S (Z.to_nat n_iter - S i))%nat by lia.
  rewrite seq_app, for_range_app.
  unfold reaches in Hr. rewrite Hr. cbn [seq for_range Nat.add].
  rewrite Hb. reflexivity.
Qed.

(** The loop runs out of iterations: what the run returns. *)
Lemma run_exhausts (st : lp_state) :
  0 <= t <= 1 ->
  reaches results conn n_iter t (Z.to_nat n_iter) st ->
  exists certain0,
    certain_column absdif t = Ok certain0
    /\ label_propagation results conn n_iter t
       = Ok {| certain := certain0;
               certain_i := certain_cols st;
               LR_with_label_propagation_tier_0_prediction := idxmax (proba_tier_0 st);
               LR_with_label_propagation_proba := proba_tier_0 st;
               printed := stdout st;
               loop_exit := Continue |}.
Proof.
  intros Ht Hr.
  destruct (certain_column_in_range absdif t Ht) as (thr & _ & Hc).
  eexists. split; [exact Hc|].
  rewrite label_propagation_unfold, Hc. cbn [mbind result_bind].
  unfold reaches in Hr. unfold range. rewrite Hr. reflexivity.
Qed.

(** Every result of a run comes from one of the two exits. *)
Lemma run_Ok_cases (out : lp_output) :
  label_propagation results conn n_iter t = Ok out ->
  certain_column absdif t = Ok (certain out)
  /\ ((loop_exit out = Continue
       /\ exists st, reaches results conn n_iter t (Z.to_nat n_iter) st
            /\ certain_i out = certain_cols st
            /\ LR_with_label_propagation_proba out = proba_tier_0 st
            /\ printed out = stdout st)
      \/ (loop_exit out = Break
          /\ exists i st ci M', (Z.of_nat i < n_iter)%Z
               /\ reaches results conn n_iter t i st
               /\ loop_body i st = Ok (Break, after_break st i ci M')
               /\ certain_i out = certain_cols st ++ [(i, ci)]
               /\ LR_with_label_propagation_proba out = M'
               /\ printed out = stdout st)).
Proof.
  rewrite label_propagation_unfold. intros Hlp.
  apply bind_Ok in Hlp. destruct Hlp as (c0 & Hc & Hlp).
  apply bind_Ok in Hlp. destruct Hlp as ([c st'] & Hl & Hout).
  injection Hout as <-. cbn [certain loop_exit certain_i printed
                              LR_with_label_propagation_proba].
  split; [assumption|].
  unfold range in Hl.
  destruct (loop_prefix_cases (Z.to_nat n_iter))
    as [(st & Hr) | [(i & st & st'' & Hi & Hr & Hb & Hl')
                    | (i & st & e & Hi & Hr & Hb & Hl')]].
  - pose proof Hr as Hr'. unfold reaches in Hr'. rewrite Hr' in Hl.
    injection Hl as <- <-. left. split; [reflexivity|]. exists st. auto.
  - rewrite Hl' in Hl. injection Hl as <- <-.
    right. split; [reflexivity|].
    pose proof (reaches_inv _ _ _ _ _ _ Hr) as Hinv.
    destruct (body_Break _ _ _ _ _ _ _ Hinv Hb) as (_ & ci & M' & _ & _ & ->).
    exists i, st, ci, M'. repeat split; auto. lia.
  - rewrite Hl' in Hl. discriminate.
Qed.

(** On valid input a run with a budget other than 1 returns. *)
Lemma loop_prefix_total (k : nat) :
  valid_input results conn t -> n_iter <> 1%Z -> (k <= Z.to_nat n_iter)%nat ->
  exists c st, loop (seq 0 k) (initial_state results) = Ok (c, st).
Proof.
  intros (Hsq & Ht0 & Ht1) Hn Hk.
  induction k as [|k IH]; [simpl; eauto|].
  rewrite seq_S, for_range_app.
  destruct IH as (c & st & Hl); [lia|].
  rewrite Hl. destruct c; [|eauto].
  assert (Hr : reaches results conn n_iter t k st) by exact Hl.
  pose proof (reaches_inv _ _ _ _ _ _ Hr) as Hinv.
  destruct (diffusion_step_total absdif conn n_iter t k (proba_tier_0 st))
    as (ci & M' & Hs).
  - lra.
  - lia.
  - unfold absdif_of. rewrite length_map. exact Hsq.
  - rewrite (inv_rows _ _ _ _ Hinv). unfold absdif_of. now rewrite length_map.
  - cbn [seq for_range Nat.add].
    rewrite (body_eval _ _ _ _ _ _ _ _ Hinv Hs).
    destruct (_ && _); [eauto|].
    destruct (Z.of_nat k =? n_iter - 1)%Z eqn:El; [|eauto].
    destruct (k =? 0)%nat eqn:Ek; [|eauto].
    apply Z.eqb_eq in El. apply Nat.eqb_eq in Ek. lia.
Qed.

Lemma label_propagation_total :
  valid_input results conn t -> n_iter <> 1%Z ->
  exists out, label_propagation results conn n_iter t = Ok out.
Proof.
  intros Hv Hn.
  destruct (loop_prefix_total (Z.to_nat n_iter) Hv Hn (Nat.le_refl _)) as (c & st & Hl).
  destruct Hv as (_ & Ht0 & Ht1).
  destruct (certain_column_in_range absdif t (conj Ht0 Ht1)) as (thr & _ & Hc).
  rewrite label_propagation_unfold, Hc. cbn [mbind result_bind].
  unfold range. rewrite Hl. cbn. eauto.
Qed.

(** With a budget of at least 2 no prefix of the loop reads an unbound [pre]. *)
Lemma loop_prefix_no_NameError (k : nat) (var : string) :
  (2 <= n_iter)%Z ->
  loop (seq 0 k) (initial_state results) <> Raise (NameError var).
Proof.
  intros Hn.
  destruct (loop_prefix_cases k)
    as [(st & Hr) | [(i & st & st' & _ & _ & _ & Hl) | (i & st & e & _ & Hr & Hb & Hl)]].
  - unfold reaches in Hr. rewrite Hr. discriminate.
  - rewrite Hl. discriminate.
  - rewrite Hl. intros [= ->].
    pose proof (reaches_inv _ _ _ _ _ _ Hr) as Hinv.
    destruct (step i (proba_tier_0 st)) as [[ci M']|e] eqn:Hs.
    + rewrite (body_eval _ _ _ _ _ _ _ _ Hinv Hs) in Hb.
      destruct (_ && _); [discriminate|].
      destruct (Z.of_nat i =? n_iter - 1)%Z eqn:El; [|discriminate].
      destruct (i =? 0)%nat eqn:Ei; [|discriminate].
      apply Z.eqb_eq in El. apply Nat.eqb_eq in Ei. lia.
    + unfold body in Hb. rewrite Hs in Hb. cbn in Hb. injection Hb as ->.
      now apply diffusion_step_no_NameError in Hs.
Qed.

End RunFacts.

(** ** The convergence monitor *)

(** A run that left the loop through [break] executed at least six
    iterations: the stop happened at an index of 5 or more. *)
Lemma break_not_before_5 (results : list cell) (conn : list (list Q)) (n_iter : Z)
  (t : Q) (out : lp_output) :
  label_propagation results conn n_iter t = Ok out ->
  loop_exit out = Break ->
  (6 <= iterations_run out)%nat /\ printed out = [].
Proof.
  intros Hlp Hexit.
  destruct (run_Ok_cases _ _ _ _ _ Hlp) as (_ & [(Hc & _) | (_ & Hb)]); [congruence|].
  destruct Hb as (i & st & ci & M' & Hi & Hr & Hb & Hcols & _ & Hout).
  pose proof (reaches_inv _ _ _ _ _ _ Hr) as Hinv.
  destruct (body_Break _ _ _ _ _ _ _ Hinv Hb) as (H5 & _).
  split.
  - unfold iterations_run. rewrite Hcols, length_app.
    rewrite <- (length_map fst (certain_cols st)), (inv_cols _ _ _ _ Hinv), length_seq.
    simpl. lia.
  - rewrite Hout. apply (inv_out _ _ _ _ Hinv). lia.
Qed.

(** On valid input with a budget of six or more the loop always enters
    iteration 5: nothing stops it in iterations 0 to 4. *)
Lemma enters_iteration_5 (results : list cell) (conn : list (list Q)) (n_iter : Z)
  (t : Q) :
  valid_input results conn t -> (6 <= n_iter)%Z ->
  exists st, reaches results conn n_iter t 5 st.
Proof.
  intros Hv Hn.
  destruct (loop_prefix_total results conn n_iter t 5 Hv) as (c & st & Hl); [lia|lia|].
  destruct c; [exists st; exact Hl|].
  destruct (loop_prefix_cases results conn n_iter t 5)
    as [(st' & Hr) | [(i & st0 & st' & Hi & Hr & Hb & Hl') | (i & st0 & e & _ & _ & _ & Hl')]].
  - eauto.
  - pose proof (reaches_inv _ _ _ _ _ _ Hr) as Hinv.
    destruct (body_Break _ _ _ _ _ _ _ Hinv Hb) as (H5 & _). lia.
  - rewrite Hl' in Hl. discriminate.
Qed.

(** C1 (as the code has it).  Early stop never occurs during iterations 0
    through 4: a run that stopped early has executed at least six
    iterations, and on valid input with a budget of six or more the loop
    always enters iteration 5.  From iteration 5 onward, whenever the drift
    (the fraction of cells whose argmax assignment differs from the previous
    iteration's) is below 0.001, the loop stops at that very iteration: the
    run returns that iteration's matrix and prints no warning. *)
Theorem early_stop_from_iteration_5 (results : list cell) (conn : list (list Q))
  (n_iter : Z) (t : Q) :
  valid_input results conn t ->
  (forall out, label_propagation results conn n_iter t = Ok out ->
               loop_exit out = Break -> (6 <= iterations_run out)%nat)
  /\ ((6 <= n_iter)%Z -> exists st, reaches results conn n_iter t 5 st)
  /\ (forall i st ci M',
        (5 <= i)%nat -> (Z.of_nat i < n_iter)%Z ->
        reaches results conn n_iter t i st ->
        diffusion_step (absdif_of results) conn n_iter t i (proba_tier_0 st)
          = Ok (ci, M') ->
        drift_below (drift_between (proba_tier_0 st) M') = true ->
        exists out, label_propagation results conn n_iter t = Ok out
          /\ loop_exit out = Break
          /\ iterations_run out = S i
          /\ printed out = []
          /\ LR_with_label_propagation_proba out = M'
          /\ LR_with_label_propagation_tier_0_prediction out = idxmax M').
Proof.
  intros Hv. split; [|split].
  - intros out Hlp Hexit. now apply (break_not_before_5 _ _ _ _ _ Hlp Hexit).
  - intros Hn. now apply enters_iteration_5.
  - intros i st ci M' H5 Hi Hr Hs Hd.
    pose proof (reaches_inv _ _ _ _ _ _ Hr) as Hinv.
    pose proof (body_eval _ _ _ _ _ _ _ _ Hinv Hs) as Hb.
    rewrite Hd in Hb.
    replace (5 <=? i)%nat with true in Hb by (symmetry; apply Nat.leb_le; lia).
    cbn [andb] in Hb.
    destruct Hv as (_ & Ht0 & Ht1).
    destruct (run_breaks_at _ _ _ _ _ _ _ _ (conj Ht0 Ht1) Hi Hr Hb) as (c0 & _ & Hlp).
    eexists. split; [exact Hlp|].
    unfold iterations_run.
    cbn [loop_exit certain_i printed LR_with_label_propagation_proba
         LR_with_label_propagation_tier_0_prediction].
    repeat split.
    + rewrite length_app.
      rewrite <- (length_map fst (certain_cols st)), (inv_cols _ _ _ _ Hinv), length_seq.
      simpl. lia.
    + apply (inv_out _ _ _ _ Hinv). lia.
Qed.

Section Counterexamples.

Import Examples.

(** C1, counterexample.  In the run on the two example cells with a budget
    of 7 the drift at 0-indexed iteration 4 is below 0.001, and yet the loop
    does not stop there: it enters iteration 5 and the run executes six
    iterations. *)
Lemma no_early_stop_at_iteration_4 :
  (exists d, drift_at two_cells full_graph 7 (1 # 2) 4 = Some d
             /\ drift_below d = true)
  /\ (exists st, reaches two_cells full_graph 7 (1 # 2) 5 st)
  /\ (exists out, label_propagation two_cells full_graph 7 (1 # 2) = Ok out
                  /\ loop_exit out = Break
                  /\ iterations_run out = 6%nat).
Proof.
  split; [|split].
  - eexists. split; vm_compute; reflexivity.
  - eexists. unfold reaches. vm_compute. reflexivity.
  - eexists. split; [vm_compute; reflexivity|]. split; reflexivity.
Qed.

Lemma two_cells_valid : valid_input two_cells full_graph (1 # 2).
Proof.
  repeat split; try (repeat constructor; fail); unfold Qle; simpl; lia.
Qed.

(** The early-stop theorem on the two example cells: the drift at
    iteration 5 is zero, and the run stops there without a warning. *)
Lemma early_stop_from_iteration_5_witness :
  valid_input two_cells full_graph (1 # 2)
  /\ exists out, label_propagation two_cells full_graph 7 (1 # 2) = Ok out
       /\ loop_exit out = Break
       /\ iterations_run out = 6%nat
       /\ printed out = [].
Proof.
  split; [exact two_cells_valid|].
  destruct (early_stop_from_iteration_5 two_cells full_graph 7 (1 # 2) two_cells_valid)
    as (_ & _ & Hstop).
  edestruct (Hstop 5%nat) as (out & Hlp & Hexit & Hrun & Hpr & _).
  - lia.
  - lia.
  - unfold reaches. vm_compute. reflexivity.
  - vm_compute. reflexivity.
  - vm_compute. reflexivity.
  - exists out. auto.
Defined.

End Counterexamples.

Lemma prediction_is_idxmax (results : list cell) (conn : list (list Q)) (n_iter : Z)
  (t : Q) (out : lp_output) :
  label_propagation results conn n_iter t = Ok out ->
  LR_with_label_propagation_tier_0_prediction out
  = idxmax (LR_with_label_propagation_proba out).
Proof.
  rewrite label_propagation_unfold. intros Hlp.
  apply bind_Ok in Hlp. destruct Hlp as (c0 & _ & Hlp).
  apply bind_Ok in Hlp. destruct Hlp as ([c st] & _ & Hout).
  now injection Hout as <-.
Qed.

(** With a budget of at least 2, on valid input: the run returns; a run
    that exhausted its budget executed [n_iter] iterations and printed
    exactly one warning, which carries the drift of the last iteration; a
    run that stopped early printed nothing. *)
Lemma exhausted_run_warns_once (results : list cell) (conn : list (list Q))
  (n_iter : Z) (t : Q) :
  valid_input results conn t -> (2 <= n_iter)%Z ->
  exists out, label_propagation results conn n_iter t = Ok out
    /\ LR_with_label_propagation_tier_0_prediction out
       = idxmax (LR_with_label_propagation_proba out)
    /\ (loop_exit out = Break -> printed out = [])
    /\ (loop_exit out = Continue ->
        iterations_run out = Z.to_nat n_iter
        /\ exists st ci,
             reaches results conn n_iter t (Z.to_nat n_iter - 1) st
             /\ diffusion_step (absdif_of results) conn n_iter t (Z.to_nat n_iter - 1)
                  (proba_tier_0 st)
                = Ok (ci, LR_with_label_propagation_proba out)
             /\ printed out
                = [NonConvergence
                     (drift_between (proba_tier_0 st)
                                    (LR_with_label_propagation_proba out))
                     n_iter]).
Proof.
  intros Hv Hn.
  destruct (label_propagation_total results conn n_iter t Hv) as (out & Hlp); [lia|].
  exists out. split; [assumption|].
  split; [now apply (prediction_is_idxmax _ _ _ _ _ Hlp)|].
  split.
  - intros Hexit. now apply (break_not_before_5 _ _ _ _ _ Hlp Hexit).
  - intros Hexit.
    destruct (run_Ok_cases _ _ _ _ _ Hlp) as (_ & [(_ & Hc) | (Hb & _)]); [|congruence].
    destruct Hc as (st' & Hr' & Hcols & Hproba & Hout).
    pose proof (reaches_inv _ _ _ _ _ _ Hr') as Hinv'.
    split.
    + unfold iterations_run.
      now rewrite Hcols, <- (length_map fst), (inv_cols _ _ _ _ Hinv'), length_seq.
    + replace (Z.to_nat n_iter) with (S (Z.to_nat n_iter - 1)) in Hr' by lia.
      apply reaches_S in Hr'. destruct Hr' as (st & Hr & Hb).
      pose proof (reaches_inv _ _ _ _ _ _ Hr) as Hinv.
      destruct (body_Continue _ _ _ _ _ _ _ Hinv Hb) as (ci & M' & Hs & _ & Hst').
      replace (Z.of_nat (Z.to_nat n_iter - 1) =? n_iter - 1)%Z with true in Hst'
        by (symmetry; apply Z.eqb_eq; lia).
      exists st, ci. rewrite Hproba, Hout, Hst'.
      unfold after_continue. cbn [proba_tier_0 stdout].
      rewrite (inv_out _ _ _ _ Hinv) by lia.
      auto.
Qed.

(** C10.  With [n_iter = 1] [label_propagation] does not return on any
    valid input: iteration 0 is also the last one, and its warning reads
    the local [pre] before anything was assigned to it.  With
    [n_iter >= 2] no run, on any input, ends in that error. *)
Theorem unbound_pre_iff_budget_1 :
  (forall results conn t,
      valid_input results conn t ->
      label_propagation results conn 1 t = Raise (NameError "pre"))
  /\ (forall results conn n_iter t var,
        (2 <= n_iter)%Z ->
        label_propagation results conn n_iter t <> Raise (NameError var)).
Proof.
  split.
  - intros results conn t (Hsq & Ht0 & Ht1).
    destruct (certain_column_in_range (absdif_of results) t (conj Ht0 Ht1))
      as (thr & _ & Hc).
    rewrite label_propagation_unfold, Hc. cbn [mbind result_bind].
    destruct (diffusion_step_total (absdif_of results) conn 1 t 0
                (proba_tier_0 (initial_state results))) as (ci & M' & Hs).
    + lra.
    + lia.
    + unfold absdif_of. now rewrite length_map.
    + unfold initial_state, initial_proba, absdif_of. cbn. now rewrite !length_map.
    + change (range 1) with [0%nat]. cbn [for_range].
      rewrite (body_eval _ _ _ _ _ _ _ _ (initial_inv results 1) Hs).
      reflexivity.
  - intros results conn n_iter t var Hn.
    rewrite label_propagation_unfold.
    unfold certain_column, quantile.
    destruct (Qle_bool 0 t && Qle_bool t 1); cbn [mbind result_bind mret result_ret];
      [|discriminate].
    pose proof (loop_prefix_no_NameError results conn n_iter t (Z.to_nat n_iter) var Hn)
      as Hloop.
    unfold range.
    destruct (for_range _ _ _ _ _ _) as [[c st]|e]; cbn; [discriminate|].
    intros [= ->]. now apply Hloop.
Qed.

Section Evaluations.

Import Examples.

Lemma one_cell_valid : valid_input one_cell self_loop (1 # 2).
Proof.
  repeat split; try (repeat constructor; fail); unfold Qle; simpl; lia.
Qed.

(** The two halves of C10 on the one-cell example. *)
Lemma unbound_pre_iff_budget_1_witness :
  valid_input one_cell self_loop (1 # 2)
  /\ label_propagation one_cell self_loop 1 (1 # 2) = Raise (NameError "pre")
  /\ label_propagation one_cell self_loop 2 (1 # 2) <> Raise (NameError "pre").
Proof.
  split; [exact one_cell_valid|]. split.
  - apply (proj1 unbound_pre_iff_budget_1 one_cell self_loop (1 # 2) one_cell_valid).
  - apply (proj2 unbound_pre_iff_budget_1 one_cell self_loop 2%Z (1 # 2)). lia.
Defined.

(** C8, at the input where the code fails it.  With [n_iter = 1] the loop
    reaches its last iteration without an early stop, and the run neither
    prints the warning nor returns: it ends in the error of C10. *)
Theorem budget_1_neither_warns_nor_returns :
  label_propagation two_cells full_graph 1 (1 # 2) = Raise (NameError "pre").
Proof. vm_compute. reflexivity. Qed.

End Evaluations.

(** ** The confidence masks *)

Lemma thresholds_decrease (t : Q) (n_iter : Z) (j i : nat) :
  0 <= t -> (j <= i)%nat -> (Z.of_nat i < n_iter)%Z ->
  exists t_j t_i, certainty_threshold_pct t n_iter j = Ok t_j
    /\ certainty_threshold_pct t n_iter i = Ok t_i
    /\ 0 <= t_i /\ t_i <= t_j /\ t_j <= t.
Proof.
  intros Ht Hji Hi.
  destruct (Z.eq_dec n_iter 1%Z) as [->|Hne].
  - assert (i = 0%nat) as -> by lia. assert (j = 0%nat) as -> by lia.
    destruct (certainty_threshold_pct_single t) as (t0 & E & Heq).
    exists t0, t0. repeat split; try assumption; lra.
  - destruct (certainty_threshold_pct_spec t n_iter j) as (t_j & Ej & Hj); [lia|lia|].
    destruct (certainty_threshold_pct_spec t n_iter i) as (t_i & Ei & Hi'); [lia|lia|].
    exists t_j, t_i. split; [assumption|]. split; [assumption|].
    pose proof (spec_threshold_range t n_iter i Ht ltac:(lia) Hi).
    pose proof (spec_threshold_range t n_iter j Ht ltac:(lia) ltac:(lia)).
    pose proof (spec_threshold_decreasing t n_iter j i Ht ltac:(lia) Hji).
    repeat split; lra.
Qed.

(** C6.  The certain cells of an earlier iteration are certain at every
    later one, for every confidence vector; so are the cells of the global
    [certain] flag, taken at the full threshold, which is the threshold of
    iteration 0. *)
Theorem certain_set_grows (absdif : list Q) (t : Q) (n_iter : Z) (j i : nat) :
  0 <= t <= 1 -> (j <= i)%nat -> (Z.of_nat i < n_iter)%Z ->
  exists c0 cj ci,
    certain_column absdif t = Ok c0
    /\ certain_at absdif t n_iter j = Ok cj
    /\ certain_at absdif t n_iter i = Ok ci
    /\ (forall k : nat, cj !! k = Some true -> ci !! k = Some true)
    /\ (forall k : nat, c0 !! k = Some true -> ci !! k = Some true)
    /\ (j = 0%nat -> forall k : nat, cj !! k = Some true -> c0 !! k = Some true).
Proof.
  intros [Ht0 Ht1] Hji Hi.
  destruct (thresholds_decrease t n_iter j i Ht0 Hji Hi)
    as (t_j & t_i & Ej & Ei & Hi0 & Hij & Hjt).
  destruct (certain_column_mono absdif t_i t_j) as (ci & cj & Eci & Ecj & Hsub);
    [lra|lra|lra|].
  destruct (certain_column_mono absdif t_i t) as (ci' & c0 & Eci' & Ec0 & Hsub0);
    [lra|lra|lra|].
  assert (ci' = ci) as -> by congruence.
  exists c0, cj, ci.
  unfold certain_at. rewrite Ej, Ei. cbn [mbind result_bind].
  repeat split; try assumption.
  intros -> k.
  assert (Htj : t <= t_j).
  { destruct (Z.eq_dec n_iter 1%Z) as [->|Hne].
    - destruct (certainty_threshold_pct_single t) as (t0 & E & Heq).
      assert (t0 = t_j) as <- by congruence. lra.
    - destruct (certainty_threshold_pct_spec t n_iter 0) as (t0 & E & Heq); [lia|lia|].
      assert (t0 = t_j) as <- by congruence.
      rewrite Heq. unfold spec_threshold.
      assert (~ inject_Z (n_iter - 1) == 0) by (unfold Qeq; simpl; lia).
      apply Qle_lteq. right. symmetry.
      change (inject_Z (Z.of_nat 0)) with 0. field. assumption. }
  destruct (certain_column_mono absdif t t_j) as (c0' & cj' & Ec0' & Ecj' & Hsub');
    [lra|lra|lra|].
  assert (c0' = c0) as -> by congruence.
  assert (cj' = cj) as -> by congruence.
  apply Hsub'.
Qed.

(** ** float64 rounding *)

Lemma pow2_pos (e : Z) : 0 < 2 ^ e.
Proof. apply Qpower_0_lt. reflexivity. Qed.

Lemma pow2_plus (a b : Z) : 2 ^ (a + b) == 2 ^ a * 2 ^ b.
Proof. apply Qpower_plus. discriminate. Qed.

Lemma pow2_le (a b : Z) : (a <= b)%Z -> 2 ^ a <= 2 ^ b.
Proof. intros. apply Qpower_le_compat_l; [assumption|]. unfold Qle; simpl; lia. Qed.

Lemma pow2_lt (a b : Z) : (a < b)%Z -> 2 ^ a < 2 ^ b.
Proof. intros. apply Qpower_lt_compat_l; [assumption|]. reflexivity. Qed.

Lemma pow2_lt_inv (a b : Z) : 2 ^ a < 2 ^ b -> (a < b)%Z.
Proof. intros. eapply Qpower_lt_compat_l_inv; [eassumption|reflexivity]. Qed.

Lemma pow2_le_inv (a b : Z) : 2 ^ a <= 2 ^ b -> (a <= b)%Z.
Proof. intros. eapply Qpower_le_compat_l_inv; [eassumption|reflexivity]. Qed.

Lemma pow2_int (n : Z) : (0 <= n)%Z -> 2 ^ n == inject_Z (2 ^ n).
Proof. intros. symmetry. apply (Zpower_Qpower 2 n). assumption. Qed.

(** [ilog2 x] is the exponent of the leading bit of [x]. *)
Lemma ilog2_spec (x : Q) :
  0 < x -> 2 ^ Binary64.ilog2 x <= x /\ x < 2 ^ (Binary64.ilog2 x + 1).
Proof.
  intros Hx. unfold Binary64.ilog2.
  destruct x as [p q]. unfold Qlt in Hx. simpl in Hx.
  assert (Hp : (0 < p)%Z) by lia. clear Hx.
  cbn [Qnum Qden].
  set (a := Z.log2 p). set (b := Z.log2 (Z.pos q)).
  destruct (Z.log2_spec p Hp) as [Ha1 Ha2]. fold a in Ha1, Ha2.
  destruct (Z.log2_spec (Z.pos q) ltac:(lia)) as [Hb1 Hb2]. fold b in Hb1, Hb2.
  assert (Ha0 : (0 <= a)%Z) by apply Z.log2_nonneg.
  assert (Hb0 : (0 <= b)%Z) by apply Z.log2_nonneg.
  assert (Hpq : p # q == inject_Z p / inject_Z (Z.pos q)) by apply Qmake_Qdiv.
  assert (Hq0 : 0 < inject_Z (Z.pos q)) by (unfold Qlt; simpl; lia).
  assert (HA1 : 2 ^ a <= inject_Z p).
  { rewrite pow2_int by lia. rewrite <- Zle_Qle. exact Ha1. }
  assert (HA2 : inject_Z p < 2 ^ (a + 1)).
  { rewrite pow2_int by lia. rewrite <- Zlt_Qlt.
    replace (a + 1)%Z with (Z.succ a) by lia. exact Ha2. }
  assert (HB1 : 2 ^ b <= inject_Z (Z.pos q)).
  { rewrite pow2_int by lia. rewrite <- Zle_Qle. exact Hb1. }
  assert (HB2 : inject_Z (Z.pos q) < 2 ^ (b + 1)).
  { rewrite pow2_int by lia. rewrite <- Zlt_Qlt.
    replace (b + 1)%Z with (Z.succ b) by lia. exact Hb2. }
  assert (Hlow : 2 ^ (a - b - 1) < p # q).
  { rewrite Hpq. apply Qlt_shift_div_l; [exact Hq0|].
    assert (E : 2 ^ a == 2 ^ (a - b - 1) * 2 ^ (b + 1)).
    { rewrite <- pow2_plus. replace (a - b - 1 + (b + 1))%Z with a by lia. reflexivity. }
    pose proof (pow2_pos (a - b - 1)). nra. }
  assert (Hhigh : p # q < 2 ^ (a - b + 1)).
  { rewrite Hpq. apply Qlt_shift_div_r; [exact Hq0|].
    assert (E : 2 ^ (a + 1) == 2 ^ (a - b + 1) * 2 ^ b).
    { rewrite <- pow2_plus. replace (a - b + 1 + b)%Z with (a + 1)%Z by lia. reflexivity. }
    pose proof (pow2_pos (a - b + 1)). nra. }
  destruct (Qle_bool (2 ^ (a - b)) (p # q)) eqn:E.
  - apply Qle_bool_iff in E. split; assumption.
  - split.
    + apply Qlt_le_weak. exact Hlow.
    + replace (a - b - 1 + 1)%Z with (a - b)%Z by lia.
      apply Qnot_le_lt. intros Hle. apply Qle_bool_iff in Hle. congruence.
Qed.

Lemma round_half_even_cases (m : Q) :
  Binary64.round_half_even m = Qfloor m /\ m - inject_Z (Qfloor m) <= 1 # 2
  \/ Binary64.round_half_even m = (Qfloor m + 1)%Z /\ 1 # 2 <= m - inject_Z (Qfloor m).
Proof.
  unfold Binary64.round_half_even.
  destruct (Qcompare_spec (m - inject_Z (Qfloor m)) (1 # 2)) as [E|E|E].
  - destruct (Z.even (Qfloor m)); [left|right]; split; try reflexivity; rewrite E; lra.
  - left. split; [reflexivity|lra].
  - right. split; [reflexivity|lra].
Qed.

Lemma round_half_even_near (m : Q) :
  Qabs (inject_Z (Binary64.round_half_even m) - m) <= 1 # 2.
Proof.
  pose proof (Qfloor_le m) as Hlo. pose proof (Qlt_floor m) as Hhi.
  rewrite inject_Z_plus in Hhi. change (inject_Z 1) with 1 in Hhi.
  apply Qabs_Qle_condition.
  destruct (round_half_even_cases m) as [[-> H]|[-> H]].
  - split; lra.
  - rewrite inject_Z_plus. change (inject_Z 1) with 1. split; lra.
Qed.

Lemma round_half_even_le (m : Q) (k : Z) :
  m <= inject_Z k -> (Binary64.round_half_even m <= k)%Z.
Proof.
  intros Hk.
  pose proof (Qfloor_le m) as Hlo.
  destruct (round_half_even_cases m) as [[-> H]|[-> H]].
  - rewrite Zle_Qle. lra.
  - assert (Hlt : inject_Z (Qfloor m) < inject_Z k) by lra.
    rewrite <- Zlt_Qlt in Hlt. lia.
Qed.

Lemma round_half_even_ge (m : Q) (k : Z) :
  inject_Z k <= m -> (k <= Binary64.round_half_even m)%Z.
Proof.
  intros Hk.
  assert (Hf : (k <= Qfloor m)%Z).
  { rewrite <- (Qfloor_Z k). now apply Qfloor_resp_le. }
  destruct (round_half_even_cases m) as [[-> H]|[-> H]]; lia.
Qed.

Lemma round_half_even_int (k : Z) : Binary64.round_half_even (inject_Z k) = k.
Proof.
  apply Z.le_antisymm.
  - apply round_half_even_le. lra.
  - apply round_half_even_ge. lra.
Qed.

Lemma round_half_even_comp (m m' : Q) :
  m == m' -> Binary64.round_half_even m = Binary64.round_half_even m'.
Proof.
  intros E. unfold Binary64.round_half_even.
  rewrite (Qfloor_comp _ _ E).
  assert (E' : m - inject_Z (Qfloor m') == m' - inject_Z (Qfloor m'))
    by (rewrite E; reflexivity).
  now rewrite (Qcompare_comp _ _ E' (1 # 2) (1 # 2) (Qeq_refl _)).
Qed.

(** Rounding looks at the value only. *)
Lemma round_Qeq (x y : Q) : x == y -> Binary64.round x = Binary64.round y.
Proof.
  intros E. unfold Binary64.round. now rewrite (Qred_complete _ _ E).
Qed.

Lemma round_0 (x : Q) : x == 0 -> Binary64.round x = Fin 0.
Proof. intros E. rewrite (round_Qeq _ _ E). reflexivity. Qed.

(** The last place of the float64 numbers of magnitude at most 1. *)
Lemma quantum_unit (x : Q) :
  ~ x == 0 -> Qabs x <= 1 ->
  (-1074 <= Binary64.quantum x <= -52)%Z
  /\ (2 ^ (-1022) <= Qabs x -> 2 ^ (Binary64.quantum x + 52) <= Qabs x).
Proof.
  intros Hnz H1.
  assert (Ha : 0 < Qabs x).
  { pose proof (Qabs_nonneg x) as H. apply Qle_lteq in H. destruct H as [H|H]; [exact H|].
    exfalso. apply Hnz. symmetry in H. revert H. apply Qabs_case; intros; lra. }
  destruct (ilog2_spec (Qabs x) Ha) as [Hlo Hhi].
  assert (HL : (Binary64.ilog2 (Qabs x) <= 0)%Z).
  { apply pow2_le_inv. change (2 ^ 0) with 1. lra. }
  unfold Binary64.quantum. split; [lia|].
  intros Hnorm.
  assert (HL' : (-1022 <= Binary64.ilog2 (Qabs x))%Z).
  { assert (H : 2 ^ (-1022) < 2 ^ (Binary64.ilog2 (Qabs x) + 1)) by lra.
    apply pow2_lt_inv in H. lia. }
  rewrite Z.max_l by lia.
  replace (Binary64.ilog2 (Qabs x) - 52 + 52)%Z with (Binary64.ilog2 (Qabs x)) by lia.
  exact Hlo.
Qed.

Lemma Qabs_pos_cases (x : Q) :
  (0 < x /\ Qabs x == x) \/ (x <= 0 /\ Qabs x == - x).
Proof.
  destruct (Qlt_le_dec 0 x) as [H|H].
  - left. split; [exact H|]. apply Qabs_pos. lra.
  - right. split; [exact H|]. apply Qabs_neg. exact H.
Qed.

(** Rounding a number of magnitude at most 1: the result is finite, within
    [2 ^ -53] of the number (within [2 ^ -53] of it in relative terms when
    the number is in the normal range), of its sign, and of magnitude at
    most 1. *)
Lemma round_unit (x : Q) :
  Qabs x <= 1 ->
  exists q, Binary64.round x = Fin q
    /\ Qabs (q - x) <= 2 ^ (-53)
    /\ (2 ^ (-1022) <= Qabs x -> Qabs (q - x) <= 2 ^ (-53) * Qabs x)
    /\ Qabs q <= 1
    /\ (0 <= x -> 0 <= q)
    /\ (x <= 0 -> q <= 0).
Proof.
  intros H1.
  assert (P53 : 2 ^ (-53) == 1 # 9007199254740992) by reflexivity.
  destruct (Qeq_dec x 0) as [Hz|Hnz].
  { exists 0. rewrite (round_0 x Hz). split; [reflexivity|].
    assert (Hq : Qabs (0 - x) == 0) by (rewrite Hz; reflexivity).
    split; [rewrite Hq, P53; unfold Qle; simpl; lia|].
    split; [intros _; rewrite Hq, Hz, P53; unfold Qle; simpl; lia|].
    split; [unfold Qle; simpl; lia|].
    split; intros; lra. }
  unfold Binary64.round.
  pose proof (Qred_correct x) as Hred.
  set (x' := Qred x) in *.
  assert (Hnz' : ~ x' == 0) by (rewrite Hred; exact Hnz).
  rewrite (Qeq_bool_false x' 0 Hnz').
  assert (H1' : Qabs x' <= 1) by (rewrite Hred; exact H1).
  destruct (quantum_unit x' Hnz' H1') as [[He1 He2] Hnorm].
  set (e := Binary64.quantum x') in *.
  set (a := Qabs x') in *.
  set (m := a / 2 ^ e).
  set (n := Binary64.round_half_even m).
  pose proof (pow2_pos e) as Hpe.
  assert (Ha : 0 <= a) by apply Qabs_nonneg.
  assert (Hm : m * 2 ^ e == a) by (unfold m; field; lra).
  pose proof (round_half_even_near m) as Hnear. fold n in Hnear.
  apply Qabs_Qle_condition in Hnear.
  assert (Hm0 : 0 <= m).
  { unfold m. apply Qle_shift_div_l; [exact Hpe|lra]. }
  assert (Hn0 : (0 <= n)%Z) by (apply round_half_even_ge; exact Hm0).
  assert (Hinv : 2 ^ e * inject_Z (2 ^ (- e)) == 1).
  { rewrite <- pow2_int by lia. rewrite <- pow2_plus.
    replace (e + - e)%Z with 0%Z by lia. reflexivity. }
  assert (Hm1 : m <= inject_Z (2 ^ (- e))).
  { unfold m. apply Qle_shift_div_r; [exact Hpe|]. nra. }
  assert (Hn1 : (n <= 2 ^ (- e))%Z) by (apply round_half_even_le; exact Hm1).
  rewrite Zle_Qle in Hn0, Hn1. change (inject_Z 0) with 0 in Hn0.
  set (r := inject_Z n * 2 ^ e).
  assert (Hr0 : 0 <= r) by (unfold r; nra).
  assert (Hr1 : r <= 1) by (unfold r; nra).
  assert (Hbig : 1 < 2 ^ 1024) by (apply Qpower_1_lt; [reflexivity|lia]).
  assert (Hov : Qle_bool (2 ^ 1024) r = false).
  { destruct (Qle_bool (2 ^ 1024) r) eqn:E; [|reflexivity].
    apply Qle_bool_iff in E. lra. }
  rewrite Hov.
  assert (He53 : 2 ^ e <= 2 * 2 ^ (-53)).
  { assert (E : 2 * 2 ^ (-53) == 2 ^ (-52)) by reflexivity. rewrite E. apply pow2_le. lia. }
  assert (Herr : - 2 ^ (-53) <= r - a <= 2 ^ (-53)).
  { unfold r. rewrite <- Hm. split; nra. }
  assert (Hrel : 2 ^ (-1022) <= a -> - (2 ^ (-53) * a) <= r - a <= 2 ^ (-53) * a).
  { intros Hn. specialize (Hnorm Hn).
    assert (E : 2 ^ (e + 52) == 2 ^ e * 2 ^ 52) by apply pow2_plus.
    assert (E2 : 2 ^ 52 * (2 * 2 ^ (-53)) == 1) by reflexivity.
    rewrite E in Hnorm.
    assert (Hh : 2 ^ e <= 2 * (2 ^ (-53) * a)).
    { pose proof (pow2_pos 52). pose proof (pow2_pos (-53)). nra. }
    unfold r. rewrite <- Hm at 1 3. rewrite Hm. split; nra. }
  destruct (Qabs_pos_cases x') as [[Hpos Hxa]|[Hneg Hxa]]; fold a in Hxa.
  - assert (Hlt : Qltb 0 x' = true) by (apply Qltb_lt; exact Hpos).
    rewrite Hlt. exists (Qred r).
    split; [reflexivity|]. rewrite Qred_correct.
    assert (Hx : x == a) by (rewrite <- Hred; symmetry; exact Hxa).
    assert (Hax : Qabs x == a) by (rewrite <- Hred; reflexivity).
    rewrite Hax, Hx.
    split; [apply Qabs_Qle_condition; lra|].
    split; [intros Hn; apply Qabs_Qle_condition; apply Hrel in Hn; lra|].
    split; [apply Qabs_Qle_condition; lra|].
    split; intros; lra.
  - assert (Hlt : Qltb 0 x' = false) by (apply Qltb_ge; exact Hneg).
    rewrite Hlt. exists (Qred (- r)).
    split; [reflexivity|]. rewrite Qred_correct.
    assert (Hx : x == - a) by (rewrite <- Hred, Hxa; ring).
    assert (Hax : Qabs x == a) by (rewrite <- Hred; reflexivity).
    rewrite Hax, Hx.
    split; [apply Qabs_Qle_condition; lra|].
    split; [intros Hn; apply Qabs_Qle_condition; apply Hrel in Hn; lra|].
    split; [apply Qabs_Qle_condition; lra|].
    split; intros; lra.
Qed.

(** The integers up to [2 ^ 53] are float64 numbers. *)
Lemma of_int_exact (z : Z) :
  (0 <= z <= 2 ^ 53)%Z -> exists q, Binary64.of_int z = Fin q /\ q == inject_Z z.
Proof.
  intros [Hz0 Hz53]. unfold Binary64.of_int.
  destruct (Z.eq_dec z 0%Z) as [->|Hnz].
  { exists 0. split; reflexivity. }
  assert (Hzpos : (0 < z)%Z) by lia.
  unfold Binary64.round.
  pose proof (Qred_correct (inject_Z z)) as Hred.
  set (x' := Qred (inject_Z z)) in *.
  assert (Hxpos : 0 < x') by (rewrite Hred; unfold Qlt; simpl; lia).
  assert (Hnz' : ~ x' == 0) by lra.
  rewrite (Qeq_bool_false x' 0 Hnz').
  assert (Hlt : Qltb 0 x' = true) by (apply Qltb_lt; exact Hxpos).
  rewrite Hlt.
  assert (Habs : Qabs x' == inject_Z z) by (rewrite Qabs_pos; [exact Hred|lra]).
  assert (Ha : 0 < Qabs x') by (rewrite Habs, <- Hred; exact Hxpos).
  destruct (ilog2_spec (Qabs x') Ha) as [Hlo Hhi].
  unfold Binary64.quantum.
  set (L := Binary64.ilog2 (Qabs x')) in *.
  assert (HL0 : (0 <= L)%Z).
  { assert (H : 2 ^ 0 < 2 ^ (L + 1)).
    { change (2 ^ 0) with 1. rewrite Habs in Hhi.
      assert (1 <= inject_Z z) by (change 1 with (inject_Z 1); rewrite <- Zle_Qle; lia).
      lra. }
    apply pow2_lt_inv in H. lia. }
  assert (HL53 : (L <= 53)%Z).
  { apply pow2_le_inv. rewrite Habs in Hlo.
    assert (inject_Z z <= 2 ^ 53).
    { rewrite (pow2_int 53) by lia. rewrite <- Zle_Qle. exact Hz53. }
    lra. }
  rewrite Z.max_l by lia.
  set (e := (L - 52)%Z).
  pose proof (pow2_pos e) as Hpe.
  assert (Hk : exists k : Z, inject_Z k * 2 ^ e == inject_Z z).
  { destruct (Z.eq_dec L 53%Z) as [HL|HL].
    - assert (Hz : z = (2 ^ 53)%Z).
      { rewrite HL, Habs, (pow2_int 53) in Hlo by lia. rewrite <- Zle_Qle in Hlo. lia. }
      exists (2 ^ 52)%Z. unfold e. rewrite HL, Hz. reflexivity.
    - exists (z * 2 ^ (- e))%Z. rewrite inject_Z_mult.
      rewrite <- (pow2_int (- e)) by (unfold e; lia).
      rewrite <- Qmult_assoc, <- pow2_plus.
      replace (- e + e)%Z with 0%Z by lia. change (2 ^ 0) with 1. ring. }
  destruct Hk as (k & Hk).
  assert (Hm : Qabs x' / 2 ^ e == inject_Z k).
  { rewrite Habs, <- Hk. field. lra. }
  rewrite (round_half_even_comp _ _ Hm), round_half_even_int.
  assert (Hov : Qle_bool (2 ^ 1024) (inject_Z k * 2 ^ e) = false).
  { destruct (Qle_bool (2 ^ 1024) (inject_Z k * 2 ^ e)) eqn:E; [|reflexivity].
    apply Qle_bool_iff in E. rewrite Hk in E.
    assert (inject_Z z <= 2 ^ 53).
    { rewrite (pow2_int 53) by lia. rewrite <- Zle_Qle. exact Hz53. }
    assert (2 ^ 53 < 2 ^ 1024) by (apply pow2_lt; lia). lra. }
  rewrite Hov. eexists. split; [reflexivity|]. rewrite Qred_correct. exact Hk.
Qed.

Lemma is_float64_round (t : Q) :
  Binary64.is_float64 t = true -> exists q, Binary64.round t = Fin q /\ q == t.
Proof.
  unfold Binary64.is_float64. destruct (Binary64.round t) as [q| | |]; try discriminate.
  intros E. apply Qeq_bool_iff in E. eauto.
Qed.

(** On sample operands [Binary64] computes what the kernel's float64
    computes, underflow and overflow included. *)
Lemma binary64_agrees_with_hardware :
  Hardware.agrees_on_operands PrimFloat.add Binary64.add = true
  /\ Hardware.agrees_on_operands PrimFloat.sub Binary64.sub = true
  /\ Hardware.agrees_on_operands PrimFloat.mul Binary64.mul = true
  /\ Hardware.agrees_on_operands PrimFloat.div Binary64.div = true.
Proof. split; [|split; [|split]]; vm_compute; reflexivity. Qed.

(** ** The threshold schedule in float64 *)

Lemma linspace64_last (start stop : fval) (num : nat) :
  (2 <= num)%nat -> nth_error (Binary64.linspace start stop num) (num - 1) = Some stop.
Proof.
  intros Hn. unfold Binary64.linspace.
  assert (E : (1 <? num)%nat = true) by (apply Nat.ltb_lt; lia).
  rewrite E.
  rewrite nth_error_app2; rewrite length_firstn, length_map, length_seq.
  - replace (num - 1 - Nat.min (num - 1) num)%nat with 0%nat by lia. reflexivity.
  - lia.
Qed.

Lemma linspace64_inner (start stop : fval) (num i : nat) :
  (i < num - 1)%nat ->
  nth_error (Binary64.linspace start stop num) i
  = Some (let step := Binary64.div (Binary64.sub stop start)
                                   (Binary64.of_int (Z.of_nat (num - 1))) in
          if Binary64.is_zero step
          then Binary64.add
                 (Binary64.mul
                    (Binary64.div (Binary64.of_int (Z.of_nat i))
                                  (Binary64.of_int (Z.of_nat (num - 1))))
                    (Binary64.sub stop start)) start
          else Binary64.add (Binary64.mul (Binary64.of_int (Z.of_nat i)) step) start).
Proof.
  intros Hi. unfold Binary64.linspace.
  assert (E : (1 <? num)%nat = true) by (apply Nat.ltb_lt; lia).
  assert (E' : (0 <? Z.of_nat (num - 1))%Z = true) by (apply Z.ltb_lt; lia).
  rewrite E, E'.
  rewrite nth_error_app1 by (rewrite length_firstn, length_map, length_seq; lia).
  rewrite nth_error_firstn.
  assert (Hlt : (i <? num - 1)%nat = true) by (apply Nat.ltb_lt; lia).
  rewrite Hlt.
  rewrite nth_error_map, nth_error_seq.
  assert (Hlt' : (i <? num)%nat = true) by (apply Nat.ltb_lt; lia).
  rewrite Hlt'. reflexivity.
Qed.

(** The factor [np.linspace(1, 0, num)[i]] in float64: between 0 and 1,
    within [3 * 2 ^ -53] of [1 - i / (num - 1)], exactly 1 at [i = 0]. *)
Lemma linspace64_1_0_inner (num i : nat) :
  (2 <= num)%nat -> (Z.of_nat num - 1 <= 2 ^ 53)%Z -> (i < num - 1)%nat ->
  exists y, nth_error (Binary64.linspace (Fin 1) (Fin 0) num) i = Some (Fin y)
    /\ 0 <= y <= 1
    /\ Qabs (y - (1 - inject_Z (Z.of_nat i) / inject_Z (Z.of_nat (num - 1))))
       <= 3 * 2 ^ (-53)
    /\ (i = 0%nat -> y == 1).
Proof.
  intros Hn Hbig Hi.
  rewrite linspace64_inner by exact Hi.
  set (D := Z.of_nat (num - 1)).
  assert (HD : (1 <= D <= 2 ^ 53)%Z) by (unfold D; lia).
  assert (HI : (0 <= Z.of_nat i <= D - 1)%Z) by (unfold D; lia).
  assert (P53 : 2 ^ (-53) == 1 # 9007199254740992) by reflexivity.
  assert (P1022 : 2 ^ (-1022) <= 2 ^ (-53)) by (apply pow2_le; lia).
  assert (HDq : 1 <= inject_Z D <= 2 ^ 53).
  { rewrite (pow2_int 53) by lia. change 1 with (inject_Z 1).
    rewrite <- !Zle_Qle. exact HD. }
  assert (HIq : 0 <= inject_Z (Z.of_nat i) <= inject_Z D - 1).
  { change 0 with (inject_Z 0). change 1 with (inject_Z 1).
    unfold Qminus. rewrite <- inject_Z_opp, <- inject_Z_plus, <- !Zle_Qle. lia. }
  set (d := inject_Z D) in *. set (k := inject_Z (Z.of_nat i)) in *.
  assert (P53' : 2 ^ 53 * 2 ^ (-53) == 1) by reflexivity.
  assert (Hinv : 2 ^ (-53) <= 1 / d <= 1).
  { split.
    - apply Qle_shift_div_l; [lra|]. pose proof (pow2_pos (-53)). nra.
    - apply Qle_shift_div_r; lra. }
  change (Binary64.sub (Fin 0) (Fin 1)) with (Fin (-1)).
  destruct (of_int_exact D ltac:(lia)) as (dq & -> & Hdq). fold d in Hdq.
  assert (Hdnz : ~ dq == 0) by (rewrite Hdq; lra).
  assert (Hstep : exists s, Binary64.div (Fin (-1)) (Fin dq) = Fin s
                   /\ Qabs (s - (- (1 / d))) <= 2 ^ (-53) * (1 / d)
                   /\ s <= 0 /\ - 1 <= s).
  { unfold Binary64.div. cbn [fdiv]. rewrite (Qeq_bool_false dq 0 Hdnz).
    cbn [Binary64.rounded].
    assert (E : Qred (-1 / dq) == - (1 / d)).
    { rewrite Qred_correct, Hdq. field. lra. }
    rewrite (round_Qeq _ _ E).
    assert (Habs : Qabs (- (1 / d)) == 1 / d).
    { rewrite Qabs_opp. apply Qabs_pos. lra. }
    destruct (round_unit (- (1 / d))) as (s & Hs & _ & Hrel & Hs1 & _ & Hneg).
    { rewrite Habs. lra. }
    exists s. split; [exact Hs|].
    rewrite Habs in Hrel.
    split; [apply Hrel; lra|].
    split; [apply Hneg; lra|].
    apply Qabs_Qle_condition in Hs1. lra. }
  destruct Hstep as (s & -> & Hserr & Hs0 & Hs1).
  apply Qabs_Qle_condition in Hserr.
  assert (Hsnz : ~ s == 0).
  { intros Hz. rewrite Hz in Hserr. pose proof (pow2_pos (-53)).
    assert (2 ^ (-53) < 1) by (rewrite P53; reflexivity). nra. }
  cbn [Binary64.is_zero]. rewrite (Qeq_bool_false s 0 Hsnz).
  destruct (of_int_exact (Z.of_nat i) ltac:(lia)) as (kq & -> & Hkq). fold k in Hkq.
  assert (Hfrac : 0 <= k / d <= 1 - 1 / d).
  { split.
    - apply Qle_shift_div_l; [lra|lra].
    - assert (E : 1 - 1 / d == (d - 1) / d) by (field; lra). rewrite E.
      unfold Qdiv. apply Qmult_le_compat_r; [lra|].
      apply Qlt_le_weak, Qinv_lt_0_compat. lra. }
  assert (Hkd : k / d == k * (1 / d)) by (field; lra).
  assert (Hks : - 1 <= k * s <= 0).
  { split; [|nra].
    assert (Hb : - s <= (1 / d) * (1 + 2 ^ (-53))) by lra.
    assert (Hk1 : k * (- s) <= k * ((1 / d) * (1 + 2 ^ (-53)))).
    { assert (0 <= k) by lra. nra. }
    assert (Hk2 : k * ((1 / d) * (1 + 2 ^ (-53))) <= (1 - 1 / d) * (1 + 2 ^ (-53))).
    { rewrite Qmult_assoc, <- Hkd. apply Qmult_le_compat_r; [lra|].
      pose proof (pow2_pos (-53)). lra. }
    pose proof (pow2_pos (-53)). nra. }
  assert (Hprod : exists p, Binary64.mul (Fin kq) (Fin s) = Fin p
                   /\ Binary64.round (k * s) = Fin p
                   /\ Qabs (p - k * s) <= 2 ^ (-53) /\ - 1 <= p <= 0).
  { unfold Binary64.mul. cbn [fmul Binary64.rounded].
    assert (E : Qred (kq * s) == k * s) by (rewrite Qred_correct, Hkq; reflexivity).
    rewrite (round_Qeq _ _ E).
    destruct (round_unit (k * s)) as (p & Hp & Hperr & _ & Hp1 & _ & Hneg).
    { apply Qabs_Qle_condition. lra. }
    exists p. split; [exact Hp|]. split; [exact Hp|]. split; [exact Hperr|].
    apply Qabs_Qle_condition in Hp1. split; [lra|apply Hneg; lra]. }
  destruct Hprod as (p & -> & Hpeq & Hperr & Hp).
  apply Qabs_Qle_condition in Hperr.
  unfold Binary64.add. cbn [fadd Binary64.rounded].
  assert (E : Qred (p + 1) == p + 1) by apply Qred_correct.
  rewrite (round_Qeq _ _ E).
  destruct (round_unit (p + 1)) as (y & Hy & Hyerr & _ & Hy1 & Hy0 & _).
  { apply Qabs_Qle_condition. lra. }
  apply Qabs_Qle_condition in Hyerr, Hy1.
  exists y. split; [rewrite Hy; reflexivity|].
  split; [split; [apply Hy0; lra|lra]|].
  split.
  - apply Qabs_Qle_condition. rewrite Hkd.
    assert (Hks' : - (2 ^ (-53)) <= k * s - k * (- (1 / d)) <= 2 ^ (-53)).
    { assert (Hk0 : 0 <= k) by lra.
      assert (Hkd1 : k * (1 / d) <= 1) by (rewrite <- Hkd; lra).
      assert (Hkd0 : 0 <= k * (1 / d)) by (rewrite <- Hkd; lra).
      pose proof (pow2_pos (-53)).
      split; nra. }
    split; lra.
  - intros ->.
    assert (Hk0 : k * s == 0) by (unfold k; change (inject_Z (Z.of_nat 0)) with 0; ring).
    rewrite (round_0 _ Hk0) in Hpeq. injection Hpeq as <-.
    assert (E1 : 0 + 1 == 1) by ring.
    rewrite (round_Qeq _ _ E1) in Hy.
    change (Binary64.round 1) with (Fin 1) in Hy.
    injection Hy as <-. reflexivity.
Qed.

(** The quantile level of iteration [i] as float64 arithmetic gives it. *)
Lemma certainty_threshold_pct_rounded (t : Q) (n_iter : Z) (i : nat) :
  0 <= t <= 1 -> Binary64.is_float64 t = true ->
  (2 <= n_iter <= 2 ^ 53)%Z -> (Z.of_nat i < n_iter)%Z ->
  exists level,
    Binary64.certainty_threshold_pct t n_iter i = Ok (Fin level)
    /\ 0 <= level <= 1
    /\ Qabs (level - spec_threshold t n_iter i) <= 2 ^ (-51)
    /\ (i = 0%nat -> level == t)
    /\ (Z.of_nat i = (n_iter - 1)%Z -> level == 0).
Proof.
  intros [Ht0 Ht1] Hfl [Hn Hbig] Hi.
  assert (P51 : 4 * 2 ^ (-53) == 2 ^ (-51)) by reflexivity.
  pose proof (pow2_pos (-53)) as P53.
  assert (Hd : ~ inject_Z (n_iter - 1) == 0) by (unfold Qeq; simpl; lia).
  unfold Binary64.certainty_threshold_pct, getitem.
  destruct (Nat.eq_dec i (Z.to_nat n_iter - 1)%nat) as [->|Hne].
  - rewrite linspace64_last by lia. cbn [mbind result_bind mret result_ret].
    assert (E : Binary64.mul (Fin t) (Fin 0) = Fin 0).
    { unfold Binary64.mul. cbn [fmul Binary64.rounded]. apply round_0.
      rewrite Qred_correct. ring. }
    rewrite E. clear E. exists 0. split; [reflexivity|]. split; [lra|].
    assert (Hs : spec_threshold t n_iter (Z.to_nat n_iter - 1) == 0).
    { unfold spec_threshold.
      replace (Z.of_nat (Z.to_nat n_iter - 1)) with (n_iter - 1)%Z by lia.
      field. exact Hd. }
    split; [|split; [intros H0; exfalso; lia|intros _; reflexivity]].
    rewrite Hs. apply Qabs_Qle_condition. rewrite <- P51. split; lra.
  - destruct (linspace64_1_0_inner (Z.to_nat n_iter) i) as (y & Hy & Hy01 & Hyerr & Hy1);
      [lia|lia|lia|].
    rewrite Hy. cbn [mbind result_bind mret result_ret].
    unfold Binary64.mul. cbn [fmul Binary64.rounded].
    assert (E : Qred (t * y) == t * y) by apply Qred_correct.
    rewrite (round_Qeq _ _ E).
    assert (Hty : 0 <= t * y <= 1) by nra.
    destruct (round_unit (t * y)) as (level & Hl & Hlerr & _ & Hl1 & Hl0 & _).
    { apply Qabs_Qle_condition. lra. }
    apply Qabs_Qle_condition in Hlerr, Hl1, Hyerr.
    exists level. split; [rewrite Hl; reflexivity|].
    split; [split; [apply Hl0; lra|lra]|].
    split; [|split].
    + unfold spec_threshold.
      replace (inject_Z (n_iter - 1)) with (inject_Z (Z.of_nat (Z.to_nat n_iter - 1)))
        by (f_equal; lia).
      set (f := 1 - inject_Z (Z.of_nat i) / inject_Z (Z.of_nat (Z.to_nat n_iter - 1))) in *.
      apply Qabs_Qle_condition. rewrite <- P51. split; nra.
    + intros Hi0. specialize (Hy1 Hi0).
      destruct (is_float64_round t Hfl) as (q & Hq & Hqt).
      assert (E1 : t * y == t) by (rewrite Hy1; ring).
      rewrite (round_Qeq _ _ E1), Hq in Hl. injection Hl as <-. exact Hqt.
    + intros Hlast. exfalso. lia.
Qed.

(** A cell is in a mask exactly when its confidence is above the threshold. *)
Lemma gt_threshold_bits (thr : option Q) (absdif : list Q) (k : nat) (a : Q) :
  absdif !! k = Some a ->
  (map (gt_threshold thr) absdif !! k = Some true <-> exists q, thr = Some q /\ q < a).
Proof.
  intros Ha.
  assert (E : map (gt_threshold thr) absdif !! k = Some (gt_threshold thr a)).
  { transitivity (gt_threshold thr <$> absdif !! k); [apply list_lookup_fmap|].
    now rewrite Ha. }
  rewrite E. destruct thr as [q|]; cbn [gt_threshold].
  - split.
    + intros [= Hq]. exists q. split; [reflexivity|]. now apply Qltb_lt.
    + intros (q' & [= <-] & Hq). f_equal. now apply Qltb_lt.
  - split; [discriminate|]. intros (q & Hq & _). discriminate.
Qed.

(** C7 (as the code has it).  The quantile level of iteration [i] is the
    float64 product of the threshold with [np.linspace(1, 0, n_iter)[i]].
    Evaluated exactly that product is [tau * (1 - i / (n_iter - 1))]; as
    float64 computes it, for a float64 threshold in [0, 1] and a budget of
    2 to [2 ^ 53], it lies in [0, 1] within [2 ^ -51] of that value, and is
    [tau] itself at iteration 0 and 0 at the last iteration.  The mask of
    iteration [i] holds the cells whose confidence is strictly above the
    threshold that the quantile function returns for the computed level,
    whatever that function is; and when the quantile function raises, so
    does the iteration. *)
Theorem threshold_schedule_linear (Series_quantile : list Q -> Q -> result (option Q))
  (absdif : list Q) (t : Q) (n_iter : Z) (i : nat) :
  0 <= t <= 1 -> Binary64.is_float64 t = true ->
  (2 <= n_iter <= 2 ^ 53)%Z -> (Z.of_nat i < n_iter)%Z ->
  exists t_i level,
    certainty_threshold_pct t n_iter i = Ok t_i
    /\ t_i == spec_threshold t n_iter i
    /\ Binary64.certainty_threshold_pct t n_iter i = Ok (Fin level)
    /\ Qabs (level - spec_threshold t n_iter i) <= 2 ^ (-51)
    /\ 0 <= level <= 1
    /\ (i = 0%nat -> level == t)
    /\ (Z.of_nat i = (n_iter - 1)%Z -> level == 0)
    /\ (forall thr,
          Series_quantile absdif level = Ok thr ->
          exists ci,
            Binary64.certain_at Series_quantile absdif t n_iter i = Ok ci
            /\ length ci = length absdif
            /\ forall k a, absdif !! k = Some a ->
                 (ci !! k = Some true <-> exists q, thr = Some q /\ q < a))
    /\ (forall e,
          Series_quantile absdif level = Raise e ->
          Binary64.certain_at Series_quantile absdif t n_iter i = Raise e).
Proof.
  intros [Ht0 Ht1] Hfl [Hn Hbig] Hi.
  destruct (certainty_threshold_pct_spec t n_iter i Hn Hi) as (t_i & Ei & Heq).
  destruct (certainty_threshold_pct_rounded t n_iter i (conj Ht0 Ht1) Hfl (conj Hn Hbig) Hi)
    as (level & El & Hl01 & Hlerr & Hl0 & Hllast).
  exists t_i, level.
  split; [exact Ei|]. split; [exact Heq|]. split; [exact El|]. split; [exact Hlerr|].
  split; [exact Hl01|]. split; [exact Hl0|]. split; [exact Hllast|].
  split.
  - intros thr Hq. exists (map (gt_threshold thr) absdif).
    split; [|split; [apply length_map|]].
    + unfold Binary64.certain_at. rewrite El. cbn [mbind result_bind].
      rewrite Hq. reflexivity.
    + intros k a Ha. now apply gt_threshold_bits.
  - intros e Hq. unfold Binary64.certain_at. rewrite El. cbn [mbind result_bind].
    rewrite Hq. reflexivity.
Qed.

Section ScheduleExamples.

Import Examples.

(** C6 on the scores of the two example cells, iterations 2 and 3 of 6. *)
Lemma certain_set_grows_witness :
  0 <= 1 # 2 <= 1
  /\ exists c0 cj ci,
       certain_column (absdif_of two_cells) (1 # 2) = Ok c0
       /\ certain_at (absdif_of two_cells) (1 # 2) 6 2 = Ok cj
       /\ certain_at (absdif_of two_cells) (1 # 2) 6 3 = Ok ci
       /\ (forall k : nat, cj !! k = Some true -> ci !! k = Some true)
       /\ (forall k : nat, c0 !! k = Some true -> ci !! k = Some true)
       /\ (2%nat = 0%nat -> forall k : nat, cj !! k = Some true -> c0 !! k = Some true).
Proof.
  assert (Ht : 0 <= 1 # 2 <= 1) by (split; unfold Qle; simpl; lia).
  split; [exact Ht|].
  apply (certain_set_grows (absdif_of two_cells) (1 # 2) 6 2 3 Ht); lia.
Defined.

(** C7, counterexample.  With a threshold of 0.5 and a budget of 6 the
    formula puts the level of iteration 3 at 0.2.  The code computes
    [1 + 3 * (-0.2)] and halves it: 0.19999999999999996
    (0x1.9999999999998p-3), which is not the float64 nearest to 0.2 but
    two steps below it.  On the six confidences 0, 0.125, ..., 0.625 the
    quantile at 0.2 is 0.125, so the mask at the formula's level leaves
    out the cell of confidence 0.125; at the computed level the quantile
    falls just below 0.125 and that cell is in the mask. *)
Lemma schedule_level_rounded :
  exists level ci64 ci,
    Binary64.certainty_threshold_pct (1 # 2) 6 3 = Ok (Fin level)
    /\ level == 900719925474099 # 4503599627370496
    /\ spec_threshold (1 # 2) 6 3 == 2 # 10
    /\ level < 2 # 10
    /\ Binary64.round (2 # 10) <> Fin level
    /\ Binary64.certain_at quantile FurtherExamples.eighths (1 # 2) 6 3 = Ok ci64
    /\ certain_column FurtherExamples.eighths (spec_threshold (1 # 2) 6 3) = Ok ci
    /\ ci64 !! 1%nat = Some true
    /\ ci !! 1%nat = Some false.
Proof.
  do 3 eexists.
  split; [vm_compute; reflexivity|].
  split; [reflexivity|].
  split; [reflexivity|].
  split; [reflexivity|].
  split; [vm_compute; discriminate|].
  split; [vm_compute; reflexivity|].
  split; [vm_compute; reflexivity|].
  split; reflexivity.
Qed.

(** The amended C7 on the scores of the two example cells, iteration 3 of
    6, with the quantile of the model for [Series_quantile]. *)
Lemma threshold_schedule_linear_witness :
  0 <= 1 # 2 <= 1
  /\ Binary64.is_float64 (1 # 2) = true
  /\ exists t_i level,
       certainty_threshold_pct (1 # 2) 6 3 = Ok t_i
       /\ t_i == spec_threshold (1 # 2) 6 3
       /\ Binary64.certainty_threshold_pct (1 # 2) 6 3 = Ok (Fin level)
       /\ Qabs (level - spec_threshold (1 # 2) 6 3) <= 2 ^ (-51)
       /\ 0 <= level <= 1
       /\ (3%nat = 0%nat -> level == 1 # 2)
       /\ (Z.of_nat 3 = (6 - 1)%Z -> level == 0)
       /\ (forall thr,
             quantile (absdif_of two_cells) level = Ok thr ->
             exists ci,
               Binary64.certain_at quantile (absdif_of two_cells) (1 # 2) 6 3 = Ok ci
               /\ length ci = length (absdif_of two_cells)
               /\ forall k a, absdif_of two_cells !! k = Some a ->
                    (ci !! k = Some true <-> exists q, thr = Some q /\ q < a))
       /\ (forall e,
             quantile (absdif_of two_cells) level = Raise e ->
             Binary64.certain_at quantile (absdif_of two_cells) (1 # 2) 6 3 = Raise e).
Proof.
  assert (Ht : 0 <= 1 # 2 <= 1) by (split; unfold Qle; simpl; lia).
  split; [exact Ht|]. split; [reflexivity|].
  apply (threshold_schedule_linear quantile (absdif_of two_cells) (1 # 2) 6 3 Ht);
    [reflexivity|lia|lia].
Defined.

End ScheduleExamples.

(** ** The renormalize step *)

Lemma row_sum_finite (row : fval * fval) (s : Q) :
  row_sum row = Fin s ->
  exists a b, row = (Fin a, Fin b) /\ s == a + b.
Proof.
  destruct row as [x y]. unfold row_sum. simpl.
  destruct x as [a| | |], y as [b| | |]; simpl; try discriminate.
  intros [= <-]. exists a, b. split; [reflexivity|]. apply Qred_correct.
Qed.


(** A row of sum zero is divided all the same, and none of its entries
    stays finite: [nan] for a zero entry, an infinity otherwise. *)
Lemma zero_sum_row_not_finite (row : fval * fval) (s : Q) :
  row_sum row = Fin s -> s == 0 ->
  is_finite (fdiv (fst row) (row_sum row)) = false
  /\ is_finite (fdiv (snd row) (row_sum row)) = false
  /\ (fst row = Fin 0 -> snd row = Fin 0 ->
      fdiv (fst row) (row_sum row) = NaN /\ fdiv (snd row) (row_sum row) = NaN).
Proof.
  intros Hs Hz.
  destruct (row_sum_finite row s Hs) as (a & b & -> & Hab).
  rewrite Hs. cbn [fst snd fdiv].
  rewrite (Qeq_bool_true s 0 Hz).
  repeat split.
  - destruct (Qeq_bool a 0); [reflexivity|]. now destruct (Qltb 0 a).
  - destruct (Qeq_bool b 0); [reflexivity|]. now destruct (Qltb 0 b).
  - now injection H as ->.
  - now injection H0 as ->.
Qed.

(** Whatever the monitor decides, an iteration leaves its renormalized
    product in the working matrix. *)
Lemma body_proba (absdif : list Q) (conn : list (list Q)) (n_iter : Z) (t : Q)
  (i : nat) (st : lp_state) (c : ctl) (st' : lp_state) :
  body absdif conn n_iter t i st = Ok (c, st') ->
  exists ci lp,
    certain_at absdif t n_iter i = Ok ci
    /\ np_dot conn (mask_step ci (proba_tier_0 st)) = Ok lp
    /\ proba_tier_0 st' = renormalize lp.
Proof.
  unfold body. intros Hb.
  apply bind_Ok in Hb. destruct Hb as ([ci M'] & Hs & Hm).
  apply diffusion_step_Ok in Hs. destruct Hs as (Hc & lp & Hdot & -> & _).
  exists ci, lp. split; [assumption|]. split; [assumption|].
  unfold monitor in Hm.
  apply bind_Ok in Hm. destruct Hm as (stop & _ & Hm).
  destruct stop.
  - now injection Hm as <- <-.
  - apply bind_Ok in Hm. destruct Hm as (msgs & _ & Hm).
    now injection Hm as <- <-.
Qed.


(** The last iteration a run executed, and what it computed. *)
Lemma run_last_step (results : list cell) (conn : list (list Q)) (n_iter : Z)
  (t : Q) (out : lp_output) :
  label_propagation results conn n_iter t = Ok out ->
  (1 <= n_iter)%Z ->
  exists i st ci,
    reaches results conn n_iter t i st
    /\ iterations_run out = S i
    /\ diffusion_step (absdif_of results) conn n_iter t i (proba_tier_0 st)
       = Ok (ci, LR_with_label_propagation_proba out).
Proof.
  intros Hlp Hn.
  destruct (run_Ok_cases _ _ _ _ _ Hlp) as (_ & Hcases).
  destruct Hcases as [(_ & st & Hr & Hcols & Hp & _)
                     | (_ & i & st & ci & M' & _ & Hr & Hb & Hcols & Hp & _)].
  - pose proof (reaches_inv _ _ _ _ _ _ Hr) as Hinv'.
    replace (Z.to_nat n_iter) with (S (Z.to_nat n_iter - 1)) in Hr by lia.
    apply reaches_S in Hr. destruct Hr as (st0 & Hr & Hb).
    pose proof (reaches_inv _ _ _ _ _ _ Hr) as Hinv.
    destruct (body_Continue _ _ _ _ _ _ _ Hinv Hb) as (ci & M' & Hs & _ & Hst).
    exists (Z.to_nat n_iter - 1)%nat, st0, ci.
    split; [exact Hr|]. split.
    + unfold iterations_run.
      rewrite Hcols, <- (length_map fst), (inv_cols _ _ _ _ Hinv'), length_seq. lia.
    + rewrite Hp, Hst. exact Hs.
  - pose proof (reaches_inv _ _ _ _ _ _ Hr) as Hinv.
    destruct (body_Break _ _ _ _ _ _ _ Hinv Hb) as (_ & ci' & M & Hs & _ & Heq).
    apply (f_equal proba_tier_0) in Heq. cbn in Heq. subst M.
    exists i, st, ci'. split; [exact Hr|]. split.
    + unfold iterations_run.
      rewrite Hcols, length_app, <- (length_map fst), (inv_cols _ _ _ _ Hinv), length_seq.
      simpl. lia.
    + rewrite Hp. exact Hs.
Qed.

(** C5 (as the code has it).  No check precedes the division.  On valid
    input a run with a budget other than 1 returns whatever the row sums
    are; in every iteration executed, a row of the product whose sum is
    zero is divided by that sum and stored in the working matrix with no
    finite entry left ([nan] in both columns when the row is all zero); and
    when that iteration is the last one the run executes, the row so stored
    is the row returned. *)
Theorem zero_row_sum_divided_silently (results : list cell) (conn : list (list Q))
  (n_iter : Z) (t : Q) :
  valid_input results conn t ->
  (n_iter <> 1%Z -> exists out, label_propagation results conn n_iter t = Ok out)
  /\ (forall (i : nat) (st : lp_state) (c : ctl) (st' : lp_state),
        body (absdif_of results) conn n_iter t i st = Ok (c, st') ->
        exists ci lp,
          certain_at (absdif_of results) t n_iter i = Ok ci
          /\ np_dot conn (mask_step ci (proba_tier_0 st)) = Ok lp
          /\ forall (r : nat) (row : fval * fval) (s : Q),
               lp !! r = Some row -> row_sum row = Fin s -> s == 0 ->
               exists row', proba_tier_0 st' !! r = Some row'
                 /\ row' = (fdiv (fst row) (Fin s), fdiv (snd row) (Fin s))
                 /\ is_finite (fst row') = false
                 /\ is_finite (snd row') = false
                 /\ (row = (Fin 0, Fin 0) -> row' = (NaN, NaN)))
  /\ (forall out : lp_output,
        label_propagation results conn n_iter t = Ok out -> (1 <= n_iter)%Z ->
        exists i st ci lp,
          reaches results conn n_iter t i st
          /\ iterations_run out = S i
          /\ certain_at (absdif_of results) t n_iter i = Ok ci
          /\ np_dot conn (mask_step ci (proba_tier_0 st)) = Ok lp
          /\ forall (r : nat) (row : fval * fval) (s : Q),
               lp !! r = Some row -> row_sum row = Fin s -> s == 0 ->
               exists row', LR_with_label_propagation_proba out !! r = Some row'
                 /\ row' = (fdiv (fst row) (Fin s), fdiv (snd row) (Fin s))
                 /\ is_finite (fst row') = false
                 /\ is_finite (snd row') = false
                 /\ (row = (Fin 0, Fin 0) -> row' = (NaN, NaN))).
Proof.
  intros Hv.
  assert (Hrow : forall (lp : matrix) (r : nat) (row : fval * fval) (s : Q),
             lp !! r = Some row -> row_sum row = Fin s -> s == 0 ->
             exists row', renormalize lp !! r = Some row'
               /\ row' = (fdiv (fst row) (Fin s), fdiv (snd row) (Fin s))
               /\ is_finite (fst row') = false
               /\ is_finite (snd row') = false
               /\ (row = (Fin 0, Fin 0) -> row' = (NaN, NaN))).
  { intros lp r row s Hr Hs Hz.
    destruct (zero_sum_row_not_finite row s Hs Hz) as (Hf1 & Hf2 & Hnan).
    rewrite Hs in Hf1, Hf2, Hnan.
    exists (fdiv (fst row) (Fin s), fdiv (snd row) (Fin s)).
    split; [|split; [reflexivity|split; [exact Hf1|split; [exact Hf2|]]]].
    + unfold renormalize. unfold matrix in *.
      rewrite (list_lookup_fmap _ lp r), Hr. cbn. now rewrite Hs.
    + intros ->. destruct Hnan as [E1 E2]; [reflexivity|reflexivity|].
      cbn [fst snd] in *. congruence. }
  split; [|split].
  - intros Hn. now apply label_propagation_total.
  - intros i st c st' Hb.
    destruct (body_proba _ _ _ _ _ _ _ _ Hb) as (ci & lp & Hc & Hdot & Hp).
    exists ci, lp. split; [assumption|]. split; [assumption|].
    intros r row s Hr Hs Hz. rewrite Hp. now apply Hrow.
  - intros out Hlp Hn.
    destruct (run_last_step _ _ _ _ _ Hlp Hn) as (i & st & ci & Hr & Hrun & Hs).
    apply diffusion_step_Ok in Hs. destruct Hs as (Hc & lp & Hdot & Hp & _).
    exists i, st, ci, lp. repeat (split; [assumption|]).
    intros r row s Hr' Hs Hz. rewrite Hp. now apply Hrow.
Qed.

Section RenormalizeExamples.

Import Examples.


(** C5, counterexample.  With the first example cell cut off from every
    neighbour, its row of the product has sum zero at iteration 0.  The run
    raises nothing and applies no fallback: it returns, the row is [nan]
    instead of the cell's previous probabilities (0.7, 0.3), and the [nan]
    has spread to the other cell. *)
Lemma zero_row_sum_not_detected :
  exists ci M lp out,
    masked_matrix_at two_cells isolated_graph 3 (1 # 2) 0 = Some (ci, M)
    /\ M !! 0%nat = Some (Fin (7 # 10), Fin (3 # 10))
    /\ np_dot isolated_graph M = Ok lp
    /\ row_sum <$> (lp !! 0%nat) = Some (Fin 0)
    /\ label_propagation two_cells isolated_graph 3 (1 # 2) = Ok out
    /\ LR_with_label_propagation_proba out = [(NaN, NaN); (NaN, NaN)].
Proof.
  do 4 eexists.
  split; [vm_compute; reflexivity|].
  split; [reflexivity|].
  split; [vm_compute; reflexivity|].
  split; [vm_compute; reflexivity|].
  split; [vm_compute; reflexivity|].
  reflexivity.
Qed.

Lemma isolated_valid : valid_input two_cells isolated_graph (1 # 2).
Proof.
  repeat split; try (repeat constructor; fail); unfold Qle; simpl; lia.
Qed.

Lemma cut_off_valid : valid_input two_cells FurtherExamples.cut_off_graph (1 # 2).
Proof.
  repeat split; try (repeat constructor; fail); unfold Qle; simpl; lia.
Qed.

(** The amended C5 on the isolated cells: the run returns; iteration 0
    stores the divided zero-sum row of the first cell when that one is
    isolated; and when the second, less confident cell is the isolated one,
    its row has sum zero in the last iteration too and comes back as
    [nan]s beside the finite row of the first cell. *)
Lemma zero_row_sum_divided_silently_witness :
  valid_input two_cells isolated_graph (1 # 2)
  /\ (exists out, label_propagation two_cells isolated_graph 3 (1 # 2) = Ok out)
  /\ (exists c st',
        body (absdif_of two_cells) isolated_graph 3 (1 # 2) 0 (initial_state two_cells)
        = Ok (c, st')
        /\ exists ci lp,
             certain_at (absdif_of two_cells) (1 # 2) 3 0 = Ok ci
             /\ np_dot isolated_graph
                       (mask_step ci (proba_tier_0 (initial_state two_cells))) = Ok lp
             /\ forall (r : nat) (row : fval * fval) (s : Q),
                  lp !! r = Some row -> row_sum row = Fin s -> s == 0 ->
                  exists row', proba_tier_0 st' !! r = Some row'
                    /\ row' = (fdiv (fst row) (Fin s), fdiv (snd row) (Fin s))
                    /\ is_finite (fst row') = false
                    /\ is_finite (snd row') = false
                    /\ (row = (Fin 0, Fin 0) -> row' = (NaN, NaN)))
  /\ valid_input two_cells FurtherExamples.cut_off_graph (1 # 2)
  /\ exists out,
       label_propagation two_cells FurtherExamples.cut_off_graph 3 (1 # 2) = Ok out
       /\ LR_with_label_propagation_proba out !! 1%nat = Some (NaN, NaN)
       /\ (exists a b, LR_with_label_propagation_proba out !! 0%nat = Some (Fin a, Fin b))
       /\ exists i st ci lp,
            reaches two_cells FurtherExamples.cut_off_graph 3 (1 # 2) i st
            /\ iterations_run out = S i
            /\ certain_at (absdif_of two_cells) (1 # 2) 3 i = Ok ci
            /\ np_dot FurtherExamples.cut_off_graph (mask_step ci (proba_tier_0 st)) = Ok lp
            /\ forall (r : nat) (row : fval * fval) (s : Q),
                 lp !! r = Some row -> row_sum row = Fin s -> s == 0 ->
                 exists row', LR_with_label_propagation_proba out !! r = Some row'
                   /\ row' = (fdiv (fst row) (Fin s), fdiv (snd row) (Fin s))
                   /\ is_finite (fst row') = false
                   /\ is_finite (snd row') = false
                   /\ (row = (Fin 0, Fin 0) -> row' = (NaN, NaN)).
Proof.
  split; [exact isolated_valid|].
  destruct (zero_row_sum_divided_silently two_cells isolated_graph 3 (1 # 2)
              isolated_valid) as (Hret & Hrows & _).
  split; [apply Hret; lia|].
  split.
  { eexists. eexists. split.
    - vm_compute. reflexivity.
    - eapply Hrows. vm_compute. reflexivity. }
  split; [exact cut_off_valid|].
  destruct (zero_row_sum_divided_silently two_cells FurtherExamples.cut_off_graph 3
              (1 # 2) cut_off_valid) as (_ & _ & Hout).
  eexists. split; [vm_compute; reflexivity|].
  split; [reflexivity|].
  split; [do 2 eexists; reflexivity|].
  eapply Hout; [vm_compute; reflexivity|lia].
Defined.

End RenormalizeExamples.

(** ** The mask step *)

Lemma mask_step_lookup (ci : list bool) (M : matrix) (c : nat) (row : fval * fval) :
  mask_step ci M !! c = Some row ->
  exists (b : bool) (r0 : fval * fval),
    ci !! c = Some b /\ M !! c = Some r0
    /\ row = if b then r0 else (Fin epsilon_mask, Fin epsilon_mask).
Proof.
  revert M c. induction ci as [|b ci IH]; intros [|r0 M] [|c]; cbn;
    try discriminate.
  - intros [= <-]. exists b, r0. auto.
  - apply IH.
Qed.

Lemma reached_columns (results : list cell) (conn : list (list Q)) (n_iter : Z)
  (t : Q) (i : nat) (st : lp_state) :
  reaches results conn n_iter t i st ->
  forall j col, In (j, col) (certain_cols st) ->
                certain_at (absdif_of results) t n_iter j = Ok col.
Proof.
  revert st. induction i as [|i IH]; intros st Hr j col Hin.
  - apply reaches_0 in Hr. subst. destruct Hin.
  - apply reaches_S in Hr. destruct Hr as (st0 & Hr & Hb).
    pose proof (reaches_inv _ _ _ _ _ _ Hr) as Hinv.
    destruct (body_Continue _ _ _ _ _ _ _ Hinv Hb) as (ci & M' & Hs & _ & ->).
    unfold after_continue in Hin. cbn [certain_cols] in Hin.
    apply in_app_or in Hin. destruct Hin as [Hin|[[= <- <-]|[]]].
    + eapply IH; eauto.
    + now apply diffusion_step_Ok in Hs.
Qed.

(** C2 (as the code has it).  Only iteration 0 masks the classifier's
    probabilities.  Whenever the loop enters an iteration [i], the working
    matrix is the initial one if [i = 0] and the renormalized product of
    iteration [i - 1] otherwise; the mask step replaces the rows of the
    cells uncertain at iteration [i] by the constant 1e-6 row and keeps the
    rows of the certain cells as that working matrix has them; and the
    renormalized product of the masked matrix is the working matrix the
    next iteration starts from. *)
Theorem mask_applied_to_working_matrix (results : list cell) (conn : list (list Q))
  (n_iter : Z) (t : Q) (i : nat) (st : lp_state) :
  reaches results conn n_iter t i st ->
  (i = 0%nat -> proba_tier_0 st = initial_proba results)
  /\ (forall j, i = S j ->
        exists st_prev cj lp,
          reaches results conn n_iter t j st_prev
          /\ certain_at (absdif_of results) t n_iter j = Ok cj
          /\ np_dot conn (mask_step cj (proba_tier_0 st_prev)) = Ok lp
          /\ proba_tier_0 st = renormalize lp)
  /\ (forall ci c row,
        certain_at (absdif_of results) t n_iter i = Ok ci ->
        mask_step ci (proba_tier_0 st) !! c = Some row ->
        (ci !! c = Some false /\ row = (Fin epsilon_mask, Fin epsilon_mask))
        \/ (ci !! c = Some true /\ proba_tier_0 st !! c = Some row))
  /\ (forall c' st',
        body (absdif_of results) conn n_iter t i st = Ok (c', st') ->
        exists ci lp,
          certain_at (absdif_of results) t n_iter i = Ok ci
          /\ np_dot conn (mask_step ci (proba_tier_0 st)) = Ok lp
          /\ proba_tier_0 st' = renormalize lp).
Proof.
  intros Hr. split; [|split; [|split]].
  - intros ->. apply reaches_0 in Hr. now subst.
  - intros j ->. apply reaches_S in Hr. destruct Hr as (st0 & Hr & Hb).
    destruct (body_proba _ _ _ _ _ _ _ _ Hb) as (cj & lp & Hc & Hdot & Hp).
    exists st0, cj, lp. auto.
  - intros ci c row _ Hrow.
    destruct (mask_step_lookup _ _ _ _ Hrow) as (b & r0 & Hb & Hr0 & ->).
    destruct b; [right|left]; auto.
  - intros c' st' Hb. now apply (body_proba _ _ _ _ _ _ _ _ Hb).
Qed.


Section MaskExamples.

Import Examples.

(** C2, counterexample.  At iteration 1 of the run on the two example
    cells the first cell is certain, and its row in the masked matrix is
    the renormalized product of iteration 0, not the classifier's (0.7, 0.3). *)
Lemma mask_not_from_initial_probabilities :
  exists ci M row,
    masked_matrix_at two_cells full_graph 2 (1 # 2) 1 = Some (ci, M)
    /\ ci !! 0%nat = Some true
    /\ M !! 0%nat = Some row
    /\ initial_proba two_cells !! 0%nat = Some (Fin (7 # 10), Fin (3 # 10))
    /\ ~ feq (fst row) (Fin (7 # 10))
    /\ ~ feq (snd row) (Fin (3 # 10)).
Proof.
  do 3 eexists.
  split; [vm_compute; reflexivity|].
  split; [reflexivity|]. split; [reflexivity|]. split; [reflexivity|].
  split; unfold feq, Qeq; simpl; lia.
Qed.

(** The amended C2 at iteration 1 of the same run. *)
Lemma mask_applied_to_working_matrix_witness :
  exists st,
    reaches two_cells full_graph 2 (1 # 2) 1 st
    /\ (exists st_prev cj lp,
          reaches two_cells full_graph 2 (1 # 2) 0 st_prev
          /\ certain_at (absdif_of two_cells) (1 # 2) 2 0 = Ok cj
          /\ np_dot full_graph (mask_step cj (proba_tier_0 st_prev)) = Ok lp
          /\ proba_tier_0 st = renormalize lp)
    /\ (forall ci c row,
          certain_at (absdif_of two_cells) (1 # 2) 2 1 = Ok ci ->
          mask_step ci (proba_tier_0 st) !! c = Some row ->
          (ci !! c = Some false /\ row = (Fin epsilon_mask, Fin epsilon_mask))
          \/ (ci !! c = Some true /\ proba_tier_0 st !! c = Some row)).
Proof.
  eexists. split.
  - unfold reaches. vm_compute. reflexivity.
  - match goal with
    | |- (exists st_prev cj lp, reaches _ _ _ _ _ _ /\ _ /\ _ /\ proba_tier_0 ?s = _) /\ _ =>
        destruct (mask_applied_to_working_matrix two_cells full_graph 2 (1 # 2) 1 s)
          as (_ & Hprev & Hmask & _)
    end.
    + unfold reaches. vm_compute. reflexivity.
    + split; [apply (Hprev 0%nat eq_refl)|exact Hmask].
Defined.



End MaskExamples.

(** ** [cell_annotator] *)

Lemma traced_bind_Ok {A B : Type} (m : traced A) (f : A -> traced B)
  (tr : list event) (b : B) :
  m ≫= f = (tr, Ok b) ->
  exists tr1 a tr2, m = (tr1, Ok a) /\ f a = (tr2, Ok b) /\ tr = tr1 ++ tr2.
Proof.
  destruct m as [tr1 [a|e]]; cbn; [|discriminate].
  destruct (f a) as [tr2 r] eqn:Ef. intros [= <- ->].
  exists tr1, a, tr2. auto.
Qed.

Lemma lift_Ok {A : Type} (r : result A) (tr : list event) (a : A) :
  lift r = (tr, Ok a) -> tr = [] /\ r = Ok a.
Proof. unfold lift. now intros [= <- ->]. Qed.

Lemma call_Ok {A : Type} (ev : event) (r : result A) (tr : list event) (a : A) :
  call ev r = (tr, Ok a) -> tr = [ev] /\ r = Ok a.
Proof. unfold call. now intros [= <- ->]. Qed.

(** A run with no diffusion iteration returns the classifier's
    probabilities as they are. *)
Lemma label_propagation_no_iteration (results : list cell) (conn : list (list Q))
  (n_iter : Z) (t : Q) :
  0 <= t <= 1 -> (n_iter < 1)%Z ->
  exists out, label_propagation results conn n_iter t = Ok out
    /\ iterations_run out = 0%nat
    /\ LR_with_label_propagation_proba out = initial_proba results
    /\ printed out = []
    /\ loop_exit out = Continue.
Proof.
  intros Ht Hn.
  destruct (certain_column_in_range (absdif_of results) t Ht) as (thr & _ & Hc).
  rewrite label_propagation_unfold, Hc. cbn [mbind result_bind].
  unfold range. replace (Z.to_nat n_iter) with 0%nat by lia.
  cbn. eexists. split; [reflexivity|]. auto.
Qed.

Lemma label_propagation_bad_threshold (results : list cell) (conn : list (list Q))
  (n_iter : Z) (t : Q) :
  t < 0 \/ 1 < t ->
  exists msg, label_propagation results conn n_iter t = Raise (ValueError msg).
Proof.
  intros Ht.
  destruct (quantile_out_of_range (absdif_of results) t Ht) as (msg & Hq).
  exists msg. rewrite label_propagation_unfold. unfold certain_column.
  now rewrite Hq.
Qed.

Lemma mapM_Ok_inv {A B : Type} (f : A -> result B) (l : list A) (ys : list B) :
  mapM f l = Ok ys -> Forall2 (fun x y => f x = Ok y) l ys.
Proof.
  revert ys. induction l as [|x l IH]; intros ys; cbn.
  - intros [= <-]. constructor.
  - destruct (f x) as [y|e] eqn:Ef; cbn; [|discriminate].
    destruct (mapM f l) as [k|e]; cbn; [|discriminate].
    intros [= <-]. constructor; auto.
Qed.

Lemma mapM_Ok_each {A B : Type} (f : A -> result B) (l : list A) (ys : list B) :
  mapM f l = Ok ys -> forall x, In x l -> exists y, f x = Ok y.
Proof.
  intros Hm. apply mapM_Ok_inv in Hm.
  induction Hm as [|x y l ys Hxy _ IH]; intros x0 Hin; [destruct Hin|].
  destruct Hin as [<-|Hin]; eauto.
Qed.

Lemma lift_bind {A B : Type} (r : result A) (f : A -> traced B) :
  lift r ≫= f = match r with
                | Ok a => f a
                | Raise e => ([], Raise e)
                end.
Proof.
  destruct r as [a|e]; cbn; [|reflexivity]. now destruct (f a).
Qed.

(** Selecting columns raises nothing but [KeyError]. *)
Lemma loc_columns_error (df : frame) (X_features : list string) (e : exn) :
  loc_columns df X_features = Raise e -> exists key, e = KeyError key.
Proof.
  unfold loc_columns. induction X_features as [|f fs IH]; cbn; [intros [=]|].
  destruct (getkey (numeric df) f) as [v|e'] eqn:Ef; cbn.
  - destruct (mapM (getkey (numeric df)) fs) as [vs|e''] eqn:E; cbn; [intros [=]|].
    intros [= <-]. now apply IH.
  - intros [= <-]. unfold getkey in Ef. destruct (numeric df !! f); [discriminate|].
    injection Ef as <-. eauto.
Qed.

(** A frame without one of the requested columns cannot be selected from. *)
Lemma loc_columns_missing (df : frame) (X_features : list string) (f : string) :
  In f X_features -> numeric df !! f = None ->
  exists key, loc_columns df X_features = Raise (KeyError key).
Proof.
  intros Hin Hf.
  destruct (loc_columns df X_features) as [X|e] eqn:E.
  - exfalso. unfold loc_columns in E.
    destruct (mapM_Ok_each _ _ _ E f Hin) as (v & Hv).
    unfold getkey in Hv. rewrite Hf in Hv. discriminate.
  - destruct (loc_columns_error _ _ _ E) as (key & ->). eauto.
Qed.

Lemma select_features_error (results_dict : gmap string frame) (X_features : list string)
  (names : list (string * string))
  (acc : gmap string (list (list Q)) * gmap string (list string)) (e : exn) :
  select_features results_dict X_features names acc = Raise e ->
  exists key, e = KeyError key.
Proof.
  revert acc. induction names as [|[name obs_name] names IH]; intros acc;
    cbn [select_features]; [intros [=]|].
  destruct (getkey results_dict name) as [df|e0] eqn:Edf; cbn.
  - destruct (loc_columns df X_features) as [X|e'] eqn:EX; cbn.
    + destruct (getkey (categorical df) obs_name) as [y|e1] eqn:Ey; cbn; [apply IH|].
      intros [= <-]. unfold getkey in Ey.
      destruct (categorical df !! obs_name); [discriminate|].
      injection Ey as <-. eauto.
    + intros [= <-]. now apply loc_columns_error in EX.
  - intros [= <-]. unfold getkey in Edf. destruct (results_dict !! name); [discriminate|].
    injection Edf as <-. eauto.
Qed.

(** The selection loop stops at the first dataset it cannot select from;
    a dataset lacking a feature column is one. *)
Lemma select_features_missing_feature (results_dict : gmap string frame)
  (X_features : list string) (names : list (string * string))
  (acc : gmap string (list (list Q)) * gmap string (list string))
  (name obs_name : string) (df : frame) (f : string) :
  In (name, obs_name) names -> results_dict !! name = Some df ->
  In f X_features -> numeric df !! f = None ->
  exists key, select_features results_dict X_features names acc = Raise (KeyError key).
Proof.
  intros Hin Hdf Hf Hnone.
  destruct (select_features results_dict X_features names acc) as [X_y|e] eqn:E.
  - exfalso. revert acc E.
    induction names as [|[name0 obs0] names IH]; intros acc E; [destruct Hin|].
    cbn [select_features] in E.
    apply bind_Ok in E. destruct E as (df0 & Hdf0 & E).
    apply bind_Ok in E. destruct E as (X0 & HX & E).
    apply bind_Ok in E. destruct E as (y0 & Hy & E).
    destruct Hin as [[= -> ->]|Hin].
    + unfold getkey in Hdf0. rewrite Hdf in Hdf0. injection Hdf0 as <-.
      destruct (loc_columns_missing df X_features f Hf Hnone) as (key & Hk). congruence.
    + eapply IH; eauto.
  - destruct (select_features_error _ _ _ _ _ E) as (key & ->). eauto.
Qed.

Section AnnotatorFacts.

Context {model : Type} `{Classifier model}.

Variable connectivities_dict : gmap string (list (list Q)).
Variable results_dict : gmap string frame.
Variables names_list obs_names_list training_names_list : list string.
Variable test_name : string.
Variable input_features : list string.

Local Abbreviation prepared :=
  (train_and_score results_dict names_list obs_names_list training_names_list
                   test_name input_features).

(** When [train_and_score] comes back with a frame, the classifier has been
    fitted and has scored the target. *)
Lemma train_and_score_trace (tr : list event) (df : frame) :
  prepared = (tr, Ok df) -> tr = [Fit; Predict; PredictProba].
Proof.
  unfold train_and_score. intros Hp.
  apply traced_bind_Ok in Hp. destruct Hp as (tr1 & [X_dict y_dict] & tr' & H1 & Hp & ->).
  apply lift_Ok in H1. destruct H1 as (-> & _).
  apply traced_bind_Ok in Hp. destruct Hp as (tr1 & y_train & tr2 & H1 & Hp & ->).
  apply lift_Ok in H1. destruct H1 as (-> & _).
  apply traced_bind_Ok in Hp. destruct Hp as (tr1 & X_train & tr3 & H1 & Hp & ->).
  apply lift_Ok in H1. destruct H1 as (-> & _).
  apply traced_bind_Ok in Hp. destruct Hp as (tr1 & X_test & tr4 & H1 & Hp & ->).
  apply lift_Ok in H1. destruct H1 as (-> & _).
  apply traced_bind_Ok in Hp. destruct Hp as (tr1 & Model & tr5 & H1 & Hp & ->).
  apply call_Ok in H1. destruct H1 as (-> & _).
  apply traced_bind_Ok in Hp. destruct Hp as (tr1 & y_pred & tr6 & H1 & Hp & ->).
  apply call_Ok in H1. destruct H1 as (-> & _).
  apply traced_bind_Ok in Hp. destruct Hp as (tr1 & y_proba & tr7 & H1 & Hp & ->).
  apply call_Ok in H1. destruct H1 as (-> & _).
  apply lift_Ok in Hp. destruct Hp as (-> & _).
  reflexivity.
Qed.

Lemma cell_annotator_after_training (t : Q) (n_iter : Z) (tr : list event)
  (df : frame) (conn : list (list Q)) (results : list cell) :
  prepared = (tr, Ok df) ->
  getkey connectivities_dict test_name = Ok conn ->
  read_results df = Ok results ->
  cell_annotator connectivities_dict results_dict names_list obs_names_list
                 training_names_list test_name input_features t n_iter
  = (tr, match label_propagation results conn n_iter t with
         | Ok out => Ok {| results_test := df; propagation := out |}
         | Raise e => Raise e
         end).
Proof.
  intros Hp Hconn Hres. unfold cell_annotator.
  rewrite Hp. cbn [mbind traced_bind].
  rewrite Hconn. unfold lift at 1. cbn [mbind traced_bind].
  rewrite Hres. unfold lift. cbn [mbind traced_bind result_bind mret traced_ret].
  destruct (label_propagation results conn n_iter t);
    rewrite ?app_nil_r; reflexivity.
Qed.

Lemma train_and_score_failure_carries (t : Q) (n_iter : Z) (tr : list event) (e : exn) :
  prepared = (tr, Raise e) ->
  cell_annotator connectivities_dict results_dict names_list obs_names_list
                 training_names_list test_name input_features t n_iter
  = (tr, Raise e).
Proof.
  intros Hp. unfold cell_annotator. rewrite Hp. reflexivity.
Qed.

(** What reaches the classifier is what the selection loop collected, the
    labels as they are; when [fit] raises, the run ends there. *)
Lemma fit_failure_ends_run (t : Q) (n_iter : Z)
  (X_dict : gmap string (list (list Q))) (y_dict : gmap string (list string))
  (ys : list (list string)) (Xs : list (list (list Q)))
  (y_train : list string) (X_train X_test : list (list Q)) (e : exn) :
  select_features results_dict input_features (combine names_list obs_names_list) (∅, ∅)
  = Ok (X_dict, y_dict) ->
  mapM (getkey y_dict) training_names_list = Ok ys ->
  concat_series ys = Ok y_train ->
  mapM (getkey X_dict) training_names_list = Ok Xs ->
  concat_rows (length input_features) Xs = Ok X_train ->
  getkey X_dict test_name = Ok X_test ->
  fit X_train y_train = Raise e ->
  cell_annotator connectivities_dict results_dict names_list obs_names_list
                 training_names_list test_name input_features t n_iter
  = ([Fit], Raise e).
Proof.
  intros Hsel Hys Hy Hxs HX Ht Hfit.
  apply train_and_score_failure_carries.
  unfold train_and_score.
  rewrite Hsel, lift_bind. cbn beta iota.
  rewrite Hys. cbn [mbind result_bind]. rewrite Hy, lift_bind.
  rewrite Hxs. cbn [mbind result_bind]. rewrite HX, lift_bind.
  rewrite Ht, lift_bind. rewrite Hfit. reflexivity.
Qed.

(** C9 (as the code has it).  [cell_annotator] raises no configuration
    error of its own and checks nothing before the work starts; what
    happens to a bad configuration is what the first operation to trip over
    it does.  A dataset that the selection loop gets to (a pair of
    [zip(names_list, obs_names_list)]) and that lacks one of the feature
    columns ends the run in the [KeyError] of the column selection, before
    the classifier is touched.  The labels are not looked at: they reach
    [fit] as the tables have them, and when [fit] raises the run ends
    there, with nothing scored.  Whenever training and scoring go through,
    the classifier has been fitted and has scored the target by the time
    either parameter is looked at; a budget [n_iter < 1] is then not
    rejected at all (the run returns the classifier's probabilities after
    zero diffusion iterations), and a threshold outside [0, 1] ends the run
    in the [ValueError] of the first quantile, after training and
    scoring. *)
Theorem parameters_not_validated (t : Q) (n_iter : Z) :
  (forall (name obs_name : string) (df : frame) (f : string),
      In (name, obs_name) (combine names_list obs_names_list) ->
      results_dict !! name = Some df ->
      In f input_features -> numeric df !! f = None ->
      exists key,
        cell_annotator connectivities_dict results_dict names_list obs_names_list
                       training_names_list test_name input_features t n_iter
        = ([], Raise (KeyError key)))
  /\ (forall (X_dict : gmap string (list (list Q))) (y_dict : gmap string (list string))
        (ys : list (list string)) (Xs : list (list (list Q)))
        (y_train : list string) (X_train X_test : list (list Q)) (e : exn),
        select_features results_dict input_features
                        (combine names_list obs_names_list) (∅, ∅) = Ok (X_dict, y_dict) ->
        mapM (getkey y_dict) training_names_list = Ok ys ->
        concat_series ys = Ok y_train ->
        mapM (getkey X_dict) training_names_list = Ok Xs ->
        concat_rows (length input_features) Xs = Ok X_train ->
        getkey X_dict test_name = Ok X_test ->
        fit X_train y_train = Raise e ->
        cell_annotator connectivities_dict results_dict names_list obs_names_list
                       training_names_list test_name input_features t n_iter
        = ([Fit], Raise e))
  /\ (forall (tr : list event) (df : frame) (conn : list (list Q)) (results : list cell),
        prepared = (tr, Ok df) ->
        getkey connectivities_dict test_name = Ok conn ->
        read_results df = Ok results ->
        tr = [Fit; Predict; PredictProba]
        /\ (0 <= t <= 1 -> (n_iter < 1)%Z ->
            exists out,
              cell_annotator connectivities_dict results_dict names_list obs_names_list
                             training_names_list test_name input_features t n_iter
              = ([Fit; Predict; PredictProba],
                 Ok {| results_test := df; propagation := out |})
              /\ iterations_run out = 0%nat
              /\ LR_with_label_propagation_proba out = initial_proba results
              /\ printed out = [])
        /\ (t < 0 \/ 1 < t ->
            exists msg,
              cell_annotator connectivities_dict results_dict names_list obs_names_list
                             training_names_list test_name input_features t n_iter
              = ([Fit; Predict; PredictProba], Raise (ValueError msg)))).
Proof.
  split; [|split].
  - intros name obs_name df f Hin Hdf Hf Hnone.
    destruct (select_features_missing_feature results_dict input_features
                (combine names_list obs_names_list) (∅, ∅) name obs_name df f
                Hin Hdf Hf Hnone) as (key & Hsel).
    exists key. apply train_and_score_failure_carries.
    unfold train_and_score. rewrite Hsel. reflexivity.
  - intros. eapply fit_failure_ends_run; eauto.
  - intros tr df conn results Hp Hconn Hres.
    pose proof (train_and_score_trace _ _ Hp) as Htr.
    rewrite (cell_annotator_after_training t n_iter _ _ _ _ Hp Hconn Hres), Htr.
    split; [reflexivity|]. split.
    + intros Ht Hn.
      destruct (label_propagation_no_iteration results conn n_iter t Ht Hn)
        as (out & Hlp & Hrun & Hproba & Hpr & _).
      exists out. rewrite Hlp. auto.
    + intros Ht.
      destruct (label_propagation_bad_threshold results conn n_iter t Ht) as (msg & Hlp).
      exists msg. now rewrite Hlp.
Qed.

End AnnotatorFacts.

Section AnnotatorExamples.

Import Examples FurtherExamples.

(** C9, counterexample.  On the example data a budget of 0 with a valid
    threshold is not rejected: the classifier is fitted, the target is
    scored and a result comes back with no diffusion iteration executed.  A
    threshold of 3/2 does end the run, but only after the classifier was
    fitted and has scored the target.  And reference labels ['Normal'] and
    ['Other'], with no ['Tumor'] among them, are not rejected either, even
    by a classifier that insists on two classes: the run is trained, scored
    and returned. *)
Lemma budget_0_not_rejected :
  (exists ann, annotate (1 # 2) 0 = ([Fit; Predict; PredictProba], Ok ann)
               /\ iterations_run (propagation ann) = 0%nat)
  /\ (exists msg, annotate (3 # 2) 6
                  = ([Fit; Predict; PredictProba], Raise (ValueError msg)))
  /\ (categorical other_reference_frame !! "tier_0"%string
      = Some ["Normal"%string; "Other"%string]
      /\ exists ann, annotate_two_class results_without_tumor (1 # 2) 6
                     = ([Fit; Predict; PredictProba], Ok ann)).
Proof.
  split; [|split].
  - eexists. split; [vm_compute; reflexivity|reflexivity].
  - eexists. vm_compute. reflexivity.
  - split; [reflexivity|]. eexists. vm_compute. reflexivity.
Qed.

Lemma missing_feature_lookup :
  results_missing_feature !! "target"%string = Some incomplete_frame
  /\ numeric incomplete_frame !! "Tumor"%string = None.
Proof. split; reflexivity. Qed.

Lemma one_class_run :
  select_features results_one_class ["Normal"%string; "Tumor"%string]
                  (combine ["reference"%string; "target"%string]
                           ["tier_0"%string; "tier_0"%string]) (∅, ∅)
  = Ok one_class_selected
  /\ mapM (getkey (snd one_class_selected)) ["reference"%string]
     = Ok [["Normal"%string; "Normal"%string]]
  /\ mapM (getkey (fst one_class_selected)) ["reference"%string]
     = Ok [[[9 # 10; 1 # 10]; [1 # 10; 9 # 10]]]
  /\ getkey (fst one_class_selected) "target"%string
     = Ok [[8 # 10; 4 # 10]; [2 # 10; 6 # 10]].
Proof. repeat split; vm_compute; reflexivity. Qed.

(** The amended C9 on the example data: a target table without the
    ['Tumor'] column, reference labels of a single class with a classifier
    that refuses them, a budget of 0 and a threshold of 3/2. *)
Lemma parameters_not_validated_witness :
  (exists key, annotate_two_class results_missing_feature (1 # 2) 6
               = ([], Raise (KeyError key)))
  /\ (exists e, annotate_two_class results_one_class (1 # 2) 6 = ([Fit], Raise e))
  /\ (exists df conn results,
        train_and_score results_dict ["reference"%string; "target"%string]
                        ["tier_0"%string; "tier_0"%string] ["reference"%string]
                        "target"%string ["Normal"%string; "Tumor"%string]
        = ([Fit; Predict; PredictProba], Ok df)
        /\ getkey connectivities_dict "target"%string = Ok conn
        /\ read_results df = Ok results
        /\ (exists out,
              annotate (1 # 2) 0
              = ([Fit; Predict; PredictProba],
                 Ok {| results_test := df; propagation := out |})
              /\ iterations_run out = 0%nat
              /\ LR_with_label_propagation_proba out = initial_proba results
              /\ printed out = [])
        /\ (exists msg,
              annotate (3 # 2) 0 = ([Fit; Predict; PredictProba], Raise (ValueError msg)))).
Proof.
  split; [|split].
  - destruct (parameters_not_validated (model := two_class_model)
                connectivities_dict results_missing_feature
                ["reference"%string; "target"%string]
                ["tier_0"%string; "tier_0"%string] ["reference"%string]
                "target"%string ["Normal"%string; "Tumor"%string] (1 # 2) 6)
      as (Hfeature & _ & _).
    apply (Hfeature "target"%string "tier_0"%string incomplete_frame "Tumor"%string).
    + right. left. reflexivity.
    + apply missing_feature_lookup.
    + right. left. reflexivity.
    + apply missing_feature_lookup.
  - destruct (parameters_not_validated (model := two_class_model)
                connectivities_dict results_one_class
                ["reference"%string; "target"%string]
                ["tier_0"%string; "tier_0"%string] ["reference"%string]
                "target"%string ["Normal"%string; "Tumor"%string] (1 # 2) 6)
      as (_ & Hfit & _).
    eexists.
    destruct one_class_run as (Hsel & Hys & HXs & Ht).
    eapply (Hfit (fst one_class_selected) (snd one_class_selected)).
    + exact Hsel.
    + exact Hys.
    + reflexivity.
    + exact HXs.
    + reflexivity.
    + exact Ht.
    + reflexivity.
  - do 3 eexists.
    split; [vm_compute; reflexivity|].
    split; [vm_compute; reflexivity|].
    split; [vm_compute; reflexivity|].
    split.
    + destruct (parameters_not_validated connectivities_dict results_dict
                  ["reference"%string; "target"%string]
                  ["tier_0"%string; "tier_0"%string] ["reference"%string]
                  "target"%string ["Normal"%string; "Tumor"%string] (1 # 2) 0)
        as (_ & _ & Hparams).
      edestruct Hparams as (_ & Hbudget & _).
      * vm_compute. reflexivity.
      * vm_compute. reflexivity.
      * vm_compute. reflexivity.
      * apply Hbudget; [split; unfold Qle; simpl; lia|lia].
    + destruct (parameters_not_validated connectivities_dict results_dict
                  ["reference"%string; "target"%string]
                  ["tier_0"%string; "tier_0"%string] ["reference"%string]
                  "target"%string ["Normal"%string; "Tumor"%string] (3 # 2) 0)
        as (_ & _ & Hparams).
      edestruct Hparams as (_ & _ & Hthr).
      * vm_compute. reflexivity.
      * vm_compute. reflexivity.
      * vm_compute. reflexivity.
      * apply Hthr. right. unfold Qlt. simpl. lia.
Defined.

End AnnotatorExamples.

(** * Further properties of the propagation loop *)

(** ** Which cells the masks can admit *)

Lemma sort_values_In (x : Q) (l : list Q) : In x (sort_values l) -> In x l.
Proof.
  induction l as [|y t IH]; simpl; [auto|].
  intros Hin. apply insert_sorted_In in Hin. destruct Hin as [->|Hin]; auto.
Qed.

Lemma sort_values_nonempty (x : Q) (xs : list Q) : sort_values (x :: xs) <> [].
Proof.
  intros Heq. apply (f_equal (@length Q)) in Heq.
  rewrite sort_values_length in Heq. discriminate.
Qed.

Lemma at_clipped_In (v : list Q) (i : nat) : v <> [] -> In (at_clipped v i) v.
Proof.
  intros Hne. unfold at_clipped. apply nth_In.
  destruct v; simpl; [congruence|lia].
Qed.

(** The cut-off is never below a lower bound of the values. *)
Lemma quantile_lower_bound (xs : list Q) (q : Q) (thr m : Q) :
  quantile xs q = Ok (Some thr) ->
  (forall x, In x xs -> m <= x) ->
  m <= thr.
Proof.
  intros Hq Hm.
  pose proof (quantile_Ok_range _ _ _ Hq) as Hr.
  rewrite (quantile_in_range _ _ Hr) in Hq.
  destruct xs as [|x xs]; [discriminate|].
  injection Hq as <-.
  pose proof (percentile_linear_bounds (sort_values (x :: xs)) q
                (sort_values_sorted _) (sort_values_nonempty x xs) (proj1 Hr)) as [Hlo _].
  eapply Qle_trans; [|exact Hlo].
  apply Hm, sort_values_In, at_clipped_In, sort_values_nonempty.
Qed.

Lemma least_confident_masked (absdif : list Q) (q : Q) (col : list bool)
  (c : nat) (a : Q) :
  certain_column absdif q = Ok col ->
  absdif !! c = Some a ->
  (forall x, In x absdif -> a <= x) ->
  col !! c = Some false.
Proof.
  intros Hc Ha Hmin.
  apply certain_column_Ok in Hc. destruct Hc as (thr & Hq & ->).
  rewrite list_lookup_fmap, Ha. cbn. f_equal.
  destruct thr as [thr|]; [|reflexivity].
  cbn. apply Qltb_ge. eapply quantile_lower_bound; eauto.
Qed.

(** Every [certain{i}] column of a run is the column of its iteration. *)
Lemma run_columns (results : list cell) (conn : list (list Q)) (n_iter : Z) (t : Q)
  (out : lp_output) (i : nat) (col : list bool) :
  label_propagation results conn n_iter t = Ok out ->
  In (i, col) (certain_i out) ->
  certain_at (absdif_of results) t n_iter i = Ok col.
Proof.
  intros Hlp Hin.
  destruct (run_Ok_cases _ _ _ _ _ Hlp) as (_ & Hcases).
  destruct Hcases as [(_ & st & Hr & Hcols & _)
                     | (_ & j & st & cj & M' & _ & Hr & Hb & Hcols & _)].
  - rewrite Hcols in Hin. eapply reached_columns; eauto.
  - rewrite Hcols in Hin. apply in_app_or in Hin.
    destruct Hin as [Hin|[[= <- <-]|[]]].
    + eapply reached_columns; eauto.
    + pose proof (reaches_inv _ _ _ _ _ _ Hr) as Hinv.
      destruct (body_Break _ _ _ _ _ _ _ Hinv Hb) as (_ & ci & M & Hs & _ & Heq).
      apply diffusion_step_Ok in Hs. destruct Hs as (Hci & _).
      apply (f_equal certain_cols) in Heq.
      unfold after_break in Heq. cbn [certain_cols] in Heq.
      apply app_inv_head in Heq. injection Heq as ->. exact Hci.
Qed.

(** X1.  A cell whose confidence is the smallest of the table (or tied for
    it) is never certain: not in the global [certain] column and not in the
    [certain{i}] column of any iteration a run executes.  Its row is
    overwritten with 1e-6 in every mask step. *)
Theorem least_confident_never_certain (results : list cell) (conn : list (list Q))
  (n_iter : Z) (t : Q) (out : lp_output) (c : nat) (r : cell) :
  label_propagation results conn n_iter t = Ok out ->
  results !! c = Some r ->
  (forall r', In r' results ->
              Qabs (Normal r - Tumor r) <= Qabs (Normal r' - Tumor r')) ->
  certain out !! c = Some false
  /\ forall i col, In (i, col) (certain_i out) -> col !! c = Some false.
Proof.
  intros Hlp Hr Hmin.
  assert (Ha : absdif_of results !! c = Some (Qabs (Normal r - Tumor r))).
  { unfold absdif_of. now rewrite list_lookup_fmap, Hr. }
  assert (Hlow : forall x, In x (absdif_of results) -> Qabs (Normal r - Tumor r) <= x).
  { intros x Hx. unfold absdif_of in Hx. apply in_map_iff in Hx.
    destruct Hx as (r' & <- & Hin). now apply Hmin. }
  split.
  - destruct (run_Ok_cases _ _ _ _ _ Hlp) as (Hc0 & _).
    eapply least_confident_masked; eauto.
  - intros i col Hin.
    pose proof (run_columns _ _ _ _ _ _ _ Hlp Hin) as Hat.
    unfold certain_at in Hat. apply bind_Ok in Hat. destruct Hat as (t_i & _ & Hc).
    eapply least_confident_masked; eauto.
Qed.

Lemma insert_sorted_In_inv (x y : Q) (l : list Q) :
  y = x \/ In y l -> In y (insert_sorted x l).
Proof.
  induction l as [|z t IH]; simpl.
  - intros [->|[]]. now left.
  - destruct (Qle_bool x z); simpl.
    + intros [->|[->|Hin]]; auto.
    + intros [->|[->|Hin]]; auto.
Qed.

Lemma In_sort_values (x : Q) (l : list Q) : In x l -> In x (sort_values l).
Proof.
  induction l as [|y t IH]; simpl; [auto|].
  intros [->|Hin]; apply insert_sorted_In_inv; auto.
Qed.

Lemma percentile_linear_zero (v : list Q) (q : Q) :
  q == 0 -> percentile_linear v q == at_clipped v 0.
Proof.
  intros Hq0. unfold percentile_linear. cbv zeta.
  set (h := q * inject_Z (Z.of_nat (length v - 1))).
  assert (Hh : h == 0) by (unfold h; rewrite Hq0; ring).
  assert (Hk : Qfloor h = 0%Z) by (rewrite (Qfloor_comp _ _ Hh); reflexivity).
  rewrite Hk. change (inject_Z 0) with 0. change (Z.to_nat 0) with 0%nat.
  rewrite Hh. ring.
Qed.

(** The quantile at a level equal to zero is the smallest value. *)
Lemma quantile_zero_is_min (xs : list Q) (q thr : Q) :
  q == 0 -> quantile xs q = Ok (Some thr) ->
  exists m, In m xs /\ thr == m /\ forall x, In x xs -> m <= x.
Proof.
  intros Hq0 Hq.
  pose proof (quantile_Ok_range _ _ _ Hq) as Hr.
  rewrite (quantile_in_range _ _ Hr) in Hq.
  destruct xs as [|x xs]; [discriminate|].
  assert (Hthr : thr = percentile_linear (sort_values (x :: xs)) q) by congruence.
  clear Hq. subst thr.
  set (v := sort_values (x :: xs)).
  assert (Hne : v <> []) by apply sort_values_nonempty.
  assert (Hs : StronglySorted Qle v) by apply sort_values_sorted.
  exists (at_clipped v 0). split; [|split].
  - apply sort_values_In, at_clipped_In, Hne.
  - now apply percentile_linear_zero.
  - intros y Hy. apply In_sort_values in Hy. fold v in Hy.
    apply In_nth with (d := 0) in Hy. destruct Hy as (j & Hj & <-).
    unfold at_clipped. apply sorted_nth_le; [exact Hs|lia|exact Hj].
Qed.

Lemma threshold_schedule_facts (absdif : list Q) (t : Q) (n_iter : Z) (i : nat) :
  0 <= t <= 1 -> (2 <= n_iter)%Z -> (Z.of_nat i < n_iter)%Z ->
  exists t_i thr,
    certainty_threshold_pct t n_iter i = Ok t_i
    /\ (Z.of_nat i = (n_iter - 1)%Z -> t_i == 0)
    /\ quantile absdif t_i = Ok thr
    /\ certain_at absdif t n_iter i = Ok (map (gt_threshold thr) absdif).
Proof.
  intros [Ht0 Ht1] Hn Hi.
  destruct (certainty_threshold_pct_spec t n_iter i Hn Hi) as (t_i & Ei & Heq).
  pose proof (spec_threshold_range t n_iter i Ht0 Hn Hi) as Hr.
  destruct (certain_column_in_range absdif t_i) as (thr & Eq & Ec); [lra|].
  assert (Hd : ~ inject_Z (n_iter - 1) == 0) by (unfold Qeq; simpl; lia).
  exists t_i, thr. repeat split; try assumption.
  - intros Hlast. rewrite Heq. unfold spec_threshold. rewrite Hlast. field. assumption.
  - unfold certain_at. rewrite Ei. exact Ec.
Qed.

(** X2.  At the last iteration of a budget of two or more the quantile
    level is zero and the cut-off is the smallest confidence: a cell is
    certain there exactly when some cell of the table is strictly less
    confident than it is.  So the loosest mask of a run keeps every cell
    but the least confident ones, and never keeps them all. *)
Theorem last_mask_admits_all_but_least (absdif : list Q) (t : Q) (n_iter : Z) :
  0 <= t <= 1 -> (2 <= n_iter)%Z ->
  exists col,
    certain_at absdif t n_iter (Z.to_nat n_iter - 1) = Ok col
    /\ length col = length absdif
    /\ forall (c : nat) (a : Q),
         absdif !! c = Some a ->
         (col !! c = Some true <-> exists x, In x absdif /\ x < a).
Proof.
  intros Ht Hn.
  destruct (threshold_schedule_facts absdif t n_iter (Z.to_nat n_iter - 1) Ht Hn)
    as (t_i & thr & Ht_i & Hlast & Hq & Hat); [lia|].
  exists (map (gt_threshold thr) absdif).
  split; [exact Hat|]. split; [apply length_map|].
  intros c a Ha.
  rewrite list_lookup_fmap, Ha. cbn.
  destruct thr as [thr|].
  - destruct (quantile_zero_is_min absdif t_i thr) as (m & Hm & Heq & Hmin).
    + apply Hlast. lia.
    + exact Hq.
    + cbn. split.
      * intros [= Hgt]. apply Qltb_lt in Hgt. exists m. split; [exact Hm|]. lra.
      * intros (x & Hx & Hlt). f_equal. apply Qltb_lt.
        specialize (Hmin x Hx). lra.
  - destruct absdif as [|x xs]; [discriminate|].
    pose proof (quantile_Ok_range _ _ _ Hq) as Hr.
    rewrite (quantile_in_range _ _ Hr) in Hq. discriminate.
Qed.

(** ** Budgets, columns and the drift test *)

(** X3.  With a budget of 2 to 5 the early stop cannot happen: every run on
    valid input executes all [n_iter] iterations and prints the
    non-convergence warning, whatever the drift is, zero included. *)
Theorem small_budget_always_warns (results : list cell) (conn : list (list Q))
  (n_iter : Z) (t : Q) :
  valid_input results conn t -> (2 <= n_iter <= 5)%Z ->
  exists out d,
    label_propagation results conn n_iter t = Ok out
    /\ loop_exit out = Continue
    /\ iterations_run out = Z.to_nat n_iter
    /\ printed out = [NonConvergence d n_iter].
Proof.
  intros Hv [Hlo Hhi].
  destruct (exhausted_run_warns_once results conn n_iter t Hv Hlo)
    as (out & Hlp & _ & _ & Hcont).
  assert (Hexit : loop_exit out = Continue).
  { destruct (loop_exit out) eqn:E; [reflexivity|].
    destruct (run_Ok_cases _ _ _ _ _ Hlp) as (_ & [(Hc & _) | (_ & Hb)]); [congruence|].
    destruct Hb as (i & st & ci & M' & Hi & Hr & Hb & _).
    pose proof (reaches_inv _ _ _ _ _ _ Hr) as Hinv.
    destruct (body_Break _ _ _ _ _ _ _ Hinv Hb) as (H5 & _). lia. }
  destruct (Hcont Hexit) as (Hrun & st & ci & _ & _ & Hpr).
  exists out. eexists. repeat split; eauto.
Qed.

(** X4.  The shape of what a run returns.  The [certain{i}] columns are
    those of iterations [0 .. k-1] in order, for the number [k] of
    iterations executed, which is at most the budget and equal to it when
    the loop was not left early; the global flag, every [certain{i}]
    column, the final matrix and the final assignment have one entry per
    cell of the input table. *)
Theorem run_output_shape (results : list cell) (conn : list (list Q)) (n_iter : Z)
  (t : Q) (out : lp_output) :
  label_propagation results conn n_iter t = Ok out ->
  map fst (certain_i out) = seq 0 (iterations_run out)
  /\ (iterations_run out <= Z.to_nat n_iter)%nat
  /\ (loop_exit out = Continue -> iterations_run out = Z.to_nat n_iter)
  /\ length (certain out) = length results
  /\ (forall i col, In (i, col) (certain_i out) -> length col = length results)
  /\ length (LR_with_label_propagation_proba out) = length results
  /\ length (LR_with_label_propagation_tier_0_prediction out) = length results.
Proof.
  intros Hlp.
  pose proof (prediction_is_idxmax _ _ _ _ _ Hlp) as Hpred.
  destruct (run_Ok_cases _ _ _ _ _ Hlp) as (Hc0 & Hcases).
  assert (Hlen0 : length (certain out) = length results).
  { apply certain_column_length in Hc0. unfold absdif_of in Hc0.
    now rewrite length_map in Hc0. }
  assert (Hcols : forall i col, In (i, col) (certain_i out) -> length col = length results).
  { intros i col Hin.
    pose proof (run_columns _ _ _ _ _ _ _ Hlp Hin) as Hat.
    apply certain_at_length in Hat. unfold absdif_of in Hat.
    now rewrite length_map in Hat. }
  unfold iterations_run.
  destruct Hcases as [(Hexit & st & Hr & Hci & Hp & _)
                     | (Hexit & i & st & ci & M' & Hi & Hr & Hb & Hci & Hp & _)].
  - pose proof (reaches_inv _ _ _ _ _ _ Hr) as Hinv.
    assert (Hk : length (certain_i out) = Z.to_nat n_iter).
    { now rewrite Hci, <- (length_map fst), (inv_cols _ _ _ _ Hinv), length_seq. }
    assert (Hrows : length (LR_with_label_propagation_proba out) = length results).
    { rewrite Hp. apply (inv_rows _ _ _ _ Hinv). }
    repeat split; auto.
    + rewrite Hk, Hci. apply (inv_cols _ _ _ _ Hinv).
    + lia.
    + rewrite Hpred. unfold idxmax. now rewrite length_map.
  - pose proof (reaches_inv _ _ _ _ _ _ Hr) as Hinv.
    assert (Hk : length (certain_i out) = S i).
    { rewrite Hci, length_app, <- (length_map fst), (inv_cols _ _ _ _ Hinv), length_seq.
      simpl. lia. }
    assert (Hrows : length (LR_with_label_propagation_proba out) = length results).
    { destruct (body_Break _ _ _ _ _ _ _ Hinv Hb) as (_ & ci' & M & Hs & _ & Heq).
      apply diffusion_step_Ok in Hs. destruct Hs as (_ & lp & _ & _ & Hlen).
      apply (f_equal proba_tier_0) in Heq. cbn in Heq. subst M.
      rewrite Hp, Hlen. apply (inv_rows _ _ _ _ Hinv). }
    repeat split; auto.
    + rewrite Hk, Hci, map_app, (inv_cols _ _ _ _ Hinv), seq_S. reflexivity.
    + lia.
    + congruence.
    + rewrite Hpred. unfold idxmax. now rewrite length_map.
Qed.

(** Counting the changed cells. *)
Lemma count_changed_zero (current pre : assignment) :
  length current = length pre ->
  count_changed current pre = 0%nat ->
  current = pre /\ Forall (fun l => l <> None) current.
Proof.
  unfold count_changed. revert pre.
  induction current as [|a cur IH]; intros [|b pre] Hlen Hcount; try discriminate.
  - split; [reflexivity|constructor].
  - injection Hlen as Hlen.
    cbn [combine] in Hcount. rewrite filter_cons in Hcount.
    destruct (decide (label_ne a b = true)) as [Hne|Hne]; [discriminate|].
    destruct (IH pre Hlen Hcount) as (-> & Hall).
    destruct a as [[|]|], b as [[|]|]; cbn in Hne; try congruence;
      (split; [reflexivity|constructor; [discriminate|assumption]]).
Qed.

(** With at most 1000 cells a drift below 0.001 is no change at all. *)
Lemma drift_below_small (current pre : assignment) :
  (length current <= 1000)%nat ->
  drift_below (drift current pre) = true ->
  count_changed current pre = 0%nat.
Proof.
  intros Hsize. unfold drift.
  destruct (length current) as [|n] eqn:Hlen; [discriminate|].
  cbn [drift_below]. rewrite Qltb_lt. unfold drift_threshold.
  intros Hlt.
  destruct (count_changed current pre) as [|k]; [reflexivity|exfalso].
  set (a := inject_Z (Z.of_nat (S k))) in *.
  set (b := inject_Z (Z.of_nat (S n))) in *.
  assert (Hb : 0 < b) by (unfold b, Qlt; simpl; lia).
  assert (Hb' : b <= 1000) by (unfold b, Qle; simpl; lia).
  assert (Ha : 1 <= a) by (unfold a, Qle; simpl; lia).
  assert (Hab : a / b * b == a) by (field; lra).
  nra.
Qed.

(** X5.  On a table of at most 1000 cells the early stop means that nothing
    changed: a run that left the loop early returns the very assignment of
    the iteration before the last one executed (which is at index 5 or
    later), and that assignment has a label for every cell.  A single cell
    that changes, or a single all-[nan] row, keeps such a run going. *)
Theorem early_stop_small_table_no_change (results : list cell) (conn : list (list Q))
  (n_iter : Z) (t : Q) (out : lp_output) :
  label_propagation results conn n_iter t = Ok out ->
  loop_exit out = Break ->
  (length results <= 1000)%nat ->
  exists i st,
    (5 <= i)%nat
    /\ iterations_run out = S i
    /\ reaches results conn n_iter t i st
    /\ LR_with_label_propagation_tier_0_prediction out = idxmax (proba_tier_0 st)
    /\ Forall (fun l => l <> None) (LR_with_label_propagation_tier_0_prediction out).
Proof.
  intros Hlp Hexit Hsize.
  pose proof (prediction_is_idxmax _ _ _ _ _ Hlp) as Hpred.
  destruct (run_Ok_cases _ _ _ _ _ Hlp) as (_ & [(Hc & _) | (_ & Hb)]); [congruence|].
  destruct Hb as (i & st & ci & M' & Hi & Hr & Hb & Hcols & Hp & _).
  pose proof (reaches_inv _ _ _ _ _ _ Hr) as Hinv.
  destruct (body_Break _ _ _ _ _ _ _ Hinv Hb) as (H5 & ci' & M & Hs & Hd & Heq).
  apply (f_equal proba_tier_0) in Heq. cbn in Heq. subst M.
  apply diffusion_step_Ok in Hs. destruct Hs as (_ & lp & _ & _ & Hlen).
  assert (Hrows : length M' = length results)
    by (rewrite Hlen; apply (inv_rows _ _ _ _ Hinv)).
  unfold drift_between in Hd.
  assert (Hzero : count_changed (idxmax M') (idxmax (proba_tier_0 st)) = 0%nat).
  { apply drift_below_small; [|exact Hd].
    unfold idxmax. rewrite length_map. lia. }
  assert (Hlens : length (idxmax M') = length (idxmax (proba_tier_0 st))).
  { unfold idxmax. rewrite !length_map. rewrite (inv_rows _ _ _ _ Hinv). exact Hrows. }
  destruct (count_changed_zero _ _ Hlens Hzero) as (Hsame & Hall).
  exists i, st. rewrite Hpred, Hp.
  repeat split; auto.
  unfold iterations_run.
  rewrite Hcols, length_app, <- (length_map fst), (inv_cols _ _ _ _ Hinv), length_seq.
  simpl. lia.
Qed.

(** ** What the returned probabilities look like *)



(** ** The product [A . M] on finite matrices *)

Lemma dot_row_finite_acc (w : list Q) (R : list (Q * Q)) (p0 q0 : Q) :
  exists p q,
    fold_left (fun acc '(a, (x, y)) =>
                 (fadd (fst acc) (fmul (Fin a) x), fadd (snd acc) (fmul (Fin a) y)))
              (combine w (finite_matrix R)) (Fin p0, Fin q0)
    = (Fin p, Fin q)
    /\ p == p0 + weighted_sum fst w R
    /\ q == q0 + weighted_sum snd w R.
Proof.
  revert R p0 q0. induction w as [|a w IH]; intros R p0 q0.
  - exists p0, q0. cbn. repeat split; ring.
  - destruct R as [|[x y] R].
    + exists p0, q0. cbn. repeat split; ring.
    + cbn [finite_matrix map combine fold_left fst snd fmul fadd].
      destruct (IH R (Qred (p0 + Qred (a * x))) (Qred (q0 + Qred (a * y))))
        as (p & q & Hfold & Hp & Hq).
      exists p, q. split; [exact Hfold|].
      unfold weighted_sum in *. cbn [combine fold_right fst snd].
      rewrite Hp, Hq, !Qred_correct. split; ring.
Qed.

(** On a finite matrix the product row is the pair of weighted sums. *)
Lemma dot_row_finite (w : list Q) (R : list (Q * Q)) :
  exists p q, dot_row w (finite_matrix R) = (Fin p, Fin q)
              /\ p == weighted_sum fst w R
              /\ q == weighted_sum snd w R.
Proof.
  destruct (dot_row_finite_acc w R 0 0) as (p & q & Hfold & Hp & Hq).
  exists p, q. split; [exact Hfold|]. split; [rewrite Hp|rewrite Hq]; ring.
Qed.





Lemma total_weight_nonneg (w : list Q) :
  Forall (fun a => 0 <= a) w -> 0 <= total_weight w.
Proof.
  induction 1 as [|a w Ha _ IH]; cbn; [lra|]. fold (total_weight w). lra.
Qed.











(** ** How a missing value travels *)

Lemma fold_dot_nan_fst (l : list (Q * (fval * fval))) (y : fval) :
  fst (fold_left (fun acc '(a, (x, y)) =>
                    (fadd (fst acc) (fmul (Fin a) x), fadd (snd acc) (fmul (Fin a) y)))
                 l (NaN, y)) = NaN.
Proof.
  revert y. induction l as [|[a [x y']] l IH]; intros y; [reflexivity|].
  cbn [fold_left fst snd fadd]. apply IH.
Qed.

Lemma fold_dot_nan_snd (l : list (Q * (fval * fval))) (x : fval) :
  snd (fold_left (fun acc '(a, (x, y)) =>
                    (fadd (fst acc) (fmul (Fin a) x), fadd (snd acc) (fmul (Fin a) y)))
                 l (x, NaN)) = NaN.
Proof.
  revert x. induction l as [|[a [x' y]] l IH]; intros x; [reflexivity|].
  cbn [fold_left fst snd fadd].
  replace (fadd NaN (fmul (Fin a) y)) with NaN by reflexivity. apply IH.
Qed.

Lemma fadd_nan_r (x : fval) : fadd x NaN = NaN.
Proof. now destruct x. Qed.

Lemma fmul_nan_r (x : fval) : fmul x NaN = NaN.
Proof. now destruct x. Qed.

Lemma fdiv_nan_r (x : fval) : fdiv x NaN = NaN.
Proof. now destruct x. Qed.

(** A [nan] in a row of [M] that the weights reach puts [nan] in the same
    column of the product row, whatever the weight is, zero included. *)
Lemma dot_row_nan (w : list Q) (M : matrix) (c : nat) (row : fval * fval) :
  M !! c = Some row -> (c < length w)%nat ->
  (fst row = NaN -> fst (dot_row w M) = NaN)
  /\ (snd row = NaN -> snd (dot_row w M) = NaN).
Proof.
  unfold dot_row. generalize (Fin 0, Fin 0) as acc.
  revert M c. induction w as [|a w IH]; intros M c acc Hrow Hc; [simpl in Hc; lia|].
  destruct M as [|[x y] M]; [discriminate|].
  destruct c as [|c].
  - injection Hrow as <-. cbn [combine fold_left fst snd]. split; intros ->.
    + rewrite fmul_nan_r, fadd_nan_r. apply fold_dot_nan_fst.
    + rewrite fmul_nan_r, fadd_nan_r. apply fold_dot_nan_snd.
  - cbn [combine fold_left]. apply (IH M c); [exact Hrow|simpl in Hc; lia].
Qed.

(** X8.  A single [nan] is enough to lose everything.  If, in some
    iteration, a cell that is certain there has [nan] in its row of the
    working matrix, then after that iteration every row of the working
    matrix is ([nan], [nan]) and no cell has a label: the product
    multiplies the [nan] into every row, even at weight zero. *)
Theorem nan_in_certain_row_spreads (absdif : list Q) (conn : list (list Q))
  (n_iter : Z) (t : Q) (i : nat) (M : matrix) (ci : list bool) (M' : matrix)
  (c : nat) (row : fval * fval) :
  diffusion_step absdif conn n_iter t i M = Ok (ci, M') ->
  ci !! c = Some true ->
  M !! c = Some row ->
  fst row = NaN \/ snd row = NaN ->
  Forall (fun row' => row' = (NaN, NaN)) M'
  /\ Forall (fun l => l = None) (idxmax M').
Proof.
  intros Hs Hci Hrow Hnan.
  apply diffusion_step_Ok in Hs. destruct Hs as (Hc & lp & Hdot & -> & _).
  assert (Hmasked : mask_step ci M !! c = Some row).
  { clear - Hci Hrow. revert M c Hci Hrow.
    induction ci as [|b ci IH]; intros [|r0 M] [|c] Hci Hrow; try discriminate.
    - cbn in *. injection Hci as ->. now injection Hrow as ->.
    - cbn in *. now apply IH. }
  unfold np_dot in Hdot.
  destruct (forallb _ conn) eqn:Hshape; [|discriminate].
  injection Hdot as <-.
  rewrite forallb_forall in Hshape.
  assert (Hall : Forall (fun row' => row' = (NaN, NaN))
                        (renormalize (map (fun w => dot_row w (mask_step ci M)) conn))).
  { unfold renormalize. rewrite List.Forall_forall. intros row' Hin.
    apply in_map_iff in Hin. destruct Hin as (r & <- & Hin).
    apply in_map_iff in Hin. destruct Hin as (w & <- & Hw).
    specialize (Hshape w Hw). apply Nat.eqb_eq in Hshape.
    assert (Hcw : (c < length w)%nat).
    { rewrite Hshape. apply lookup_lt_Some in Hmasked. exact Hmasked. }
    destruct (dot_row_nan w (mask_step ci M) c row Hmasked Hcw) as (H1 & H2).
    unfold row_sum.
    destruct (dot_row w (mask_step ci M)) as [x y]. cbn [fst snd] in *.
    destruct Hnan as [Hn|Hn].
    - rewrite (H1 Hn). cbn [fadd fdiv]. now rewrite fdiv_nan_r.
    - rewrite (H2 Hn), fadd_nan_r, !fdiv_nan_r. reflexivity. }
  split; [exact Hall|].
  unfold idxmax. rewrite List.Forall_forall. intros l Hin.
  apply in_map_iff in Hin. destruct Hin as (r & <- & Hin).
  rewrite List.Forall_forall in Hall. now rewrite (Hall r Hin).
Qed.

(** ** Rows the classifier has no say in *)

Lemma renormalize_equal_columns (p q : Q) :
  p == q -> ~ p == 0 ->
  (fdiv (Fin p) (row_sum (Fin p, Fin q)), fdiv (Fin q) (row_sum (Fin p, Fin q)))
  = (Fin (1 # 2), Fin (1 # 2)).
Proof.
  intros Hpq Hp. unfold row_sum. cbn [fst snd fadd fdiv].
  assert (Hs : ~ Qred (p + q) == 0) by (rewrite Qred_correct, <- Hpq; lra).
  rewrite (Qeq_bool_false _ _ Hs).
  assert (Hsum : ~ p + q == 0) by (rewrite <- Hpq; lra).
  f_equal; f_equal; change (1 # 2) with (Qred (1 # 2)); apply Qred_complete;
    rewrite Qred_correct.
  - rewrite <- Hpq. field. lra.
  - rewrite Hpq. field. rewrite Hpq in Hp. lra.
Qed.





(** ** The identity graph *)

Lemma weighted_sum_unit (column : Q * Q -> Q) (c s len : nat) (R : list (Q * Q)) :
  length R = len ->
  weighted_sum column (map (fun j => if (c =? j)%nat then 1 else 0) (seq s len)) R
  == match R !! (c - s)%nat with
     | Some xy => if (s <=? c)%nat then column xy else 0
     | None => 0
     end.
Proof.
  revert s R. induction len as [|len IH]; intros s R Hlen.
  - destruct R; [|discriminate]. cbn. reflexivity.
  - destruct R as [|xy R]; [discriminate|]. injection Hlen as Hlen.
    unfold weighted_sum in *. cbn [seq map combine fold_right fst snd].
    rewrite (IH (S s) R Hlen).
    destruct (Nat.eqb_spec c s) as [->|Hne].
    + replace (s - s)%nat with 0%nat by lia. cbn [lookup list_lookup].
      rewrite Nat.leb_refl.
      replace (R !! (s - S s)%nat) with (R !! 0%nat) by (f_equal; lia).
      replace (S s <=? s)%nat with false by (symmetry; apply Nat.leb_gt; lia).
      destruct (R !! 0%nat); ring.
    + destruct (Nat.leb_spec s c) as [Hle|Hgt].
      * replace (c - s)%nat with (S (c - S s)) by lia. cbn [lookup list_lookup].
        replace (S s <=? c)%nat with true by (symmetry; apply Nat.leb_le; lia).
        destruct (R !! (c - S s)%nat); ring.
      * replace (c - s)%nat with 0%nat by lia.
        replace (c - S s)%nat with 0%nat by lia. cbn [lookup list_lookup].
        replace (S s <=? c)%nat with false by (symmetry; apply Nat.leb_gt; lia).
        destruct (R !! 0%nat); ring.
Qed.

Lemma lookup_map {A B : Type} (f : A -> B) (l : list A) (c : nat) :
  map f l !! c = f <$> (l !! c).
Proof. apply list_lookup_fmap. Qed.

Lemma mask_step_finite (ci : list bool) (R : list (Q * Q)) :
  mask_step ci (finite_matrix R)
  = finite_matrix (map (fun bxy => if fst bxy : bool then snd bxy
                                   else (epsilon_mask, epsilon_mask))
                       (combine ci R)).
Proof.
  revert R. induction ci as [|b ci IH]; intros [|xy R]; try reflexivity.
  unfold mask_step, finite_matrix in *. cbn [map combine fst snd].
  f_equal; [now destruct b|]. apply IH.
Qed.

(** X10.  On the identity graph one diffusion step leaves alone every
    certain cell whose (finite) row sums to 1, and sends every uncertain
    cell to (1/2, 1/2): an uncertain cell has only its own masked row to
    draw from. *)
Theorem identity_graph_step (absdif : list Q) (n_iter : Z) (t : Q) (i : nat)
  (R : list (Q * Q)) (ci : list bool) (M' : matrix) (c : nat) (x y : Q) :
  diffusion_step absdif (identity_graph (length R)) n_iter t i (finite_matrix R)
  = Ok (ci, M') ->
  R !! c = Some (x, y) ->
  (ci !! c = Some false -> M' !! c = Some (Fin (1 # 2), Fin (1 # 2)))
  /\ (ci !! c = Some true -> x + y == 1 ->
      exists x' y', M' !! c = Some (Fin x', Fin y') /\ x' == x /\ y' == y).
Proof.
  intros Hs Hxy.
  apply diffusion_step_Ok in Hs. destruct Hs as (_ & lp & Hdot & -> & _).
  rewrite mask_step_finite in Hdot.
  set (R' := map (fun bxy => if fst bxy : bool then snd bxy
                             else (epsilon_mask, epsilon_mask)) (combine ci R)) in *.
  assert (Hc : (c < length R)%nat) by (eapply lookup_lt_Some; eauto).
  unfold np_dot in Hdot.
  destruct (forallb _ (identity_graph (length R))) eqn:Hshape; [|discriminate].
  injection Hdot as <-.
  rewrite forallb_forall in Hshape.
  set (unit := map (fun j => if (c =? j)%nat then 1 else 0) (seq 0 (length R))).
  assert (Hunit : identity_graph (length R) !! c = Some unit).
  { unfold identity_graph.
    rewrite (list_lookup_fmap _ (seq 0 (length R)) c), lookup_seq_lt by exact Hc.
    reflexivity. }
  assert (HlenR' : length R' = length R).
  { assert (Hin : In unit (identity_graph (length R))).
    { apply list_elem_of_In. eapply list_elem_of_lookup_2; eauto. }
    specialize (Hshape unit Hin). apply Nat.eqb_eq in Hshape.
    unfold unit in Hshape. rewrite length_map, length_seq in Hshape.
    unfold finite_matrix in Hshape. now rewrite length_map in Hshape. }
  assert (Hrow : renormalize (map (fun w => dot_row w (finite_matrix R'))
                                  (identity_graph (length R))) !! c
                 = Some (fdiv (fst (dot_row unit (finite_matrix R')))
                              (row_sum (dot_row unit (finite_matrix R'))),
                         fdiv (snd (dot_row unit (finite_matrix R')))
                              (row_sum (dot_row unit (finite_matrix R'))))).
  { unfold renormalize.
    etransitivity; [apply lookup_map|].
    rewrite lookup_map, Hunit. reflexivity. }
  destruct (dot_row_finite unit R') as (p & q & Hpq & Hp & Hq).
  rewrite Hpq in Hrow. cbn [fst snd] in Hrow.
  unfold unit in Hp, Hq.
  rewrite <- HlenR' in Hp, Hq.
  rewrite (weighted_sum_unit fst c 0 (length R') R' eq_refl) in Hp.
  rewrite (weighted_sum_unit snd c 0 (length R') R' eq_refl) in Hq.
  replace (c - 0)%nat with c in Hp, Hq by lia. cbn [Nat.leb] in Hp, Hq.
  assert (HR' : forall b : bool, ci !! c = Some b ->
                R' !! c = Some (if b then (x, y) else (epsilon_mask, epsilon_mask))).
  { intros b Hb. unfold R'.
    rewrite lookup_map.
    assert (Hzip : combine ci R !! c = Some (b, (x, y))).
    { clear - Hb Hxy. revert R c Hb Hxy.
      induction ci as [|b0 ci IH]; intros [|r0 R] [|c] Hb Hxy; try discriminate.
      - cbn in *. congruence.
      - cbn in *. now apply IH. }
    now rewrite Hzip. }
  split.
  - intros Hb. rewrite (HR' false Hb) in Hp, Hq. cbn [fst snd] in Hp, Hq.
    rewrite Hrow. f_equal. apply renormalize_equal_columns.
    + now rewrite Hp, Hq.
    + rewrite Hp. unfold epsilon_mask, Qeq. simpl. lia.
  - intros Hb Hsum. rewrite (HR' true Hb) in Hp, Hq. cbn [fst snd] in Hp, Hq.
    rewrite Hrow. unfold row_sum. cbn [fst snd fadd fdiv].
    assert (Hs : ~ Qred (p + q) == 0) by (rewrite Qred_correct, Hp, Hq, Hsum; lra).
    rewrite (Qeq_bool_false _ _ Hs).
    eexists. eexists. split; [reflexivity|].
    rewrite !Qred_correct, Hp, Hq, Hsum.
    split; field.
Qed.

(** * Further properties of [cell_annotator] *)

(** What the loop of lines 165-167 leaves in [X_dict] and [y_dict]. *)
Lemma select_features_lookup (results_dict : gmap string frame)
  (X_features : list string) (names : list (string * string))
  (acc X_y : gmap string (list (list Q)) * gmap string (list string)) :
  select_features results_dict X_features names acc = Ok X_y ->
  (forall name X, fst X_y !! name = Some X ->
     fst acc !! name = Some X
     \/ (In name (map fst names)
         /\ exists df, results_dict !! name = Some df
                       /\ loc_columns df X_features = Ok X))
  /\ (forall name y, snd X_y !! name = Some y ->
        snd acc !! name = Some y
        \/ exists df obs_name, In (name, obs_name) names
             /\ results_dict !! name = Some df
             /\ categorical df !! obs_name = Some y).
Proof.
  revert acc. induction names as [|[name0 obs0] names IH]; intros acc; cbn [select_features].
  - intros [= <-]. split; auto.
  - intros Hsel.
    apply bind_Ok in Hsel. destruct Hsel as (df & Hdf & Hsel).
    apply bind_Ok in Hsel. destruct Hsel as (X0 & HX & Hsel).
    apply bind_Ok in Hsel. destruct Hsel as (y0 & Hy & Hsel).
    unfold getkey in Hdf, Hy.
    destruct (results_dict !! name0) as [df'|] eqn:Hdf'; [|discriminate].
    injection Hdf as ->.
    destruct (categorical df !! obs0) as [y0'|] eqn:Hy'; [|discriminate].
    injection Hy as ->.
    destruct (IH _ Hsel) as (HXs & Hys). cbn [fst snd] in *.
    split.
    + intros name X Hlook. destruct (HXs name X Hlook) as [Hacc|(Hin & Hd)].
      * destruct (decide (name0 = name)) as [->|Hne].
        -- rewrite lookup_insert_eq in Hacc. injection Hacc as <-.
           right. split; [now left|eauto].
        -- rewrite lookup_insert_ne in Hacc by exact Hne. now left.
      * right. split; [now right|exact Hd].
    + intros name y Hlook. destruct (Hys name y Hlook) as [Hacc|(d & o & Hin & Hd)].
      * destruct (decide (name0 = name)) as [->|Hne].
        -- rewrite lookup_insert_eq in Hacc. injection Hacc as <-.
           right. exists df, obs0. split; [now left|auto].
        -- rewrite lookup_insert_ne in Hacc by exact Hne. now left.
      * right. exists d, o. split; [now right|exact Hd].
Qed.

Section AnnotatorEdges.

Context {model : Type} `{Classifier model}.

Variable connectivities_dict : gmap string (list (list Q)).
Variable results_dict : gmap string frame.
Variables names_list obs_names_list training_names_list : list string.
Variable test_name : string.
Variable input_features : list string.

(** X11.  A target or training dataset that the selection loop never got to
    stops the run before the classifier is touched: nothing is fitted and
    nothing is scored.  That includes a dataset named in [names_list]
    beyond the length of [obs_names_list], which [zip] drops silently. *)
Theorem unselected_dataset_stops_before_training (t : Q) (n_iter : Z) :
  ~ In test_name (map fst (combine names_list obs_names_list))
  \/ (exists name, In name training_names_list
                   /\ ~ In name (map fst (combine names_list obs_names_list))) ->
  exists e,
    cell_annotator connectivities_dict results_dict names_list obs_names_list
                   training_names_list test_name input_features t n_iter
    = ([], Raise e).
Proof.
  intros Hmissing.
  assert (Hprep : exists e,
             train_and_score results_dict names_list obs_names_list training_names_list
                             test_name input_features
             = ([], Raise e)).
  { unfold train_and_score.
    destruct (select_features results_dict input_features
                (combine names_list obs_names_list) (∅, ∅)) as [[X_dict y_dict]|e] eqn:Hsel;
      [|eexists; rewrite lift_bind; reflexivity].
    destruct (select_features_lookup _ _ _ _ _ Hsel) as (HX & Hy). cbn [fst snd] in *.
    assert (Hdom : forall name X,
               X_dict !! name = Some X ->
               In name (map fst (combine names_list obs_names_list))).
    { intros name X Hl. destruct (HX name X Hl) as [Hacc|(Hin & _)]; [|exact Hin].
      rewrite lookup_empty in Hacc. discriminate. }
    rewrite lift_bind. cbn beta iota.
    rewrite lift_bind.
    destruct (mapM (getkey y_dict) training_names_list ≫= _)
      as [y_train|e] eqn:Hy_train; [|eexists; reflexivity].
    rewrite lift_bind.
    destruct (mapM (getkey X_dict) training_names_list) as [Xs|e] eqn:HXs;
      cbn [mbind result_bind]; [|eexists; reflexivity].
    destruct (concat_rows (length input_features) Xs) as [X_train|e] eqn:Hcat;
      [|eexists; reflexivity].
    destruct Hmissing as [Htest|(name & Hin & Hname)].
    - rewrite lift_bind. unfold getkey at 1.
      destruct (X_dict !! test_name) as [X|] eqn:HXt; [|eexists; reflexivity].
      exfalso. apply Htest. eapply Hdom; eauto.
    - exfalso. destruct (mapM_Ok_each _ _ _ HXs name Hin) as (X & Hget).
      unfold getkey in Hget.
      destruct (X_dict !! name) eqn:E; [|discriminate]. eapply Hname, Hdom; eauto. }
  destruct Hprep as (e & Hp). exists e. now apply train_and_score_failure_carries.
Qed.

(** X12.  With an empty list of training datasets the run ends before the
    classifier is touched; when the selection loop itself went through,
    the error is the [ValueError] of concatenating nothing. *)
Theorem no_training_dataset_stops_before_training (t : Q) (n_iter : Z) :
  training_names_list = [] ->
  (exists e,
      cell_annotator connectivities_dict results_dict names_list obs_names_list
                     training_names_list test_name input_features t n_iter
      = ([], Raise e))
  /\ forall X_y,
       select_features results_dict input_features
                       (combine names_list obs_names_list) (∅, ∅) = Ok X_y ->
       cell_annotator connectivities_dict results_dict names_list obs_names_list
                      training_names_list test_name input_features t n_iter
       = ([], Raise (ValueError "No objects to concatenate")).
Proof.
  intros Hempty.
  assert (Hgen : forall X_y,
             select_features results_dict input_features
                             (combine names_list obs_names_list) (∅, ∅) = Ok X_y ->
             cell_annotator connectivities_dict results_dict names_list obs_names_list
                            training_names_list test_name input_features t n_iter
             = ([], Raise (ValueError "No objects to concatenate"))).
  { intros [X_dict y_dict] Hsel.
    apply train_and_score_failure_carries.
    unfold train_and_score. rewrite Hsel, Hempty. reflexivity. }
  split; [|exact Hgen].
  destruct (select_features results_dict input_features
              (combine names_list obs_names_list) (∅, ∅)) as [X_y|e] eqn:Hsel.
  - eexists. now apply (Hgen X_y).
  - exists e. apply train_and_score_failure_carries.
    unfold train_and_score. rewrite Hsel. reflexivity.
Qed.

(** X13.  A missing similarity graph for the target is only noticed after
    the classifier has been fitted and has scored the target: the run then
    ends in the [KeyError] of the dict lookup. *)
Theorem missing_graph_found_after_training (t : Q) (n_iter : Z) (tr : list event)
  (df : frame) :
  train_and_score results_dict names_list obs_names_list training_names_list
                  test_name input_features = (tr, Ok df) ->
  connectivities_dict !! test_name = None ->
  cell_annotator connectivities_dict results_dict names_list obs_names_list
                 training_names_list test_name input_features t n_iter
  = ([Fit; Predict; PredictProba], Raise (KeyError test_name)).
Proof.
  intros Hp Hconn.
  pose proof (train_and_score_trace _ _ _ _ _ _ _ _ Hp) as ->.
  unfold cell_annotator. rewrite Hp. cbn [mbind traced_bind].
  unfold getkey. rewrite Hconn. reflexivity.
Qed.

End AnnotatorEdges.

Section AnnotatorResult.

Context {model : Type} `{Classifier model}.

Variable results_dict : gmap string frame.
Variables names_list obs_names_list training_names_list : list string.
Variable test_name : string.
Variable input_features : list string.

(** X14.  What a successful [train_and_score] has done.  The classifier
    was fitted on the feature columns of the training datasets, stacked in
    the order of [training_names_list], with their label columns stacked
    the same way; it scored the feature columns of the target dataset; and
    the frame handed on is the target frame with the three classifier
    columns set (one value per row) and every other column as it was. *)
Theorem train_and_score_result (tr : list event) (df : frame) :
  train_and_score results_dict names_list obs_names_list training_names_list
                  test_name input_features = (tr, Ok df) ->
  exists df0 X_test Xs ys X_train y_train Model,
    results_dict !! test_name = Some df0
    /\ loc_columns df0 input_features = Ok X_test
    /\ Forall2 (fun name X => exists d, results_dict !! name = Some d
                                        /\ loc_columns d input_features = Ok X)
               training_names_list Xs
    /\ concat_rows (length input_features) Xs = Ok X_train
    /\ Forall2 (fun name y => exists d obs_name,
                    In (name, obs_name) (combine names_list obs_names_list)
                    /\ results_dict !! name = Some d
                    /\ categorical d !! obs_name = Some y)
               training_names_list ys
    /\ concat_series ys = Ok y_train
    /\ fit X_train y_train = Ok Model
    /\ nrows df = nrows df0
    /\ length (predict_proba Model X_test) = nrows df0
    /\ length (predict Model X_test) = nrows df0
    /\ numeric df
       = <["LR_proba_Tumor"%string := map snd (predict_proba Model X_test)]>
           (<["LR_proba_Normal"%string := map fst (predict_proba Model X_test)]>
              (numeric df0))
    /\ categorical df
       = <["LR_tier_0_prediction"%string := predict Model X_test]> (categorical df0).
Proof.
  unfold train_and_score. intros Hp.
  apply traced_bind_Ok in Hp. destruct Hp as (tr1 & [X_dict y_dict] & tr' & H1 & Hp & ->).
  apply lift_Ok in H1. destruct H1 as (-> & Hsel).
  apply traced_bind_Ok in Hp. destruct Hp as (tr1 & y_train & tr2 & H1 & Hp & ->).
  apply lift_Ok in H1. destruct H1 as (-> & Hy_train).
  apply traced_bind_Ok in Hp. destruct Hp as (tr1 & X_train & tr3 & H1 & Hp & ->).
  apply lift_Ok in H1. destruct H1 as (-> & HX_train).
  apply traced_bind_Ok in Hp. destruct Hp as (tr1 & X_test & tr4 & H1 & Hp & ->).
  apply lift_Ok in H1. destruct H1 as (-> & HX_test).
  apply traced_bind_Ok in Hp. destruct Hp as (tr1 & Model & tr5 & H1 & Hp & ->).
  apply call_Ok in H1. destruct H1 as (-> & Hfit).
  apply traced_bind_Ok in Hp. destruct Hp as (tr1 & y_pred & tr6 & H1 & Hp & ->).
  apply call_Ok in H1. destruct H1 as (-> & [= <-]).
  apply traced_bind_Ok in Hp. destruct Hp as (tr1 & y_proba & tr7 & H1 & Hp & ->).
  apply call_Ok in H1. destruct H1 as (-> & [= <-]).
  apply lift_Ok in Hp. destruct Hp as (-> & Hset).
  destruct (select_features_lookup _ _ _ _ _ Hsel) as (HX & Hy). cbn [fst snd] in *.
  (* the training data *)
  apply bind_Ok in Hy_train. destruct Hy_train as (ys & Hys & Hcat_y).
  apply bind_Ok in HX_train. destruct HX_train as (Xs & HXs & Hcat_X).
  apply mapM_Ok_inv in Hys, HXs.
  (* the target *)
  unfold getkey in HX_test.
  destruct (X_dict !! test_name) as [X|] eqn:HXt; [|discriminate].
  injection HX_test as ->.
  destruct (HX test_name X_test HXt) as [Hacc|(_ & df0 & Hdf0 & Hloc)];
    [rewrite lookup_empty in Hacc; discriminate|].
  (* the three columns *)
  apply bind_Ok in Hset. destruct Hset as (d0 & Hd0 & Hset).
  unfold getkey in Hd0. rewrite Hdf0 in Hd0. injection Hd0 as <-.
  apply bind_Ok in Hset. destruct Hset as (d1 & Hd1 & Hset).
  apply bind_Ok in Hset. destruct Hset as (d2 & Hd2 & Hset).
  unfold setcol_numeric in Hd1, Hd2. unfold setcol_categorical in Hset.
  destruct (length (map fst (predict_proba Model X_test)) =? nrows df0)%nat eqn:E1;
    [|discriminate].
  injection Hd1 as <-. cbn [nrows numeric categorical] in *.
  destruct (length (map snd (predict_proba Model X_test)) =? nrows df0)%nat eqn:E2;
    [|discriminate].
  injection Hd2 as <-. cbn [nrows numeric categorical] in *.
  destruct (length (predict Model X_test) =? nrows df0)%nat eqn:E3; [|discriminate].
  injection Hset as <-. cbn [nrows numeric categorical].
  apply Nat.eqb_eq in E1, E3. rewrite length_map in E1.
  exists df0, X_test, Xs, ys, X_train, y_train, Model.
  repeat split; auto.
  - eapply Forall2_impl; [exact HXs|]. intros name X0 Hget. unfold getkey in Hget.
    destruct (X_dict !! name) as [X1|] eqn:E; [|discriminate]. injection Hget as ->.
    destruct (HX name X0 E) as [Hacc|(_ & d & Hd & Hl)];
      [rewrite lookup_empty in Hacc; discriminate|eauto].
  - eapply Forall2_impl; [exact Hys|]. intros name y0 Hget. unfold getkey in Hget.
    destruct (y_dict !! name) as [y1|] eqn:E; [|discriminate]. injection Hget as ->.
    destruct (Hy name y0 E) as [Hacc|Hd];
      [rewrite lookup_empty in Hacc; discriminate|exact Hd].
Qed.

End AnnotatorResult.

(** * [load_scores] *)

Lemma df_getitem_setitem_eq (df : dataframe) (key : string) (values : column) :
  df_getitem (df_setitem df key values) key = inr values.
Proof.
  unfold df_getitem. induction df as [|[k c] rest IH]; cbn.
  - now rewrite String.eqb_refl.
  - destruct (String.eqb k key) eqn:E; cbn.
    + now rewrite String.eqb_refl.
    + rewrite E. exact IH.
Qed.

Lemma df_getitem_setitem_ne (df : dataframe) (key key' : string) (values : column) :
  key <> key' ->
  df_getitem (df_setitem df key values) key' = df_getitem df key'.
Proof.
  intros Hne. unfold df_getitem. induction df as [|[k c] rest IH]; cbn.
  - destruct (String.eqb_spec key key'); [contradiction|reflexivity].
  - destruct (String.eqb_spec k key) as [->|Hk]; cbn.
    + destruct (String.eqb_spec key key'); [contradiction|reflexivity].
    + destruct (String.eqb k key'); [reflexivity|exact IH].
Qed.

Lemma df_contains_getitem (df : dataframe) (key : string) :
  df_contains df key = true <-> exists c, df_getitem df key = inr c.
Proof.
  unfold df_contains, df_getitem. induction df as [|[k c] rest IH]; cbn.
  - split; [discriminate|intros (c & Hc); discriminate].
  - destruct (String.eqb k key); cbn; [split; eauto|exact IH].
Qed.

Lemma df_contains_setitem (df : dataframe) (key key' : string) (values : column) :
  df_contains df key' = true -> df_contains (df_setitem df key values) key' = true.
Proof.
  intros Hc. apply df_contains_getitem in Hc. destruct Hc as (c & Hc).
  apply df_contains_getitem.
  destruct (String.eqb_spec key key') as [->|Hne].
  - rewrite df_getitem_setitem_eq. eauto.
  - rewrite df_getitem_setitem_ne by exact Hne. eauto.
Qed.

(** What a relabelling that goes through leaves in [adata.obs]. *)
Lemma relabel_tier_0_columns (obs : dataframe) (tier_0 corrected : column) :
  df_getitem obs "tier_0_hallmark_corrected" = inr corrected ->
  df_getitem obs "tier_0" = inr tier_0 ->
  exists obs',
    relabel_tier_0 obs = (obs', None)
    /\ df_getitem obs' "tier_0" = inr corrected
    /\ df_getitem obs' "tier_0_raw" = inr tier_0
    /\ df_getitem obs' "tier_0_hallmark_corrected" = inr corrected
    /\ forall key, key <> "tier_0"%string -> key <> "tier_0_raw"%string ->
                   df_getitem obs' key = df_getitem obs key.
Proof.
  intros Hc Ht. unfold relabel_tier_0.
  assert (Hin : df_contains obs "tier_0_hallmark_corrected" = true)
    by (apply df_contains_getitem; eauto).
  rewrite Hin, Ht.
  rewrite df_getitem_setitem_ne by discriminate. rewrite Hc.
  eexists. split; [reflexivity|].
  split; [apply df_getitem_setitem_eq|].
  split; [rewrite df_getitem_setitem_ne by discriminate; apply df_getitem_setitem_eq|].
  split; [rewrite !df_getitem_setitem_ne by discriminate; exact Hc|].
  intros key H1 H2. rewrite !df_getitem_setitem_ne by congruence. reflexivity.
Qed.

(** X15.  [load_scores] relabels the caller's [adata.obs] in place, and
    only its first call keeps the original labels.  With both
    ['tier_0_hallmark_corrected'] and ['tier_0'] present and the score
    file on disk, the first call leaves the corrected labels in ['tier_0']
    and the original ones in ['tier_0_raw'], touching no other column; a
    second call on the same [adata] overwrites ['tier_0_raw'] with the
    corrected labels.  Both calls return the columns of [adata.obs] as they
    left it, followed by the score columns. *)
Theorem load_scores_twice_loses_raw_labels (files : gmap string (list (string * list Q)))
  (name : string) (obs : dataframe) (tier_0 corrected : column)
  (scores : list (string * list Q)) :
  df_getitem obs "tier_0_hallmark_corrected" = inr corrected ->
  df_getitem obs "tier_0" = inr tier_0 ->
  files !! scores_path name = Some scores ->
  exists obs1 obs2,
    load_scores files name obs
    = (obs1, inr (obs1 ++ map (fun kv => (fst kv, NumericColumn (snd kv))) scores))
    /\ df_getitem obs1 "tier_0" = inr corrected
    /\ df_getitem obs1 "tier_0_raw" = inr tier_0
    /\ (forall key, key <> "tier_0"%string -> key <> "tier_0_raw"%string ->
                    df_getitem obs1 key = df_getitem obs key)
    /\ load_scores files name obs1
       = (obs2, inr (obs2 ++ map (fun kv => (fst kv, NumericColumn (snd kv))) scores))
    /\ df_getitem obs2 "tier_0" = inr corrected
    /\ df_getitem obs2 "tier_0_raw" = inr corrected.
Proof.
  intros Hc Ht Hfile.
  destruct (relabel_tier_0_columns obs tier_0 corrected Hc Ht)
    as (obs1 & Hrel1 & Ht1 & Hraw1 & Hc1 & Hother1).
  destruct (relabel_tier_0_columns obs1 corrected corrected Hc1 Ht1)
    as (obs2 & Hrel2 & Ht2 & Hraw2 & _ & _).
  exists obs1, obs2. unfold load_scores. rewrite Hrel1, Hrel2, Hfile.
  repeat split; auto.
Qed.

(** X16.  How [load_scores] fails.  Without the column
    ['tier_0_hallmark_corrected'] nothing in [adata.obs] is changed.  With it
    but without ['tier_0'], the call ends in a [KeyError] and [adata.obs] is
    as it was.  With both, a missing score file ends the call in
    [FileNotFoundError] after [adata.obs] has been relabelled: the caller's
    object stays modified although nothing was returned. *)
Theorem load_scores_failures (files : gmap string (list (string * list Q)))
  (name : string) (obs : dataframe) :
  (df_contains obs "tier_0_hallmark_corrected" = false ->
   fst (load_scores files name obs) = obs)
  /\ (df_contains obs "tier_0_hallmark_corrected" = true ->
      df_contains obs "tier_0" = false ->
      load_scores files name obs = (obs, inl (NoSuchColumn "tier_0")))
  /\ (forall tier_0 corrected,
        df_getitem obs "tier_0_hallmark_corrected" = inr corrected ->
        df_getitem obs "tier_0" = inr tier_0 ->
        files !! scores_path name = None ->
        exists obs',
          load_scores files name obs = (obs', inl (FileNotFoundError (scores_path name)))
          /\ df_getitem obs' "tier_0" = inr corrected
          /\ df_getitem obs' "tier_0_raw" = inr tier_0).
Proof.
  split; [|split].
  - intros Hno. unfold load_scores, relabel_tier_0. rewrite Hno.
    now destruct (files !! scores_path name).
  - intros Hyes Hno. unfold load_scores, relabel_tier_0. rewrite Hyes.
    destruct (df_getitem obs "tier_0") as [e|c] eqn:E.
    + unfold df_getitem in E.
      destruct (find _ obs); [discriminate|]. now injection E as <-.
    + assert (df_contains obs "tier_0" = true) by (apply df_contains_getitem; eauto).
      congruence.
  - intros tier_0 corrected Hc Ht Hfile.
    destruct (relabel_tier_0_columns obs tier_0 corrected Hc Ht)
      as (obs' & Hrel & Ht' & Hraw' & _ & _).
    exists obs'. unfold load_scores. rewrite Hrel, Hfile. auto.
Qed.

(** * [gene_selector] *)

Lemma has_label_In (label : string) (labels : list string) :
  has_label label labels = true <-> In label labels.
Proof.
  unfold has_label. rewrite existsb_exists. split.
  - intros (l & Hin & Heq). apply String.eqb_eq in Heq. now subst.
  - intros Hin. exists label. split; [exact Hin|apply String.eqb_refl].
Qed.

Lemma one_vs_all_has_upreg (label_upreg : string) (labels : list string) :
  label_upreg <> "Other"%string ->
  (In label_upreg (one_vs_all label_upreg labels) <-> In label_upreg labels).
Proof.
  intros Hne. unfold one_vs_all. rewrite in_map_iff. split.
  - intros (l & Heq & Hin). destruct (String.eqb_spec l label_upreg) as [El|Hl];
      [now subst l|congruence].
  - intros Hin. exists label_upreg. now rewrite String.eqb_refl.
Qed.

Lemma one_vs_all_has_other (label_upreg : string) (labels : list string) :
  label_upreg <> "Other"%string ->
  (In "Other"%string (one_vs_all label_upreg labels)
   <-> exists l, In l labels /\ l <> label_upreg).
Proof.
  intros Hne. unfold one_vs_all. rewrite in_map_iff. split.
  - intros (l & Heq & Hin). destruct (String.eqb_spec l label_upreg) as [El|Hl];
      [congruence|eauto].
  - intros (l & Hin & Hl). exists l.
    destruct (String.eqb_spec l label_upreg); [contradiction|auto].
Qed.

Section GeneSelectorFacts.

Context {expression : Type} `{DifferentialExpression expression}.

Variable adata_X : expression.
Variable obs : gmap string (list string).
Variables obs_name label_upreg : string.
Variables lfc_threshold pval_threshold : Q.
Variables DE_method sort_by : string.
Variable sort_ascending : bool.

(** X17.  When [gene_selector] gives up.  With both labels named, it
    returns [None] exactly when one of them has no cell in the label
    column.  With only the up-regulated label named (and that label not
    itself ['Other']), it returns [None] exactly when no cell carries the
    label or every cell does, there being nothing to compare against.  A
    label column that does not exist is a [KeyError] in both modes. *)
Theorem gene_selector_gives_up (labels : list string) :
  (obs !! obs_name = None ->
   forall down,
     gene_selector adata_X obs obs_name label_upreg down lfc_threshold
                   pval_threshold DE_method sort_by sort_ascending
     = Raise (KeyError obs_name))
  /\ (obs !! obs_name = Some labels ->
      (forall down,
          gene_selector adata_X obs obs_name label_upreg (Some down) lfc_threshold
                        pval_threshold DE_method sort_by sort_ascending = Ok None
          <-> ~ In label_upreg labels \/ ~ In down labels)
      /\ (label_upreg <> "Other"%string ->
          (gene_selector adata_X obs obs_name label_upreg None lfc_threshold
                         pval_threshold DE_method sort_by sort_ascending = Ok None
           <-> ~ In label_upreg labels \/ forall l, In l labels -> l = label_upreg))).
Proof.
  split.
  - intros Hno down. unfold gene_selector, getkey. now rewrite Hno.
  - intros Hcol.
    assert (Hshape : forall down labels' down',
               (labels', down') = match down with
                                  | None => (one_vs_all label_upreg labels, "Other"%string)
                                  | Some d => (labels, d)
                                  end ->
               (gene_selector adata_X obs obs_name label_upreg down lfc_threshold
                              pval_threshold DE_method sort_by sort_ascending = Ok None
                <-> ~ In label_upreg labels' \/ ~ In down' labels')).
    { intros down labels' down' Heq. unfold gene_selector, getkey. rewrite Hcol.
      cbn [mbind result_bind]. rewrite <- Heq.
      rewrite <- !has_label_In.
      destruct (has_label label_upreg labels'), (has_label down' labels');
        cbn [negb orb mret result_ret].
      - split.
        + destruct (DataFrame_sort_values _ _ _); cbn; discriminate.
        + intros [Hf|Hf]; exfalso; apply Hf; reflexivity.
      - split; [intros _; right; discriminate|reflexivity].
      - split; [intros _; left; discriminate|reflexivity].
      - split; [intros _; left; discriminate|reflexivity]. }
    split.
    + intros down. apply (Hshape (Some down)). reflexivity.
    + intros Hne. rewrite (Hshape None _ _ eq_refl).
      rewrite (one_vs_all_has_upreg _ _ Hne), (one_vs_all_has_other _ _ Hne).
      split.
      * intros [Hup|Hother]; [now left|right].
        intros l Hl. destruct (String.eqb_spec l label_upreg) as [El|Hl']; [exact El|].
        exfalso. apply Hother. eauto.
      * intros [Hup|Hall]; [now left|right].
        intros (l & Hl & Hl'). auto.
Qed.

(** X18.  What [gene_selector] returns when it does not give up, provided
    sorting only reorders rows: exactly the rows of the differential
    expression table whose adjusted p-value is below [pval_threshold] and
    whose log fold change is above [lfc_threshold], both strictly; a row
    with [nan] in either column is never returned. *)
Theorem gene_selector_keeps_rows_passing_both (down : option string)
  (rows : list DE.row) :
  (forall by_ ascending l l', DataFrame_sort_values by_ ascending l = Ok l' ->
                              forall r, In r l' <-> In r l) ->
  gene_selector adata_X obs obs_name label_upreg down lfc_threshold
                pval_threshold DE_method sort_by sort_ascending = Ok (Some rows) ->
  exists column,
    obs !! obs_name = Some column
    /\ (forall r, In r rows <->
           In r (rank_genes_groups adata_X
                   (match down with
                    | None => one_vs_all label_upreg column
                    | Some _ => column
                    end)
                   label_upreg
                   (match down with
                    | None => "Other"%string
                    | Some d => d
                    end)
                   DE_method)
           /\ fltb (DE.padj r) (Fin pval_threshold) = true
           /\ fltb (Fin lfc_threshold) (DE.logfoldchanges r) = true)
    /\ Forall (fun r => DE.padj r <> NaN /\ DE.logfoldchanges r <> NaN) rows.
Proof.
  intros Hsort. unfold gene_selector. intros Hsel.
  apply bind_Ok in Hsel. destruct Hsel as (column & Hcol & Hsel).
  unfold getkey in Hcol.
  destruct (obs !! obs_name) as [column'|] eqn:Hobs; [|discriminate].
  injection Hcol as ->.
  exists column. split; [reflexivity|].
  set (labels := match down with
                 | None => one_vs_all label_upreg column
                 | Some _ => column
                 end).
  set (down' := match down with
                | None => "Other"%string
                | Some d => d
                end).
  assert (Hpair : match down with
                  | None => (one_vs_all label_upreg column, "Other"%string)
                  | Some d => (column, d)
                  end = (labels, down')) by (now destruct down).
  rewrite Hpair in Hsel.
  destruct (negb _ || negb _); [discriminate|].
  apply bind_Ok in Hsel. destruct Hsel as (sorted & Hs & [= <-]).
  assert (Hin : forall r, In r sorted <->
               In r (rank_genes_groups adata_X labels label_upreg down' DE_method)
               /\ fltb (DE.padj r) (Fin pval_threshold) = true
               /\ fltb (Fin lfc_threshold) (DE.logfoldchanges r) = true).
  { intros r. rewrite (Hsort _ _ _ _ Hs r), filter_In. unfold passes.
    rewrite andb_true_iff. reflexivity. }
  split; [exact Hin|].
  apply List.Forall_forall. intros r Hr. apply Hin in Hr. destruct Hr as (_ & H1 & H2).
  split; intros Hnan; rewrite Hnan in *; cbn in *; discriminate.
Qed.

End GeneSelectorFacts.

(** * The further properties on the examples *)

Import Examples MoreExamples.

Lemma half_in_range : 0 <= 1 # 2 <= 1.
Proof. split; unfold Qle; simpl; lia. Qed.

(** X1 on the two example cells: the second one is the less confident. *)
Lemma least_confident_never_certain_witness :
  exists out,
    label_propagation two_cells full_graph 6 (1 # 2) = Ok out
    /\ certain out !! 1%nat = Some false
    /\ forall i col, In (i, col) (certain_i out) -> col !! 1%nat = Some false.
Proof.
  eexists. split; [vm_compute; reflexivity|].
  eapply (least_confident_never_certain two_cells full_graph 6 (1 # 2) _ 1%nat).
  - vm_compute. reflexivity.
  - reflexivity.
  - intros r' [<-|[<-|[]]]; vm_compute; discriminate.
Defined.

(** X2 on the scores of the two example cells, budget 6. *)
Lemma last_mask_admits_all_but_least_witness :
  0 <= 1 # 2 <= 1
  /\ exists col,
       certain_at (absdif_of two_cells) (1 # 2) 6 (Z.to_nat 6 - 1) = Ok col
       /\ length col = length (absdif_of two_cells)
       /\ forall (c : nat) (a : Q),
            absdif_of two_cells !! c = Some a ->
            (col !! c = Some true <-> exists x, In x (absdif_of two_cells) /\ x < a).
Proof.
  split; [exact half_in_range|].
  apply (last_mask_admits_all_but_least (absdif_of two_cells) (1 # 2) 6 half_in_range).
  lia.
Defined.

(** X3 on the two example cells, budget 3. *)
Lemma small_budget_always_warns_witness :
  valid_input two_cells full_graph (1 # 2)
  /\ exists out d,
       label_propagation two_cells full_graph 3 (1 # 2) = Ok out
       /\ loop_exit out = Continue
       /\ iterations_run out = Z.to_nat 3
       /\ printed out = [NonConvergence d 3].
Proof.
  split; [exact two_cells_valid|].
  apply (small_budget_always_warns two_cells full_graph 3 (1 # 2) two_cells_valid). lia.
Defined.

(** X4 on the run that stops early at iteration 5 of 7. *)
Lemma run_output_shape_witness :
  exists out,
    label_propagation two_cells full_graph 7 (1 # 2) = Ok out
    /\ map fst (certain_i out) = seq 0 (iterations_run out)
    /\ (iterations_run out <= Z.to_nat 7)%nat
    /\ (loop_exit out = Continue -> iterations_run out = Z.to_nat 7)
    /\ length (certain out) = length two_cells
    /\ (forall i col, In (i, col) (certain_i out) -> length col = length two_cells)
    /\ length (LR_with_label_propagation_proba out) = length two_cells
    /\ length (LR_with_label_propagation_tier_0_prediction out) = length two_cells.
Proof.
  eexists. split; [vm_compute; reflexivity|].
  apply (run_output_shape two_cells full_graph 7 (1 # 2)). vm_compute. reflexivity.
Defined.

(** X5 on the same run. *)
Lemma early_stop_small_table_no_change_witness :
  exists out,
    label_propagation two_cells full_graph 7 (1 # 2) = Ok out
    /\ loop_exit out = Break
    /\ (length two_cells <= 1000)%nat
    /\ exists i st,
         (5 <= i)%nat
         /\ iterations_run out = S i
         /\ reaches two_cells full_graph 7 (1 # 2) i st
         /\ LR_with_label_propagation_tier_0_prediction out = idxmax (proba_tier_0 st)
         /\ Forall (fun l => l <> None)
                   (LR_with_label_propagation_tier_0_prediction out).
Proof.
  eexists. split; [vm_compute; reflexivity|].
  split; [reflexivity|]. split; [simpl; lia|].
  apply (early_stop_small_table_no_change two_cells full_graph 7 (1 # 2)).
  - vm_compute. reflexivity.
  - reflexivity.
  - simpl. lia.
Defined.






(** X8 on a working matrix whose first row is lost, at iteration 1 of 6. *)
Lemma nan_in_certain_row_spreads_witness :
  exists ci M',
    diffusion_step (absdif_of two_cells) full_graph 6 (1 # 2) 1 damaged_matrix
    = Ok (ci, M')
    /\ ci !! 0%nat = Some true
    /\ Forall (fun row' => row' = (NaN, NaN)) M'
    /\ Forall (fun l => l = None) (idxmax M').
Proof.
  do 2 eexists. split; [vm_compute; reflexivity|].
  split; [reflexivity|].
  eapply (nan_in_certain_row_spreads (absdif_of two_cells) full_graph 6 (1 # 2) 1
            damaged_matrix _ _ 0%nat (NaN, NaN)).
  - vm_compute. reflexivity.
  - reflexivity.
  - reflexivity.
  - now left.
Defined.




(** X10 on the classifier rows of the two example cells, second cell. *)
Lemma identity_graph_step_witness :
  exists ci M',
    diffusion_step (absdif_of two_cells) (identity_graph (length two_rows)) 6 (1 # 2) 0
                   (finite_matrix two_rows) = Ok (ci, M')
    /\ (ci !! 1%nat = Some false -> M' !! 1%nat = Some (Fin (1 # 2), Fin (1 # 2)))
    /\ (ci !! 1%nat = Some true -> (2 # 10) + (8 # 10) == 1 ->
        exists x' y', M' !! 1%nat = Some (Fin x', Fin y')
                      /\ x' == (2 # 10) /\ y' == (8 # 10)).
Proof.
  do 2 eexists. split; [vm_compute; reflexivity|].
  eapply (identity_graph_step (absdif_of two_cells) 6 (1 # 2) 0 two_rows _ _ 1%nat).
  - vm_compute. reflexivity.
  - reflexivity.
Defined.

(** X11 on the example data with one label column name too few. *)
Lemma unselected_dataset_stops_before_training_witness :
  ~ In "target"%string (map fst (combine ["reference"%string; "target"%string]
                                          ["tier_0"%string]))
  /\ exists e,
       cell_annotator connectivities_dict results_dict
                      ["reference"%string; "target"%string] ["tier_0"%string]
                      ["reference"%string] "target"%string
                      ["Normal"%string; "Tumor"%string] (1 # 2) 6
       = ([], Raise e).
Proof.
  assert (Hnot : ~ In "target"%string
                      (map fst (combine ["reference"%string; "target"%string]
                                        ["tier_0"%string]))).
  { intros [Heq|[]]. discriminate. }
  split; [exact Hnot|].
  apply (unselected_dataset_stops_before_training connectivities_dict results_dict
           ["reference"%string; "target"%string] ["tier_0"%string]
           ["reference"%string] "target"%string ["Normal"%string; "Tumor"%string]
           (1 # 2) 6).
  left. exact Hnot.
Defined.

Lemma selected_features_run :
  select_features results_dict ["Normal"%string; "Tumor"%string]
                  (combine ["reference"%string; "target"%string]
                           ["tier_0"%string; "tier_0"%string]) (∅, ∅)
  = Ok selected_features.
Proof. vm_compute. reflexivity. Qed.

(** X12 on the example data. *)
Lemma no_training_dataset_stops_before_training_witness :
  cell_annotator connectivities_dict results_dict
                 ["reference"%string; "target"%string]
                 ["tier_0"%string; "tier_0"%string]
                 [] "target"%string ["Normal"%string; "Tumor"%string] (1 # 2) 6
  = ([], Raise (ValueError "No objects to concatenate")).
Proof.
  exact (proj2 (no_training_dataset_stops_before_training connectivities_dict
                  results_dict ["reference"%string; "target"%string]
                  ["tier_0"%string; "tier_0"%string] [] "target"%string
                  ["Normal"%string; "Tumor"%string] (1 # 2) 6 eq_refl)
               selected_features selected_features_run).
Defined.

Lemma scored_target_run :
  train_and_score results_dict ["reference"%string; "target"%string]
                  ["tier_0"%string; "tier_0"%string] ["reference"%string]
                  "target"%string ["Normal"%string; "Tumor"%string]
  = ([Fit; Predict; PredictProba], Ok scored_target).
Proof. vm_compute. reflexivity. Qed.

(** X13 on the example data with an empty dict of graphs. *)
Lemma missing_graph_found_after_training_witness :
  cell_annotator ∅ results_dict
                 ["reference"%string; "target"%string]
                 ["tier_0"%string; "tier_0"%string]
                 ["reference"%string] "target"%string
                 ["Normal"%string; "Tumor"%string] (1 # 2) 6
  = ([Fit; Predict; PredictProba], Raise (KeyError "target")).
Proof.
  apply (missing_graph_found_after_training ∅ results_dict
           ["reference"%string; "target"%string]
           ["tier_0"%string; "tier_0"%string] ["reference"%string]
           "target"%string ["Normal"%string; "Tumor"%string] (1 # 2) 6
           _ scored_target scored_target_run).
  vm_compute. reflexivity.
Defined.

(** X14 on the example data. *)
Lemma train_and_score_result_witness :
  exists df0 X_test Xs ys X_train y_train Model,
    results_dict !! "target"%string = Some df0
    /\ loc_columns df0 ["Normal"%string; "Tumor"%string] = Ok X_test
    /\ Forall2 (fun name X => exists d, results_dict !! name = Some d
                                /\ loc_columns d ["Normal"%string; "Tumor"%string] = Ok X)
               ["reference"%string] Xs
    /\ concat_rows (length ["Normal"%string; "Tumor"%string]) Xs = Ok X_train
    /\ Forall2 (fun name y => exists d obs_name,
                    In (name, obs_name)
                       (combine ["reference"%string; "target"%string]
                                ["tier_0"%string; "tier_0"%string])
                    /\ results_dict !! name = Some d
                    /\ categorical d !! obs_name = Some y)
               ["reference"%string] ys
    /\ concat_series ys = Ok y_train
    /\ fit X_train y_train = Ok Model
    /\ nrows scored_target = nrows df0
    /\ length (predict_proba Model X_test) = nrows df0
    /\ length (predict Model X_test) = nrows df0
    /\ numeric scored_target
       = <["LR_proba_Tumor"%string := map snd (predict_proba Model X_test)]>
           (<["LR_proba_Normal"%string := map fst (predict_proba Model X_test)]>
              (numeric df0))
    /\ categorical scored_target
       = <["LR_tier_0_prediction"%string := predict Model X_test]> (categorical df0).
Proof.
  exact (train_and_score_result results_dict ["reference"%string; "target"%string]
           ["tier_0"%string; "tier_0"%string] ["reference"%string]
           "target"%string ["Normal"%string; "Tumor"%string] _ _ scored_target_run).
Defined.

(** X15 on a two-cell [adata.obs] with a corrected column. *)
Lemma load_scores_twice_loses_raw_labels_witness :
  exists obs1 obs2,
    load_scores disk "sample" obs_with_correction
    = (obs1, inr (obs1 ++ map (fun kv => (fst kv, NumericColumn (snd kv))) score_table))
    /\ df_getitem obs1 "tier_0" = inr (LabelColumn ["Tumor"%string; "Tumor"%string])
    /\ df_getitem obs1 "tier_0_raw" = inr (LabelColumn ["Normal"%string; "Tumor"%string])
    /\ (forall key, key <> "tier_0"%string -> key <> "tier_0_raw"%string ->
                    df_getitem obs1 key = df_getitem obs_with_correction key)
    /\ load_scores disk "sample" obs1
       = (obs2, inr (obs2 ++ map (fun kv => (fst kv, NumericColumn (snd kv))) score_table))
    /\ df_getitem obs2 "tier_0" = inr (LabelColumn ["Tumor"%string; "Tumor"%string])
    /\ df_getitem obs2 "tier_0_raw" = inr (LabelColumn ["Tumor"%string; "Tumor"%string]).
Proof.
  apply (load_scores_twice_loses_raw_labels disk "sample" obs_with_correction
           (LabelColumn ["Normal"%string; "Tumor"%string])
           (LabelColumn ["Tumor"%string; "Tumor"%string]) score_table).
  - reflexivity.
  - reflexivity.
  - vm_compute. reflexivity.
Defined.

(** X16, the missing file, on the same [adata.obs] and an empty disk. *)
Lemma load_scores_failures_witness :
  exists obs',
    load_scores ∅ "sample" obs_with_correction
    = (obs', inl (FileNotFoundError (scores_path "sample")))
    /\ df_getitem obs' "tier_0" = inr (LabelColumn ["Tumor"%string; "Tumor"%string])
    /\ df_getitem obs' "tier_0_raw" = inr (LabelColumn ["Normal"%string; "Tumor"%string]).
Proof.
  apply (proj2 (proj2 (load_scores_failures ∅ "sample" obs_with_correction))
           (LabelColumn ["Normal"%string; "Tumor"%string])
           (LabelColumn ["Tumor"%string; "Tumor"%string])).
  - reflexivity.
  - reflexivity.
  - reflexivity.
Defined.

(** X17 on a label column with two labels. *)
Lemma gene_selector_gives_up_witness :
  label_columns !! "tier_0"%string
  = Some ["Tumor"%string; "Normal"%string; "Tumor"%string]
  /\ (gene_selector tt label_columns "tier_0" "Tumor" (Some "Stroma"%string) 3 (1 # 10)
                    "t-test_overestim_var" "logfoldchanges" false = Ok None
      <-> ~ In "Tumor"%string ["Tumor"%string; "Normal"%string; "Tumor"%string]
          \/ ~ In "Stroma"%string ["Tumor"%string; "Normal"%string; "Tumor"%string])
  /\ (gene_selector tt label_columns "tier_0" "Tumor" None 3 (1 # 10)
                    "t-test_overestim_var" "logfoldchanges" false = Ok None
      <-> ~ In "Tumor"%string ["Tumor"%string; "Normal"%string; "Tumor"%string]
          \/ forall l, In l ["Tumor"%string; "Normal"%string; "Tumor"%string]
                       -> l = "Tumor"%string).
Proof.
  assert (Hcol : label_columns !! "tier_0"%string
                 = Some ["Tumor"%string; "Normal"%string; "Tumor"%string])
    by (vm_compute; reflexivity).
  split; [exact Hcol|].
  destruct (proj2 (gene_selector_gives_up tt label_columns "tier_0" "Tumor" 3 (1 # 10)
                     "t-test_overestim_var" "logfoldchanges" false
                     ["Tumor"%string; "Normal"%string; "Tumor"%string]) Hcol)
    as (Hboth & Hone).
  split; [apply Hboth|apply Hone; discriminate].
Defined.

Lemma fixed_sort_keeps_rows (by_ : string) (ascending : bool) (l l' : list DE.row) :
  DataFrame_sort_values by_ ascending l = Ok l' -> forall r, In r l' <-> In r l.
Proof.
  cbn. intros [= <-] r. reflexivity.
Qed.

(** X18 on the stand-in table: one gene passes both thresholds. *)
Lemma gene_selector_keeps_rows_passing_both_witness :
  exists rows column,
    gene_selector tt label_columns "tier_0" "Tumor" None 3 (1 # 10)
                  "t-test_overestim_var" "logfoldchanges" false = Ok (Some rows)
    /\ map DE.gene_symbol rows = ["EPCAM"%string]
    /\ label_columns !! "tier_0"%string = Some column
    /\ (forall r, In r rows <->
           In r (rank_genes_groups tt (one_vs_all "Tumor" column) "Tumor" "Other"
                                   "t-test_overestim_var")
           /\ fltb (DE.padj r) (Fin (1 # 10)) = true
           /\ fltb (Fin 3) (DE.logfoldchanges r) = true)
    /\ Forall (fun r => DE.padj r <> NaN /\ DE.logfoldchanges r <> NaN) rows.
Proof.
  eexists.
  match goal with
  | |- exists column, ?P = Ok (Some ?r) /\ _ =>
      assert (Hrun : P = Ok (Some r)) by (vm_compute; reflexivity)
  end.
  destruct (gene_selector_keeps_rows_passing_both tt label_columns "tier_0" "Tumor"
              3 (1 # 10) "t-test_overestim_var" "logfoldchanges" false None _
              fixed_sort_keeps_rows Hrun)
    as (column & Hcol & Hrows & Hnan).
  exists column. split; [exact Hrun|]. split; [reflexivity|].
  split; [exact Hcol|]. split; [exact Hrows|exact Hnan].
Defined.

